(** * cmd/internal/bio: seekable buffered I/O

    A shallow embedding of [src/cmd/internal/bio/buf.go] and of the parts of
    the packages [os], [bufio], [io] and [log] that it calls, followed by
    the properties of the package.

    Conventions.  A Go [int] or [int64] is a [Z]; the only arithmetic the
    package does on one ([offset -= int64(...)]) has its wrap-around written
    out.  A [[]byte] is a [list byte]; a call that fills a caller's slice [p]
    takes [len(p)] and returns the bytes it stored in [p[0:n]].  A [*os.File]
    is a reference into the table of open files of the [World], so that the
    handle a stream seeks on and the handle its buffer reads from are one
    object.  A Go struct reached through a pointer that has one owner (the
    [bio.Reader], its [bufio.Reader]) is passed in and handed back.
    [log.Fatalf] ends the run: it is an [outcome] of its own.  A loop takes
    fuel; where the source bounds it the fuel is that bound, where it does
    not ([ReadBytes], [ReadAtLeast]) the fuel is an argument, and the
    properties say how much is enough. *)

From Stdlib Require Import ZArith Strings.Byte Strings.String.
From stdpp Require Import base option list gmap strings.

Local Open Scope Z_scope.

(** ** Errors *)

(** The error numbers of the system calls behind a handle. *)
Inductive errno : Set := EINVAL | ENOENT | EIO | ENOSPC | EPIPE.

(** The error values that reach this package: the sentinel errors of [io]
    and [bufio], [os.ErrInvalid] (what the methods of a nil or closed
    [*os.File] report), and the [*os.PathError] a failed system call is
    wrapped in. *)
Inductive error : Set :=
| io_EOF
| io_ErrUnexpectedEOF
| io_ErrShortWrite
| io_ErrNoProgress
| io_ErrShortBuffer
| bufio_ErrBufferFull
| bufio_ErrNegativeCount
| os_ErrInvalid
| os_PathError (e : errno).

#[global] Instance errno_eq_dec : EqDecision errno.
Proof. solve_decision. Defined.

#[global] Instance error_eq_dec : EqDecision error.
Proof. solve_decision. Defined.

#[global] Instance byte_eq_dec : EqDecision byte := Byte.byte_eq_dec.

(** [byte(delim)] for an [int]: the low eight bits. *)
Definition byte_of_int (z : Z) : byte :=
  default x00 (Byte.of_N (Z.to_N (z mod 256))).

(** [int(c)] for a [byte]. *)
Definition int_of_byte (c : byte) : Z := Z.of_N (Byte.to_N c).

(** Two's-complement wrap-around of [int64] arithmetic. *)
Definition wrap64 (z : Z) : Z := (z + 2 ^ 63) mod 2 ^ 64 - 2 ^ 63.

(** [a - b] on [int64]. *)
Definition int64_sub (a b : Z) : Z := wrap64 (a - b).

(** ** The files and the world *)

Module os.

(** Modelled from the spec: what the "underlying storage handle" does at
    one call when it is not a plain file (package [os] is not among the
    sources at hand): it transfers at most [upto] bytes and reports the
    error [fails].  This covers "any underlying read or write failure" and
    the streams that deliver less than asked for (pipes, and the byte
    streams of adapter mode). *)
Record step : Set := Step { upto : nat; fails : option errno }.

(** Modelled from the spec: the "random-access storage handle" ([os.File]):
    contents, raw cursor, open or closed, the steps scripted for its next
    reads and for its next writes, and the error its release reports.
    With nothing scripted it is a plain file. *)
Record File : Set := mkFile {
  data : list byte;
  pos : nat;
  closed : bool;
  reads : list step;
  writes : list step;
  closing : option errno
}.

(** Modelled from the spec: a plain file with the given contents, open,
    cursor at 0. *)
Definition plain (contents : list byte) : File :=
  mkFile contents 0 false [] [] None.

(** Modelled from the spec: [f.Read(p)] with [len(p) = k].  The bytes
    come from the cursor on, the cursor moves over them; at the end of a
    plain file the read reports [(0, io.EOF)], the "clean end-of-stream". *)
Definition file_read (f : File) (k : nat) : (list byte * option error) * File :=
  if closed f then (([], Some os_ErrInvalid), f)
  else match reads f with
       | st :: rest =>
           let got := take (Nat.min (upto st) k) (drop (pos f) (data f)) in
           ((got, os_PathError <$> fails st),
            mkFile (data f) (pos f + length got) false rest (writes f) (closing f))
       | [] =>
           let got := take k (drop (pos f) (data f)) in
           match got, k with
           | [], S _ => (([], Some io_EOF), f)
           | _, _ =>
               ((got, None),
                mkFile (data f) (pos f + length got) false [] (writes f) (closing f))
           end
       end.

(** Modelled from the spec: the contents after [p] is written at offset
    [at_]; a gap left by a seek beyond the end reads as zero bytes. *)
Definition store (d : list byte) (at_ : nat) (p : list byte) : list byte :=
  take at_ d ++ replicate (at_ - length d) x00 ++ p ++ drop (at_ + length p) d.

(** Modelled from the spec: [f.Write(p)], at the cursor, which moves over
    what is written.  A write that transfers less than [len(p)] reports an
    error, [io.ErrShortWrite] when the device names none. *)
Definition file_write (f : File) (p : list byte) : (nat * option error) * File :=
  if closed f then ((0%nat, Some os_ErrInvalid), f)
  else match writes f with
       | st :: rest =>
           let q := take (upto st) p in
           let e := match fails st with
                    | Some e => Some (os_PathError e)
                    | None => if (length q <? length p)%nat
                              then Some io_ErrShortWrite else None
                    end in
           ((length q, e),
            mkFile (store (data f) (pos f) q) (pos f + length q) false
                   (reads f) rest (closing f))
       | [] =>
           ((length p, None),
            mkFile (store (data f) (pos f) p) (pos f + length p) false
                   (reads f) [] (closing f))
       end.

(** Modelled from the spec: where [f.Seek(offset, whence)] lands, for the
    "three conventional modes": 0 is from the start, 1 from the cursor, 2
    from the end; any other value is refused. *)
Definition seek_target (f : File) (offset whence : Z) : option Z :=
  match whence with
  | 0 => Some offset
  | 1 => Some (Z.of_nat (pos f) + offset)
  | 2 => Some (Z.of_nat (length (data f)) + offset)
  | _ => None
  end.

(** Modelled from the spec: [f.Seek(offset, whence)], which returns "the
    resulting absolute position", or [(0, err)] when the target is
    negative, does not fit an [int64], or [whence] is unknown. *)
Definition file_seek (f : File) (offset whence : Z) : (Z * option error) * File :=
  if closed f then ((0, Some os_ErrInvalid), f)
  else match seek_target f offset whence with
       | Some t =>
           if (0 <=? t) && (t <? 2 ^ 63)
           then ((t, None),
                 mkFile (data f) (Z.to_nat t) false (reads f) (writes f) (closing f))
           else ((0, Some (os_PathError EINVAL)), f)
       | None => ((0, Some (os_PathError EINVAL)), f)
       end.

(** Modelled from the spec: [f.Close()], which "releases the handle" and
    returns "any failure from that release". *)
Definition file_close (f : File) : option error * File :=
  if closed f then (Some os_ErrInvalid, f)
  else (os_PathError <$> closing f,
        mkFile (data f) (pos f) true (reads f) (writes f) (closing f)).

(** Modelled from the spec: what [os.Create] meets at a name where it
    cannot make a regular file: a resource that "cannot be created", with
    the error number of the refusal, or a device, with the steps scripted
    for the writes to it and the error its release reports (a full disk
    "may fail" every write). *)
Inductive node : Set :=
| Refused (e : errno)
| Device (ws : list step) (cl : option errno).

(** Modelled from the spec: the file a new handle on a device is: empty,
    open, cursor at 0. *)
Definition device (ws : list step) (cl : option errno) : File :=
  mkFile [] 0 false [] ws cl.

End os.

(** The world a program runs in: the table of open files, by reference,
    the named resources [os.Open] and [os.Create] resolve, and the names
    where [os.Create] does not make a regular file. *)
Record World : Type := mkWorld {
  files : gmap nat os.File;
  disk : gmap string (list byte);
  nodes : gmap string os.node
}.

(** The world where the open file [d] is [f]. *)
Definition set_file (d : nat) (f : os.File) (w : World) : World :=
  mkWorld (<[d := f]> (files w)) (disk w) (nodes w).

(** ** Outcomes and the monad of the program *)

(** A call returns, or ends the process through [log.Fatalf] with a message
    and the error it formats, or panics. *)
Inductive outcome (A : Type) : Type :=
| Ret (a : A) (w : World)
| Fatal (msg : string) (e : error)
| Panic (msg : string).

Arguments Ret {A} a w.
Arguments Fatal {A} msg e.
Arguments Panic {A} msg.

(** [None] is a loop that was cut off by its fuel. *)
Definition M (A : Type) : Type := World -> option (outcome A).

(** [return a]. *)
Definition ret {A} (a : A) : M A := fun w => Some (Ret a w).

(** Sequencing: what follows runs in the world the first part left, and
    does not run when the first part did not return. *)
Definition bind {A B} (m : M A) (k : A -> M B) : M B :=
  fun w => match m w with
           | Some (Ret a w') => k a w'
           | Some (Fatal msg e) => Some (Fatal msg e)
           | Some (Panic msg) => Some (Panic msg)
           | None => None
           end.

(** Modelled from the spec: [log.Fatalf(msg, err)], the "fatal failure"
    that "aborts the current operation outright" (package [log] is not
    among the sources at hand): the message is printed and the process
    exits. *)
Definition log_Fatalf {A} (msg : string) (e : error) : M A :=
  fun _ => Some (Fatal msg e).

(** A run-time panic. *)
Definition panic {A} (msg : string) : M A := fun _ => Some (Panic msg).

(** A loop cut off. *)
Definition out_of_fuel {A} : M A := fun _ => None.

Declare Scope prog_scope.
Delimit Scope prog_scope with prog.
Notation "'let*' x ':=' c1 'in' c2" := (bind c1 (fun x => c2))
  (at level 10, x pattern, c1 at level 100, c2 at level 200) : prog_scope.
Local Open Scope prog_scope.

Module os_calls.

(** Modelled from the spec: a method of [*os.File] called on a reference;
    [None] is the nil pointer.  The methods of package [os] answer a nil
    receiver with [os.ErrInvalid]; a reference to no open file is answered
    the same way. *)
Definition on_file {A} (h : option nat) (dflt : A)
    (op : os.File -> A * os.File) : M A :=
  fun w =>
    match h with
    | None => Some (Ret dflt w)
    | Some d =>
        match files w !! d with
        | None => Some (Ret dflt w)
        | Some f => let '(a, f') := op f in Some (Ret a (set_file d f' w))
        end
    end.

(** Modelled from the spec: [f.Read(p)] on a reference, [len(p) = k]. *)
Definition Read (h : option nat) (k : nat) : M (list byte * option error) :=
  on_file h ([], Some os_ErrInvalid) (fun f => os.file_read f k).

(** Modelled from the spec: [f.Write(p)] on a reference. *)
Definition Write (h : option nat) (p : list byte) : M (nat * option error) :=
  on_file h (0%nat, Some os_ErrInvalid) (fun f => os.file_write f p).

(** Modelled from the spec: [f.Seek(offset, whence)] on a reference. *)
Definition Seek (h : option nat) (offset whence : Z) : M (Z * option error) :=
  on_file h (0, Some os_ErrInvalid) (fun f => os.file_seek f offset whence).

(** Modelled from the spec: [f.Close()] on a reference. *)
Definition Close (h : option nat) : M (option error) :=
  on_file h (Some os_ErrInvalid) os.file_close.

(** Modelled from the spec: a reference no open file uses. *)
Definition fresh_fd (w : World) : nat := fresh (dom (files w)).

(** Modelled from the spec: [os.Open(name)], which "acquires a readable
    handle to the named resource", cursor at 0, and "fails with an I/O
    error if the resource cannot be opened". *)
Definition Open (name : string) : M (option nat * option error) :=
  fun w =>
    match disk w !! name with
    | None => Some (Ret (None, Some (os_PathError ENOENT)) w)
    | Some contents =>
        let d := fresh_fd w in
        Some (Ret (Some d, None) (set_file d (os.plain contents) w))
    end.

(** Modelled from the spec: [os.Create(name)], which "acquires/creates a
    writable handle" on an empty resource and "fails if the resource cannot
    be created": the empty name cannot, nor can a name the world refuses;
    at the name of a device the handle is on the device, whose writes "may
    fail"; at any other name a regular file is made, or emptied. *)
Definition Create (name : string) : M (option nat * option error) :=
  fun w =>
    if decide (name = EmptyString)
    then Some (Ret (None, Some (os_PathError ENOENT)) w)
    else
      let d := fresh_fd w in
      match nodes w !! name with
      | Some (os.Refused e) => Some (Ret (None, Some (os_PathError e)) w)
      | Some (os.Device ws cl) =>
          Some (Ret (Some d, None)
                    (mkWorld (<[d := os.device ws cl]> (files w)) (disk w) (nodes w)))
      | None =>
          Some (Ret (Some d, None)
                    (mkWorld (<[d := os.plain []]> (files w))
                             (<[name := []]> (disk w)) (nodes w)))
      end.

End os_calls.

(** ** Package bufio *)

Module bufio.

(** Modelled from the spec: the size of the buffers [NewReader] and
    [NewWriter] allocate (package [bufio] is not among the sources at hand;
    it is modelled as it was when this package was written). *)
Definition defaultBufSize : nat := 4096.

(** Modelled from the spec: how often [fill] retries a read that brought
    neither a byte nor an error. *)
Definition maxConsecutiveEmptyReads : nat := 100.

(** Modelled from the spec: [bytes.IndexByte], the index of the "first
    occurrence" of [c] in [l]. *)
Fixpoint index_byte (l : list byte) (c : byte) : option nat :=
  match l with
  | [] => None
  | x :: l' => if decide (x = c) then Some 0%nat else S <$> index_byte l' c
  end.

Module Reader.

(** Modelled from the spec: the read-ahead buffer ([bufio.Reader], whose
    source is not part of the sources at hand).  [buf] is the part of the
    buffer that is "held in the read-ahead buffer but not yet consumed"
    ([b.buf[b.r:b.w]]), [size] is [len(b.buf)], [err] the error of the
    last underlying read, kept until it is reported, and [rd] the stream
    read from.  The fields for [UnreadByte] and [UnreadRune] are left out:
    nothing here reads them. *)
Record t : Set := mk {
  buf : list byte;
  size : nat;
  err : option error;
  rd : option nat
}.

(** Modelled from the spec: [bufio.NewReader(rd)], an empty buffer of the
    default size. *)
Definition NewReader (rd : option nat) : t := mk [] defaultBufSize None rd.

(** Modelled from the spec: [b.Reset(r)], "discarding the buffer's
    contents" and the pending error. *)
Definition Reset (b : t) (r : option nat) : t := mk [] (size b) None r.

(** Modelled from the spec: [b.Buffered()], "the number of bytes already
    pulled into its buffer but not yet consumed". *)
Definition Buffered (b : t) : nat := length (buf b).

(** Modelled from the spec: [b.readErr()], the pending error, which is
    cleared. *)
Definition readErr (b : t) : option error * t :=
  (err b, mk (buf b) (size b) None (rd b)).

(** Modelled from the spec: the loop of [fill], which reads into the free
    part of the buffer until a read brings bytes or an error, at most [i]
    times. *)
Fixpoint fill_tries (i : nat) (b : t) : M t :=
  match i with
  | O => ret (mk (buf b) (size b) (Some io_ErrNoProgress) (rd b))
  | S i' =>
      let* (got, e) := os_calls.Read (rd b) (size b - length (buf b)) in
      let b' := mk (buf b ++ got) (size b) (err b) (rd b) in
      match e with
      | Some _ => ret (mk (buf b') (size b) e (rd b))
      | None => match got with
                | [] => fill_tries i' b'
                | _ :: _ => ret b'
                end
      end
  end.

(** Modelled from the spec: [b.fill()], the read-ahead; it is not to be
    called on a full buffer. *)
Definition fill (b : t) : M t :=
  if (size b <=? length (buf b))%nat
  then panic "bufio: tried to fill full buffer"
  else fill_tries maxConsecutiveEmptyReads b.

(** Modelled from the spec: [copy(p, b.buf[b.r:b.w])] and the advance of
    [b.r]. *)
Definition copy_out (b : t) (n : nat) : list byte * option error * t :=
  (take n (buf b), None, mk (drop n (buf b)) (size b) (err b) (rd b)).

(** Modelled from the spec: [b.Read(p)] with [len(p) = n], the "standard
    buffered sequential read" that "may read fewer bytes than requested
    without error": what is buffered is handed out; an empty buffer is
    refilled by one [fill], or bypassed when [p] is at least as large as
    the buffer. *)
Definition Read (b : t) (n : nat) : M (list byte * option error * t) :=
  match n with
  | O => let '(e, b) := readErr b in ret ([], e, b)
  | S _ =>
      match buf b with
      | _ :: _ => ret (copy_out b n)
      | [] =>
          match err b with
          | Some _ => let '(e, b) := readErr b in ret ([], e, b)
          | None =>
              if (size b <=? n)%nat
              then
                let* (got, e) := os_calls.Read (rd b) n in
                ret (got, e, mk [] (size b) None (rd b))
              else
                let* b := fill b in
                match buf b with
                | [] => let '(e, b) := readErr b in ret ([], e, b)
                | _ :: _ => ret (copy_out b n)
                end
          end
      end
  end.

(** Modelled from the spec: the loop of [b.ReadByte()],
    [for b.r == b.w { if b.err != nil {...}; b.fill() }]. *)
Fixpoint ReadByte_loop (fuel : nat) (b : t) : M (byte * option error * t) :=
  match buf b with
  | c :: rest => ret (c, None, mk rest (size b) (err b) (rd b))
  | [] =>
      match err b with
      | Some _ => let '(e, b) := readErr b in ret (x00, e, b)
      | None =>
          match fuel with
          | O => out_of_fuel
          | S fuel' => let* b := fill b in ReadByte_loop fuel' b
          end
      end
  end.

(** Modelled from the spec: [b.ReadByte()]; one [fill] decides the loop,
    two rounds are allowed. *)
Definition ReadByte (b : t) : M (byte * option error * t) := ReadByte_loop 2 b.

(** Modelled from the spec: the loop of [Peek],
    [for b.w-b.r < n && b.err == nil { b.fill() }]. *)
Fixpoint Peek_loop (fuel : nat) (b : t) (n : nat) : M t :=
  if (length (buf b) <? n)%nat && bool_decide (err b = None)
  then match fuel with
       | O => out_of_fuel
       | S fuel' => let* b := fill b in Peek_loop fuel' b n
       end
  else ret b.

(** Modelled from the spec: [b.Peek(n)], "the next n buffered bytes
    without advancing"; it "fails if n exceeds what can be buffered or the
    stream ends first". *)
Definition Peek (b : t) (n : Z) : M (list byte * option error * t) :=
  if n <? 0 then ret ([], Some bufio_ErrNegativeCount, b)
  else if Z.of_nat (size b) <? n then ret ([], Some bufio_ErrBufferFull, b)
  else
    let n := Z.to_nat n in
    let* b := Peek_loop (S n) b n in
    if (length (buf b) <? n)%nat
    then let '(e, b) := readErr b in
         ret (buf b, Some (default bufio_ErrBufferFull e), b)
    else ret (take n (buf b), None, b).

(** Modelled from the spec: the loop of [b.ReadSlice(delim)]: search the
    buffer, then report a pending error, then give up on a full buffer,
    else fill and search again. *)
Fixpoint ReadSlice_loop (fuel : nat) (b : t) (delim : byte)
    : M (list byte * option error * t) :=
  match index_byte (buf b) delim with
  | Some i =>
      ret (take (S i) (buf b), None, mk (drop (S i) (buf b)) (size b) (err b) (rd b))
  | None =>
      match err b with
      | Some _ => ret (buf b, err b, mk [] (size b) None (rd b))
      | None =>
          if (size b <=? Buffered b)%nat
          then ret (buf b, Some bufio_ErrBufferFull, mk [] (size b) None (rd b))
          else match fuel with
               | O => out_of_fuel
               | S fuel' => let* b := fill b in ReadSlice_loop fuel' b delim
               end
      end
  end.

(** Modelled from the spec: [b.ReadSlice(delim)]; every [fill] brings a
    byte or an error, so the loop ends within [len(b.buf)] rounds. *)
Definition ReadSlice (b : t) (delim : byte) : M (list byte * option error * t) :=
  ReadSlice_loop (S (size b)) b delim.

(** Modelled from the spec: the loop of [b.ReadBytes(delim)]: [ReadSlice]
    until it finds the delimiter or fails with something else than a full
    buffer; [full] is the concatenation of the full buffers collected so
    far.  The loop has no bound of its own. *)
Fixpoint ReadBytes_loop (fuel : nat) (b : t) (delim : byte) (full : list byte)
    : M (list byte * option error * t) :=
  match fuel with
  | O => out_of_fuel
  | S fuel' =>
      let* (frag, e, b) := ReadSlice b delim in
      match e with
      | None => ret (full ++ frag, None, b)
      | Some e' =>
          if decide (e' = bufio_ErrBufferFull)
          then ReadBytes_loop fuel' b delim (full ++ frag)
          else ret (full ++ frag, Some e', b)
      end
  end.

(** Modelled from the spec: [b.ReadBytes(delim)], "the bytes up to and
    including the first occurrence of the delimiter, as a single returned
    sequence"; when an error keeps it from finding one it returns what it
    read and that error, [io.EOF] at the end of the stream. *)
Definition ReadBytes (fuel : nat) (b : t) (delim : byte)
    : M (list byte * option error * t) :=
  ReadBytes_loop fuel b delim [].

End Reader.

Module Writer.

(** Modelled from the spec: the write-behind buffer ([bufio.Writer], whose
    source is not part of the sources at hand).  [buf] holds the bytes
    "accepted from the caller but not yet committed to the handle"
    ([b.buf[0:b.n]]), [size] is [len(b.buf)], [err] the first write error,
    which every later call reports again, and [wr] the stream written to. *)
Record t : Set := mk {
  err : option error;
  buf : list byte;
  size : nat;
  wr : option nat
}.

(** Modelled from the spec: [bufio.NewWriter(wr)], an empty buffer of the
    default size. *)
Definition NewWriter (wr : option nat) : t := mk None [] defaultBufSize wr.

(** Modelled from the spec: [b.Available()], the room left in the buffer. *)
Definition Available (b : t) : nat := (size b - length (buf b))%nat.

(** Modelled from the spec: [b.Buffered()], the count of bytes accepted and
    not yet written. *)
Definition Buffered (b : t) : nat := length (buf b).

(** Modelled from the spec: [b.Flush()], which "forces all buffered bytes
    to the underlying handle" in one write and "fails on any underlying
    write failure"; the bytes that were not written stay buffered and the
    error sticks. *)
Definition Flush (b : t) : M (option error * t) :=
  match err b with
  | Some e => ret (Some e, b)
  | None =>
      match buf b with
      | [] => ret (None, b)
      | _ :: _ =>
          let* (n, e) := os_calls.Write (wr b) (buf b) in
          let e := match e with
                   | None => if (n <? length (buf b))%nat
                             then Some io_ErrShortWrite else None
                   | Some _ => e
                   end in
          match e with
          | Some _ => ret (e, mk e (drop n (buf b)) (size b) (wr b))
          | None => ret (None, mk None [] (size b) (wr b))
          end
      end
  end.

(** Modelled from the spec: the loop of [Write],
    [for len(p) > b.Available() && b.err == nil { ... }]: a large write on
    an empty buffer goes to the handle directly, otherwise the buffer is
    topped up and flushed.  Returns the rest of [p]. *)
Fixpoint Write_loop (fuel : nat) (b : t) (p : list byte) (nn : nat)
    : M (list byte * nat * t) :=
  if (Available b <? length p)%nat && bool_decide (err b = None)
  then match fuel with
       | O => out_of_fuel
       | S fuel' =>
           match buf b with
           | [] =>
               let* (n, e) := os_calls.Write (wr b) p in
               Write_loop fuel' (mk e [] (size b) (wr b)) (drop n p) (nn + n)
           | _ :: _ =>
               let n := Nat.min (Available b) (length p) in
               let* (_, b) := Flush (mk (err b) (buf b ++ take n p) (size b) (wr b)) in
               Write_loop fuel' b (drop n p) (nn + n)
           end
       end
  else ret (p, nn, b).

(** Modelled from the spec: [b.Write(p)], a buffered sequential write that
    "may fail if the internal buffer cannot be flushed to make room": the
    count of bytes accepted and the error. *)
Definition Write (b : t) (p : list byte) : M (nat * option error * t) :=
  let* (p, nn, b) := Write_loop (S (S (length p))) b p 0 in
  match err b with
  | Some e => ret (nn, Some e, b)
  | None =>
      let n := Nat.min (Available b) (length p) in
      ret ((nn + n)%nat, None, mk None (buf b ++ take n p) (size b) (wr b))
  end.

(** Modelled from the spec: the loop of [WriteString],
    [for len(s) > b.Available() && b.err == nil { copy; flush }]. *)
Fixpoint WriteString_loop (fuel : nat) (b : t) (s : list byte) (nn : nat)
    : M (list byte * nat * t) :=
  if (Available b <? length s)%nat && bool_decide (err b = None)
  then match fuel with
       | O => out_of_fuel
       | S fuel' =>
           let n := Nat.min (Available b) (length s) in
           let* (_, b) := Flush (mk (err b) (buf b ++ take n s) (size b) (wr b)) in
           WriteString_loop fuel' b (drop n s) (nn + n)
       end
  else ret (s, nn, b).

(** Modelled from the spec: [b.WriteString(s)], as [Write] without the
    direct write. *)
Definition WriteString (b : t) (s : list byte) : M (nat * option error * t) :=
  let* (s, nn, b) := WriteString_loop (S (S (length s))) b s 0 in
  match err b with
  | Some e => ret (nn, Some e, b)
  | None =>
      let n := Nat.min (Available b) (length s) in
      ret ((nn + n)%nat, None, mk None (buf b ++ take n s) (size b) (wr b))
  end.

(** Modelled from the spec: [b.WriteByte(c)], which flushes a full buffer
    to make room. *)
Definition WriteByte (b : t) (c : byte) : M (option error * t) :=
  match err b with
  | Some e => ret (Some e, b)
  | None =>
      let* (e, b) := (if (Available b <=? 0)%nat then Flush b else ret (None, b)) in
      match e with
      | Some _ => ret (err b, b)
      | None =>
          if (size b <=? length (buf b))%nat
          then panic "runtime error: index out of range"
          else ret (None, mk (err b) (buf b ++ [c]) (size b) (wr b))
      end
  end.

End Writer.

End bufio.

(** ** Package io *)

Module io.

(** Modelled from the spec: the loop of [io.ReadAtLeast] (package [io] is
    not among the sources at hand), [for n < min && err == nil], on the one
    reader this package hands it, a [*bufio.Reader].  [got] is
    [buf[0:n]]. *)
Fixpoint ReadAtLeast_loop (fuel : nat) (r : bufio.Reader.t) (len min : nat)
    (got : list byte) (err : option error)
    : M (list byte * option error * bufio.Reader.t) :=
  if (length got <? min)%nat && bool_decide (err = None)
  then match fuel with
       | O => out_of_fuel
       | S fuel' =>
           let* (more, e, r) := bufio.Reader.Read r (len - length got) in
           ReadAtLeast_loop fuel' r len min (got ++ more) e
       end
  else ret (got, err, r).

(** Modelled from the spec: [io.ReadAtLeast(r, buf, min)]; a read that
    ends short of [min] with [io.EOF] after some bytes reports
    [io.ErrUnexpectedEOF]. *)
Definition ReadAtLeast (fuel : nat) (r : bufio.Reader.t) (len min : nat)
    : M (list byte * option error * bufio.Reader.t) :=
  if (len <? min)%nat then ret ([], Some io_ErrShortBuffer, r)
  else
    let* (got, err, r) := ReadAtLeast_loop fuel r len min [] None in
    let err := if (min <=? length got)%nat then None
               else if (0 <? length got)%nat && bool_decide (err = Some io_EOF)
                    then Some io_ErrUnexpectedEOF
                    else err in
    ret (got, err, r).

(** Modelled from the spec: [io.ReadFull(r, buf)], which "reads until the
    buffer is full or the stream ends". *)
Definition ReadFull (fuel : nat) (r : bufio.Reader.t) (len : nat)
    : M (list byte * option error * bufio.Reader.t) :=
  ReadAtLeast fuel r len len.

End io.

(** ** Package bio (src/cmd/internal/bio/buf.go) *)

Module bio.

(** [const EOF = -1] (line 15). *)
Definition EOF : Z := -1.

Module Reader.

(** [Reader] implements a seekable buffered [io.Reader] (lines 17-21):
    [f] may be nil. *)
Record t : Set := mk {
  f : option nat;
  r : bufio.Reader.t
}.

(** [func (r *Reader) Seek(offset int64, whence int) int64] (lines 74-84):
    the offset returned and the reader with its buffer reset. *)
Definition Seek (b : t) (offset whence : Z) : M (Z * t) :=
  let offset := if whence =? 1
                then int64_sub offset (Z.of_nat (bufio.Reader.Buffered (r b)))
                else offset in
  let* (off, err) := os_calls.Seek (f b) offset whence in
  match err with
  | Some e => log_Fatalf "seeking in output: %v" e
  | None => ret (off, mk (f b) (bufio.Reader.Reset (r b) (f b)))
  end.

(** [func (r *Reader) Offset() int64] (lines 97-104). *)
Definition Offset (b : t) : M Z :=
  let* (off, err) := os_calls.Seek (f b) 0 1 in
  match err with
  | Some e => log_Fatalf "seeking in output [0, 1]: %v" e
  | None => ret (int64_sub off (Z.of_nat (bufio.Reader.Buffered (r b))))
  end.

(** [func (r *Reader) Read(p []byte) (int, error)] (lines 146-148), with
    [len(p) = n]: the bytes read, the error, the reader. *)
Definition Read (b : t) (n : nat) : M (list byte * option error * t) :=
  let* (got, err, r') := bufio.Reader.Read (r b) n in
  ret (got, err, mk (f b) r').

(** [func (r *Reader) Peek(n int) ([]byte, error)] (lines 150-152). *)
Definition Peek (b : t) (n : Z) : M (list byte * option error * t) :=
  let* (got, err, r') := bufio.Reader.Peek (r b) n in
  ret (got, err, mk (f b) r').

(** [func (r *Reader) Close() error] (lines 162-164). *)
Definition Close (b : t) : M (option error) := os_calls.Close (f b).

End Reader.

Module Writer.

(** [Writer] implements a seekable buffered [io.Writer] (lines 23-27). *)
Record t : Set := mk {
  f : option nat;
  w : bufio.Writer.t
}.

(** [func (w *Writer) Write(p []byte) (int, error)] (lines 66-68). *)
Definition Write (b : t) (p : list byte) : M (nat * option error * t) :=
  let* (n, err, w') := bufio.Writer.Write (w b) p in
  ret (n, err, mk (f b) w').

(** [func (w *Writer) WriteString(p string) (int, error)] (lines 70-72). *)
Definition WriteString (b : t) (p : list byte) : M (nat * option error * t) :=
  let* (n, err, w') := bufio.Writer.WriteString (w b) p in
  ret (n, err, mk (f b) w').

(** [func (w *Writer) Seek(offset int64, whence int) int64] (lines 86-95). *)
Definition Seek (b : t) (offset whence : Z) : M (Z * t) :=
  let* (err, w') := bufio.Writer.Flush (w b) in
  match err with
  | Some e => log_Fatalf "writing output: %v" e
  | None =>
      let* (off, err) := os_calls.Seek (f b) offset whence in
      match err with
      | Some e => log_Fatalf "seeking in output: %v" e
      | None => ret (off, mk (f b) w')
      end
  end.

(** [func (w *Writer) Offset() int64] (lines 106-115). *)
Definition Offset (b : t) : M (Z * t) :=
  let* (err, w') := bufio.Writer.Flush (w b) in
  match err with
  | Some e => log_Fatalf "writing output: %v" e
  | None =>
      let* (off, err) := os_calls.Seek (f b) 0 1 in
      match err with
      | Some e => log_Fatalf "seeking in output [0, 1]: %v" e
      | None => ret (off, mk (f b) w')
      end
  end.

(** [func (w *Writer) Flush() error] (lines 117-119). *)
Definition Flush (b : t) : M (option error * t) :=
  let* (err, w') := bufio.Writer.Flush (w b) in
  ret (err, mk (f b) w').

(** [func (w *Writer) WriteByte(c byte) error] (lines 121-123). *)
Definition WriteByte (b : t) (c : byte) : M (option error * t) :=
  let* (err, w') := bufio.Writer.WriteByte (w b) c in
  ret (err, mk (f b) w').

(** [func (w *Writer) Close() error] (lines 166-173). *)
Definition Close (b : t) : M (option error * t) :=
  let* (err, w') := bufio.Writer.Flush (w b) in
  let* err1 := os_calls.Close (f b) in
  let err := match err with
             | None => err1
             | Some _ => err
             end in
  ret (err, mk (f b) w').

End Writer.

(** [Create] creates the file named [name] and returns a [Writer] for it
    (lines 35-43). *)
Definition Create (name : string) : M (option Writer.t * option error) :=
  let* (f, err) := os_calls.Create name in
  match err with
  | Some _ => ret (None, err)
  | None => ret (Some (Writer.mk f (bufio.Writer.NewWriter f)), None)
  end.

(** [Open] returns a [Reader] for the file named [name] (lines 45-52). *)
Definition Open (name : string) : M (option Reader.t * option error) :=
  let* (f, err) := os_calls.Open name in
  match err with
  | Some _ => ret (None, err)
  | None => ret (Some (Reader.mk f (bufio.Reader.NewReader f)), None)
  end.

(** [BufWriter] returns a [Writer] on top of [w] (lines 54-58): [f] is
    left nil. *)
Definition BufWriter (w : option nat) : Writer.t :=
  Writer.mk None (bufio.Writer.NewWriter w).

(** [BufReader] returns a [Reader] on top of [r] (lines 60-64): [f] is
    left nil. *)
Definition BufReader (r : option nat) : Reader.t :=
  Reader.mk None (bufio.Reader.NewReader r).

(** [func Bread(r *Reader, p []byte) int] (lines 125-133), with
    [len(p) = len]: the count, the bytes put in [p[0:n]], and the reader. *)
Definition Bread (fuel : nat) (b : Reader.t) (len : nat)
    : M (Z * list byte * Reader.t) :=
  let* (got, err, r') := io.ReadFull fuel (Reader.r b) len in
  let n := Z.of_nat (length got) in
  let n := if n =? 0
           then match err with
                | Some e => if decide (e = io_EOF) then n else -1
                | None => n
                end
           else n in
  ret (n, got, Reader.mk (Reader.f b) r').

(** [func Bgetc(r *Reader) int] (lines 135-144). *)
Definition Bgetc (b : Reader.t) : M (Z * Reader.t) :=
  let* (c, err, r') := bufio.Reader.ReadByte (Reader.r b) in
  let b' := Reader.mk (Reader.f b) r' in
  match err with
  | Some e =>
      if decide (e = io_EOF) then ret (EOF, b')
      else log_Fatalf "reading input: %v" e
  | None => ret (int_of_byte c, b')
  end.

(** [func Brdline(r *Reader, delim int) string] (lines 154-160). *)
Definition Brdline (fuel : nat) (b : Reader.t) (delim : Z) : M (string * Reader.t) :=
  let* (s, err, r') := bufio.Reader.ReadBytes fuel (Reader.r b) (byte_of_int delim) in
  match err with
  | Some e => log_Fatalf "reading input: %v" e
  | None => ret (string_of_list_byte s, Reader.mk (Reader.f b) r')
  end.

End bio.

(** ** Notions the properties are stated with *)

(** The open file behind a reference, if any. *)
Definition file_at (h : option nat) (w : World) : option os.File :=
  match h with
  | Some d => files w !! d
  | None => None
  end.

(** The contents from the raw cursor on. *)
Definition rest_of (f : os.File) : list byte := drop (os.pos f) (os.data f).

(** The bytes a reader has still to deliver if no read fails: what is
    buffered, then what the handle holds from its cursor on. *)
Definition ahead (b : bufio.Reader.t) (w : World) : list byte :=
  bufio.Reader.buf b ++
  match file_at (bufio.Reader.rd b) w with
  | Some f => rest_of f
  | None => []
  end.

(** The steps left in the read script of the handle of a reader. *)
Definition script_left (b : bufio.Reader.t) (w : World) : nat :=
  match file_at (bufio.Reader.rd b) w with
  | Some f => length (os.reads f)
  | None => 0
  end.

(** A handle that is open, with nothing scripted for its reads. *)
Definition plain_reads (f : os.File) : Prop :=
  os.closed f = false /\ os.reads f = [].

(** A handle that is open, with nothing scripted for its writes. *)
Definition plain_writes (f : os.File) : Prop :=
  os.closed f = false /\ os.writes f = [].

(** A [bufio.Reader] as [NewReaderSize] makes them: a buffer of at least
    one byte that holds no more than its size, which is an [int]. *)
Definition reader_ok (b : bufio.Reader.t) : Prop :=
  (0 < bufio.Reader.size b)%nat /\
  (length (bufio.Reader.buf b) <= bufio.Reader.size b)%nat /\
  Z.of_nat (bufio.Reader.size b) < 2 ^ 63.

Definition writer_ok (b : bufio.Writer.t) : Prop :=
  (0 < bufio.Writer.size b)%nat /\
  (length (bufio.Writer.buf b) <= bufio.Writer.size b)%nat.

(** A [bio.Reader] as [Open] makes them: the handle [d] it seeks on is the
    stream its buffer reads from, and [fl] is that open file. *)
Definition opened (b : bio.Reader.t) (w : World) (d : nat) (fl : os.File) : Prop :=
  bio.Reader.f b = Some d /\
  bufio.Reader.rd (bio.Reader.r b) = Some d /\
  files w !! d = Some fl /\
  reader_ok (bio.Reader.r b).

(** A [bio.Writer] as [Create] makes them. *)
Definition created (b : bio.Writer.t) (w : World) (d : nat) (fl : os.File) : Prop :=
  bio.Writer.f b = Some d /\
  bufio.Writer.wr (bio.Writer.w b) = Some d /\
  files w !! d = Some fl /\
  writer_ok (bio.Writer.w b).

(** The logical position of a reader: raw cursor minus buffered bytes. *)
Definition logical (b : bio.Reader.t) (fl : os.File) : Z :=
  Z.of_nat (os.pos fl) - Z.of_nat (bufio.Reader.Buffered (bio.Reader.r b)).

(** What a run returned, without the world it left. *)
Definition value {A} (o : option (outcome A)) : option A :=
  match o with
  | Some (Ret a _) => Some a
  | _ => None
  end.

Definition bytes (s : string) : list byte := list_byte_of_string s.

(** A world with the given named resources and no open file. *)
Definition world_of (l : list (string * list byte)) : World :=
  mkWorld ∅ (list_to_map l) ∅.

(** The scenario of the relative seek: open, read 3 bytes, ask the handle
    for its raw cursor, seek 0 from the current position, ask for the
    offset.  Returns the bytes read, the raw cursor, what [Seek] returned
    and what [Offset] returned. *)
Definition read3_seek_offset (name : string) : M (list byte * Z * Z * Z) :=
  let* (b, _) := bio.Open name in
  match b with
  | None => panic "not opened"
  | Some b =>
      let* (got, _, b) := bio.Reader.Read b 3 in
      let* (raw, _) := os_calls.Seek (bio.Reader.f b) 0 1 in
      let* (off, b) := bio.Reader.Seek b 0 1 in
      let* o := bio.Reader.Offset b in
      ret (got, raw, off, o)
  end.

(** An error that is not the clean end of the stream. *)
Definition genuine (e : option error) : bool :=
  match e with
  | Some x => if decide (x = io_EOF) then false else true
  | None => false
  end.

(** A writer that works on the open file [d], with no error so far, on a
    file that takes its writes: [total] is the raw cursor plus the bytes it
    still holds. *)
Definition writing (b : bufio.Writer.t) (w : World) (d : nat) (total : nat) : Prop :=
  bufio.Writer.wr b = Some d /\
  writer_ok b /\
  bufio.Writer.err b = None /\
  exists fl,
    files w !! d = Some fl /\ plain_writes fl /\
    (os.pos fl + length (bufio.Writer.buf b))%nat = total.

(** The three ways to write. *)
Inductive write_op : Set :=
| W_Write (p : list byte)
| W_WriteString (s : list byte)
| W_WriteByte (c : byte).

Definition op_len (o : write_op) : nat :=
  match o with
  | W_Write p => length p
  | W_WriteString s => length s
  | W_WriteByte _ => 1
  end.

(** One write; the count is what the call returned ([WriteByte] returns
    none: 1 when it reported no error). *)
Definition do_write (b : bio.Writer.t) (o : write_op)
    : M (nat * option error * bio.Writer.t) :=
  match o with
  | W_Write p => bio.Writer.Write b p
  | W_WriteString s => bio.Writer.WriteString b s
  | W_WriteByte c =>
      let* (e, b) := bio.Writer.WriteByte b c in
      ret (match e with None => 1%nat | Some _ => 0%nat end, e, b)
  end.

(** A sequence of writes: the sum of the counts returned and the first
    error reported. *)
Fixpoint do_writes (b : bio.Writer.t) (ops : list write_op)
    : M (nat * option error * bio.Writer.t) :=
  match ops with
  | [] => ret (0%nat, None, b)
  | o :: ops =>
      let* (n, e, b) := do_write b o in
      let* (m, e', b) := do_writes b ops in
      ret ((n + m)%nat, match e with Some _ => e | None => e' end, b)
  end.

(** The bytes a sequence of writes hands over. *)
Definition bytes_written (ops : list write_op) : nat :=
  foldr (fun o n => (op_len o + n)%nat) 0%nat ops.


(** Create, write, ask for the offset with no flush before. *)
Definition writes_offset (name : string) (ops : list write_op)
    : M (nat * option error * Z) :=
  let* (b, _) := bio.Create name in
  match b with
  | None => panic "not created"
  | Some b =>
      let* (n, e, b) := do_writes b ops in
      let* (off, b) := bio.Writer.Offset b in
      ret (n, e, off)
  end.

(** [n] successive calls of [Brdline]. *)
Fixpoint brdlines (fuel n : nat) (b : bio.Reader.t) (delim : Z) : M (list string) :=
  match n with
  | O => ret []
  | S n =>
      let* (s, b) := bio.Brdline fuel b delim in
      let* rest := brdlines fuel n b delim in
      ret (s :: rest)
  end.

(** Open the named file and read [n] lines from it. *)
Definition open_brdlines (fuel n : nat) (name : string) (delim : Z)
    : M (list string) :=
  let* (b, _) := bio.Open name in
  match b with
  | None => panic "not opened"
  | Some b => brdlines fuel n b delim
  end.

(** Open the named file, read [k] bytes to get somewhere, then [Peek(n)],
    [Read] into [n] bytes and ask for the offset: what [Peek] returned and
    reported, what [Read] returned, and the offset. *)
Definition skip_peek_read_offset (name : string) (k : nat) (n : Z)
    : M (list byte * option error * list byte * Z) :=
  let* (b, _) := bio.Open name in
  match b with
  | None => panic "not opened"
  | Some b =>
      let* (_, _, b) := bio.Reader.Read b k in
      let* (peeked, perr, b) := bio.Reader.Peek b n in
      let* (got, _, b) := bio.Reader.Read b (Z.to_nat n) in
      let* o := bio.Reader.Offset b in
      ret (peeked, perr, got, o)
  end.

(** The same with no [Peek]. *)
Definition skip_read_offset (name : string) (k : nat) (n : Z)
    : M (list byte * Z) :=
  let* (b, _) := bio.Open name in
  match b with
  | None => panic "not opened"
  | Some b =>
      let* (_, _, b) := bio.Reader.Read b k in
      let* (got, _, b) := bio.Reader.Read b (Z.to_nat n) in
      let* o := bio.Reader.Offset b in
      ret (got, o)
  end.

(** A file of 5000 bytes: longer than the buffer of a reader. *)
Definition long_contents : list byte :=
  replicate 4094 "a"%byte ++ bytes "0123456789" ++ replicate 896 "b"%byte.

(** ** Concrete streams *)

(** A world where "in" holds "ab;cd;", opened once as file 0. *)
Definition demo_world : World :=
  set_file 0 (os.plain (bytes "ab;cd;")) (world_of [("in"%string, bytes "ab;cd;")]).

Definition demo_reader : bio.Reader.t :=
  bio.Reader.mk (Some 0%nat) (bufio.Reader.NewReader (Some 0%nat)).

(** The reader and the world after [Peek(2)]. *)
Definition demo_peeked : list byte * bio.Reader.t * World :=
  Eval vm_compute in
    match bio.Reader.Peek demo_reader 2 demo_world with
    | Some (Ret (got, _, b) w) => (got, b, w)
    | _ => ([], demo_reader, demo_world)
    end.

(** A device that delivers two bytes and then fails with EIO, read
    through an adapter-mode reader. *)
Definition failing_world : World :=
  mkWorld {[ 0%nat := os.mkFile (bytes "abcdef") 0 false
                        [os.Step 2 None; os.Step 0 (Some EIO)] [] None ]} ∅ ∅.

Definition adapter_reader : bio.Reader.t := bio.BufReader (Some 0%nat).

(** What [io.ReadFull] leaves of them when asked for 5 bytes. *)
Definition failing_read : list byte * option error * bufio.Reader.t * World :=
  Eval vm_compute in
    match io.ReadFull 10 (bio.Reader.r adapter_reader) 5 failing_world with
    | Some (Ret (got, e, r) w) => (got, e, r, w)
    | _ => ([], None, bio.Reader.r adapter_reader, failing_world)
    end.

(** A device whose first read fails with EIO. *)
Definition broken_world : World :=
  mkWorld {[ 0%nat := os.mkFile (bytes "abcdef") 0 false
                        [os.Step 0 (Some EIO)] [] None ]} ∅ ∅.

(** What [ReadByte] makes of it. *)
Definition broken_read : option (outcome (byte * option error * bufio.Reader.t)) :=
  Eval vm_compute in
    bufio.Reader.ReadByte (bio.Reader.r adapter_reader) broken_world.

(** A file whose write and whose close both fail, and a writer on it
    that holds three bytes. *)
Definition full_disk_world : World :=
  mkWorld {[ 0%nat := os.mkFile [] 0 false [] [os.Step 0 (Some ENOSPC)] (Some EIO) ]}
          ∅ ∅.

Definition pending_writer : bio.Writer.t :=
  bio.Writer.mk (Some 0%nat)
    (bufio.Writer.mk None (bytes "xyz") bufio.defaultBufSize (Some 0%nat)).

(** Whether a run ended in a run-time panic. *)
Definition panicked {A} (o : option (outcome A)) : bool :=
  match o with
  | Some (Panic _) => true
  | _ => false
  end.

(** A world where "nodir/out" cannot be created and "/dev/full" is a
    device that refuses the first write to it for lack of space. *)
Definition special_world : World :=
  mkWorld ∅ ∅ {[ "nodir/out"%string := os.Refused ENOENT;
                 "/dev/full"%string := os.Device [os.Step 0 (Some ENOSPC)] None ]}.

(** The writer and the world that [Create] of "out" gives where nothing
    exists yet. *)
Definition out_created : bio.Writer.t * World :=
  Eval vm_compute in
    match bio.Create "out" (world_of []) with
    | Some (Ret (Some b, _) w) => (b, w)
    | _ => (pending_writer, full_disk_world)
    end.

(** The world after reads on [h] that delivered [got]. *)
Definition delivered (h : option nat) (w w' : World) (got : list byte) : Prop :=
  match file_at h w with
  | None => got = [] /\ w' = w
  | Some f =>
      exists f',
        file_at h w' = Some f' /\
        os.data f' = os.data f /\
        os.closed f' = os.closed f /\
        os.pos f' = (os.pos f + length got)%nat /\
        rest_of f = got ++ rest_of f' /\
        (length (os.reads f') <= length (os.reads f))%nat /\
        (os.reads f = [] -> os.reads f' = [])
  end.

(** What a reading operation did: it handed out [got], and the bytes it
    fetched from the handle meanwhile are in the buffer behind it. *)
Definition consumed (b : bufio.Reader.t) (w : World) (got : list byte)
    (b' : bufio.Reader.t) (w' : World) : Prop :=
  bufio.Reader.rd b' = bufio.Reader.rd b /\
  bufio.Reader.size b' = bufio.Reader.size b /\
  exists fetched,
    delivered (bufio.Reader.rd b) w w' fetched /\
    bufio.Reader.buf b ++ fetched = got ++ bufio.Reader.buf b'.

(** A reader on a plain file with no error pending. *)
Definition plain_now (b : bufio.Reader.t) (w : World) : Prop :=
  exists d f,
    bufio.Reader.rd b = Some d /\ files w !! d = Some f /\ plain_reads f /\
    bufio.Reader.err b = None.

(** What [ReadSlice] returns, in the terms of the next lemma. *)
Definition slice_ok (b : bufio.Reader.t) (delim : byte) (line : list byte)
    (e : option error) (b' : bufio.Reader.t) : Prop :=
  (length (bufio.Reader.buf b') <= bufio.Reader.size b')%nat /\
  match e with
  | None => exists pre, line = pre ++ [delim] /\ delim ∉ pre
  | Some x =>
      (delim ∉ line) /\ bufio.Reader.err b' = None /\
      (x = bufio_ErrBufferFull ->
       (0 < length line)%nat \/ bufio.Reader.err b = Some bufio_ErrBufferFull)
  end.

(** What [ReadBytes] returns: a line that ends in the first delimiter of
    the stream, or with an error that is not a full buffer all there was
    before it; on a plain file that error is [io.EOF] at the end of the
    stream. *)
Definition line_ok (delim : byte) (line : list byte) (e : option error) : Prop :=
  match e with
  | None => exists pre, line = pre ++ [delim] /\ delim ∉ pre
  | Some x => (delim ∉ line) /\ x <> bufio_ErrBufferFull
  end.

(** ** A reader as a cursor, a writer as a pen *)

(** A reader of [Open] at work on a plain file, with no error pending:
    [contents] is what the file holds and [off] the offset of the next
    byte the reader hands out.  What is buffered is the part of the file
    between [off] and the raw cursor. *)
Definition reading (b : bio.Reader.t) (w : World) (d : nat)
    (contents : list byte) (off : nat) : Prop :=
  exists fl,
    opened b w d fl /\ plain_reads fl /\
    bufio.Reader.err (bio.Reader.r b) = None /\
    os.data fl = contents /\
    (off + length (bufio.Reader.buf (bio.Reader.r b)))%nat = os.pos fl /\
    (os.pos fl <= length contents)%nat /\
    Z.of_nat (length contents) < 2 ^ 63 /\
    ahead (bio.Reader.r b) w = drop off contents.

(** Where a seek lands on a stream whose cursor is at [cur] and whose
    length is [len]: the three conventional modes. *)
Definition cursor_target (cur len : nat) (offset whence : Z) : option Z :=
  match whence with
  | 0 => Some offset
  | 1 => Some (Z.of_nat cur + offset)
  | 2 => Some (Z.of_nat len + offset)
  | _ => None
  end.

(** [n] successive calls of [Bgetc]. *)
Fixpoint bgetcs (n : nat) (b : bio.Reader.t) : M (list Z) :=
  match n with
  | O => ret []
  | S n =>
      let* (c, b) := bio.Bgetc b in
      let* rest := bgetcs n b in
      ret (c :: rest)
  end.

(** Open the named file and call [Bgetc] [n] times. *)
Definition open_bgetcs (n : nat) (name : string) : M (list Z) :=
  let* (b, _) := bio.Open name in
  match b with
  | None => panic "not opened"
  | Some b => bgetcs n b
  end.

(** Successive calls of [Bread] into buffers of the lengths [lens]: what
    each returned and the bytes it stored. *)
Fixpoint breads (fuel : nat) (lens : list nat) (b : bio.Reader.t)
    : M (list (Z * list byte)) :=
  match lens with
  | [] => ret []
  | len :: lens =>
      let* (n, got, b) := bio.Bread fuel b len in
      let* rest := breads fuel lens b in
      ret ((n, got) :: rest)
  end.

(** Open the named file and read it in pieces. *)
Definition open_breads (fuel : nat) (lens : list nat) (name : string)
    : M (list (Z * list byte)) :=
  let* (b, _) := bio.Open name in
  match b with
  | None => panic "not opened"
  | Some b => breads fuel lens b
  end.

(** The contents cut into pieces of the lengths [lens], each with its
    length; the pieces past the end are short or empty. *)
Fixpoint chunks (lens : list nat) (contents : list byte) : list (Z * list byte) :=
  match lens with
  | [] => []
  | len :: lens =>
      (Z.of_nat (length (take len contents)), take len contents)
      :: chunks lens (drop len contents)
  end.

(** Lines joined, each followed by the delimiter. *)
Definition join_lines (c : byte) (lines : list (list byte)) : list byte :=
  concat ((fun l => l ++ [c]) <$> lines).

(** Read [len] bytes, seek back over what was read, read again: the two
    counts and the two readings. *)
Definition bread_back_bread (fuel : nat) (b : bio.Reader.t) (len : nat)
    : M (Z * list byte * Z * list byte * bio.Reader.t) :=
  let* (n1, got1, b) := bio.Bread fuel b len in
  let* (_, b) := bio.Reader.Seek b (- n1) 1 in
  let* (n2, got2, b) := bio.Bread fuel b len in
  ret (n1, got1, n2, got2, b).

(** A writer of [Create] at work on a file that takes its writes, with no
    error so far: [all] is what the file holds once what is buffered has
    been written, [cur] the offset the next byte goes to, and [cl] what
    the release of the handle will report. *)
Definition composing (b : bufio.Writer.t) (w : World) (d : nat)
    (cl : option errno) (all : list byte) (cur : nat) : Prop :=
  bufio.Writer.wr b = Some d /\ writer_ok b /\ bufio.Writer.err b = None /\
  exists fl,
    files w !! d = Some fl /\ plain_writes fl /\ os.closing fl = cl /\
    (os.pos fl <= length (os.data fl))%nat /\
    os.store (os.data fl) (os.pos fl) (bufio.Writer.buf b) = all /\
    (os.pos fl + length (bufio.Writer.buf b))%nat = cur.

(** The bytes a write hands over. *)
Definition op_bytes (o : write_op) : list byte :=
  match o with
  | W_Write p => p
  | W_WriteString s => s
  | W_WriteByte c => [c]
  end.

(** The bytes a sequence of writes hands over, in the order of the calls. *)
Definition written (ops : list write_op) : list byte :=
  concat (op_bytes <$> ops).

(** The contents after a sequence of writes that starts at [cur]: each
    one goes where the one before ended. *)
Fixpoint stored (all : list byte) (cur : nat) (ops : list write_op) : list byte :=
  match ops with
  | [] => all
  | o :: ops => stored (os.store all cur (op_bytes o)) (cur + op_len o) ops
  end.

(** Create, write, close: the count and the error of the writes, and what
    [Close] reported. *)
Definition create_write_close (name : string) (ops : list write_op)
    : M (nat * option error * option error) :=
  let* (b, _) := bio.Create name in
  match b with
  | None => panic "not created"
  | Some b =>
      let* (n, e, b) := do_writes b ops in
      let* (ec, b) := bio.Writer.Close b in
      ret (n, e, ec)
  end.

(** Create, write [p], seek to [k] from the start, ask for the offset,
    write [q], close: what [Seek], [Offset] and [Close] returned. *)
Definition write_seek_write (name : string) (p q : list byte) (k : Z)
    : M (Z * Z * option error) :=
  let* (b, _) := bio.Create name in
  match b with
  | None => panic "not created"
  | Some b =>
      let* (_, _, b) := bio.Writer.Write b p in
      let* (off, b) := bio.Writer.Seek b k 0 in
      let* (o, b) := bio.Writer.Offset b in
      let* (_, _, b) := bio.Writer.Write b q in
      let* (ec, b) := bio.Writer.Close b in
      ret (off, o, ec)
  end.

(** A file of five bytes with its cursor at 2, and a writer on it that
    holds two bytes. *)
Definition patch_world : World :=
  mkWorld {[ 0%nat := os.mkFile (bytes "hello") 2 false [] [] None ]} ∅ ∅.

Definition patch_writer : bio.Writer.t :=
  bio.Writer.mk (Some 0%nat)
    (bufio.Writer.mk None (bytes "XY") bufio.defaultBufSize (Some 0%nat)).

(** The writer and the world after the failed [Flush] of
    [pending_writer]. *)
Definition flush_failed : bio.Writer.t * World :=
  Eval vm_compute in
    match bio.Writer.Flush pending_writer full_disk_world with
    | Some (Ret (_, b) w) => (b, w)
    | _ => (pending_writer, full_disk_world)
    end.

(** * Properties *)

(** ** The monad *)

Lemma bind_Ret {A B} (m : M A) (k : A -> M B) w a w' :
  m w = Some (Ret a w') -> bind m k w = k a w'.
Proof. intros H. unfold bind. by rewrite H. Qed.

Lemma bind_Fatal {A B} (m : M A) (k : A -> M B) w msg e :
  m w = Some (Fatal msg e) -> bind m k w = Some (Fatal msg e).
Proof. intros H. unfold bind. by rewrite H. Qed.

(** ** Files *)

Lemma file_at_set d f w : file_at (Some d) (set_file d f w) = Some f.
Proof. simpl. apply lookup_insert_eq. Qed.

Lemma set_file_set d f f' w : set_file d f' (set_file d f w) = set_file d f' w.
Proof. unfold set_file. simpl. by rewrite insert_insert_eq. Qed.

Lemma on_file_absent {A} h (dflt : A) op w :
  file_at h w = None -> os_calls.on_file h dflt op w = Some (Ret dflt w).
Proof.
  unfold os_calls.on_file, file_at. destruct h as [d|]; [|done].
  by intros ->.
Qed.

Lemma on_file_present {A} d (dflt : A) op w f :
  files w !! d = Some f ->
  os_calls.on_file (Some d) dflt op w
  = Some (Ret (op f).1 (set_file d (op f).2 w)).
Proof.
  unfold os_calls.on_file. intros ->. by destruct (op f).
Qed.

Lemma os_Read_present d k w f :
  files w !! d = Some f ->
  os_calls.Read (Some d) k w
  = Some (Ret (os.file_read f k).1 (set_file d (os.file_read f k).2 w)).
Proof. intros H. unfold os_calls.Read. by rewrite (on_file_present _ _ _ _ _ H). Qed.

Lemma os_Write_present d p w f :
  files w !! d = Some f ->
  os_calls.Write (Some d) p w
  = Some (Ret (os.file_write f p).1 (set_file d (os.file_write f p).2 w)).
Proof. intros H. unfold os_calls.Write. by rewrite (on_file_present _ _ _ _ _ H). Qed.

Lemma os_Seek_present d offset whence w f :
  files w !! d = Some f ->
  os_calls.Seek (Some d) offset whence w
  = Some (Ret (os.file_seek f offset whence).1
              (set_file d (os.file_seek f offset whence).2 w)).
Proof. intros H. unfold os_calls.Seek. by rewrite (on_file_present _ _ _ _ _ H). Qed.

Lemma os_Close_present d w f :
  files w !! d = Some f ->
  os_calls.Close (Some d) w
  = Some (Ret (os.file_close f).1 (set_file d (os.file_close f).2 w)).
Proof. intros H. unfold os_calls.Close. by rewrite (on_file_present _ _ _ _ _ H). Qed.

Lemma store_length_prefix d at_ :
  length (take at_ d ++ replicate (at_ - length d) x00) = at_.
Proof. rewrite length_app, length_take, length_replicate. lia. Qed.

Lemma store_read_back d at_ p : take (length p) (drop at_ (os.store d at_ p)) = p.
Proof.
  unfold os.store. rewrite app_assoc, drop_app_length'.
  - by rewrite take_app_length.
  - symmetry. apply store_length_prefix.
Qed.

Lemma file_close_closed f : os.closed (os.file_close f).2 = true.
Proof. unfold os.file_close. by destruct (os.closed f) eqn:E. Qed.

Lemma file_write_plain f p :
  plain_writes f ->
  os.file_write f p
  = ((length p, None),
     os.mkFile (os.store (os.data f) (os.pos f) p) (os.pos f + length p) false
               (os.reads f) [] (os.closing f)).
Proof. intros [Hc Hw]. unfold os.file_write. by rewrite Hc, Hw. Qed.

(** ** The write-behind buffer *)

(** [Flush] always returns; it reports the error it leaves in the writer,
    leaves nothing buffered when it reports none, and touches no file but
    the one it writes to. *)
Lemma Flush_returns b w :
  exists e b' w',
    bufio.Writer.Flush b w = Some (Ret (e, b') w') /\
    bufio.Writer.err b' = e /\
    bufio.Writer.size b' = bufio.Writer.size b /\
    bufio.Writer.wr b' = bufio.Writer.wr b /\
    (e = None -> bufio.Writer.buf b' = []) /\
    (length (bufio.Writer.buf b') <= length (bufio.Writer.buf b))%nat /\
    (w' = w \/ exists d f', bufio.Writer.wr b = Some d /\
                           is_Some (files w !! d) /\ w' = set_file d f' w).
Proof.
  unfold bufio.Writer.Flush.
  destruct (bufio.Writer.err b) as [e|] eqn:He.
  { exists (Some e), b, w. repeat split; try done. by left. }
  destruct (bufio.Writer.buf b) as [|c l] eqn:Hb.
  { exists None, b, w. repeat split; try done; [by rewrite Hb|by left]. }
  unfold bind, os_calls.Write, os_calls.on_file.
  assert (Hfin : forall n, (length (drop n (c :: l)) <= length (c :: l))%nat)
    by (intros n; rewrite length_drop; lia).
  destruct (bufio.Writer.wr b) as [d|];
    [destruct (files w !! d) as [f|] eqn:Hf;
     [destruct (os.file_write f (c :: l)) as [[n e] f'];
      (destruct e as [e|]; [|destruct (n <? length (c :: l))%nat eqn:Hn])|]|];
    (eexists _, _, _; split; [reflexivity|]);
    cbn [bufio.Writer.err bufio.Writer.buf bufio.Writer.size bufio.Writer.wr];
    repeat split; try done; try apply Hfin; try (simpl; lia);
    first [by left | right; eexists _, _; by rewrite Hf].
Qed.

Lemma Flush_keeps_files b w e b' w' d :
  bufio.Writer.Flush b w = Some (Ret (e, b') w') ->
  is_Some (files w !! d) -> is_Some (files w' !! d).
Proof.
  intros H Hd.
  destruct (Flush_returns b w) as (e0 & b0 & w0 & H0 & _ & _ & _ & _ & _ & Hw).
  rewrite H0 in H. injection H as <- <- <-.
  destruct Hw as [->|(d' & f' & _ & _ & ->)]; [done|].
  simpl. destruct (decide (d' = d)) as [->|Hne].
  - rewrite lookup_insert_eq. by eexists.
  - by rewrite lookup_insert_ne.
Qed.

(** On a plain file with no error pending, [Flush] writes the buffered
    bytes at the cursor. *)
Lemma Flush_plain b w d f :
  bufio.Writer.wr b = Some d -> files w !! d = Some f -> plain_writes f ->
  bufio.Writer.err b = None ->
  exists f',
    bufio.Writer.Flush b w
    = Some (Ret (None, bufio.Writer.mk None [] (bufio.Writer.size b) (Some d))
                (set_file d f' w)) /\
    plain_writes f' /\
    os.pos f' = (os.pos f + length (bufio.Writer.buf b))%nat /\
    os.closing f' = os.closing f /\
    take (length (bufio.Writer.buf b)) (drop (os.pos f) (os.data f'))
    = bufio.Writer.buf b.
Proof.
  intros Hwr Hf Hp He. unfold bufio.Writer.Flush. rewrite He.
  destruct (bufio.Writer.buf b) as [|c l] eqn:Hb.
  { exists f. split; [|split; [done|split; [simpl; lia|done]]].
    destruct b, w; simpl in *; subst. unfold ret, set_file. simpl.
    by rewrite insert_id. }
  rewrite Hwr. erewrite bind_Ret; [|by apply os_Write_present].
  rewrite (file_write_plain _ _ Hp). cbn [fst snd].
  rewrite Nat.ltb_irrefl.
  eexists. split; [reflexivity|]. destruct Hp as [Hc Hw].
  split; [done|]. split; [done|]. split; [done|].
  cbn [os.data os.pos]. apply store_read_back.
Qed.

(** ** Seeking and closing a handle *)

Lemma os_Seek_returns h offset whence w :
  exists off e w', os_calls.Seek h offset whence w = Some (Ret (off, e) w').
Proof.
  unfold os_calls.Seek, os_calls.on_file.
  destruct h as [d|]; [destruct (files w !! d) as [f|];
    [destruct (os.file_seek f offset whence) as [[off e] f']|]|];
    by eexists _, _, _.
Qed.

Lemma os_Close_returns h w :
  exists e w', os_calls.Close h w = Some (Ret e w').
Proof.
  unfold os_calls.Close, os_calls.on_file.
  destruct h as [d|]; [destruct (files w !! d) as [f|];
    [destruct (os.file_close f) as [e f']|]|];
    by eexists _, _.
Qed.

(** A seek that succeeds lands on its target and leaves the cursor there. *)
Lemma file_seek_lands f offset whence t f' :
  os.file_seek f offset whence = ((t, None), f') ->
  os.closed f = false /\
  os.seek_target f offset whence = Some t /\
  0 <= t < 2 ^ 63 /\
  f' = os.mkFile (os.data f) (Z.to_nat t) false (os.reads f) (os.writes f)
                 (os.closing f).
Proof.
  unfold os.file_seek. destruct (os.closed f) eqn:Hc; [done|].
  destruct (os.seek_target f offset whence) as [t'|]; [|done].
  destruct ((0 <=? t') && (t' <? 2 ^ 63)) eqn:Hr; [|done].
  intros [= <- <-]. apply andb_true_iff in Hr as [H1%Z.leb_le H2%Z.ltb_lt].
  done.
Qed.

Lemma os_Seek_lands h offset whence w off w' :
  os_calls.Seek h offset whence w = Some (Ret (off, None) w') ->
  exists d f,
    h = Some d /\ files w !! d = Some f /\
    os.closed f = false /\
    os.seek_target f offset whence = Some off /\
    0 <= off < 2 ^ 63 /\
    w' = set_file d (os.mkFile (os.data f) (Z.to_nat off) false (os.reads f)
                               (os.writes f) (os.closing f)) w.
Proof.
  destruct h as [d|]; [|done].
  destruct (files w !! d) as [f|] eqn:Hf;
    [|by unfold os_calls.Seek; rewrite on_file_absent].
  rewrite (os_Seek_present _ _ _ _ _ Hf).
  destruct (os.file_seek f offset whence) as [[t e] f'] eqn:Hs.
  intros [= -> -> <-].
  apply file_seek_lands in Hs as (? & ? & ? & ->). by exists d, f.
Qed.

(** ** Writer.Seek and Writer.Close *)

(** C3. For every writer, offset and whence, [Writer.Seek] first flushes
    the write-behind buffer, whatever [whence] is.  If the flush fails the
    run ends in [log.Fatalf] with that error and no seek is made.  If it
    succeeds nothing is left buffered and the handle is sought in the world
    the flush left; a failure of that seek ends the run in [log.Fatalf] too.
    Otherwise the call returns what the seek returned, which is the target
    computed on the flushed file and the cursor of the handle afterwards:
    the resulting absolute position. *)
Theorem Writer_Seek_flushes_then_seeks (b : bio.Writer.t) (offset whence : Z)
    (w : World) :
  exists e1 w1 world1,
    bufio.Writer.Flush (bio.Writer.w b) w = Some (Ret (e1, w1) world1) /\
    match e1 with
    | Some e =>
        bio.Writer.Seek b offset whence w = Some (Fatal "writing output: %v" e)
    | None =>
        bufio.Writer.Buffered w1 = 0%nat /\
        exists off e2 world2,
          os_calls.Seek (bio.Writer.f b) offset whence world1
          = Some (Ret (off, e2) world2) /\
          match e2 with
          | Some e =>
              bio.Writer.Seek b offset whence w
              = Some (Fatal "seeking in output: %v" e)
          | None =>
              bio.Writer.Seek b offset whence w
              = Some (Ret (off, bio.Writer.mk (bio.Writer.f b) w1) world2) /\
              exists d fl1 fl2,
                bio.Writer.f b = Some d /\
                files world1 !! d = Some fl1 /\
                os.seek_target fl1 offset whence = Some off /\
                files world2 !! d = Some fl2 /\
                Z.of_nat (os.pos fl2) = off
          end
    end.
Proof.
  destruct (Flush_returns (bio.Writer.w b) w)
    as (e1 & w1 & world1 & Hfl & _ & _ & _ & Hbuf & _).
  exists e1, w1, world1. split; [done|].
  unfold bio.Writer.Seek. rewrite (bind_Ret _ _ _ _ _ Hfl).
  destruct e1 as [e|]; [done|].
  split; [unfold bufio.Writer.Buffered; by rewrite Hbuf|].
  destruct (os_Seek_returns (bio.Writer.f b) offset whence world1)
    as (off & e2 & world2 & Hsk).
  exists off, e2, world2. split; [done|].
  rewrite (bind_Ret _ _ _ _ _ Hsk).
  destruct e2 as [e|]; [done|]. split; [done|].
  apply os_Seek_lands in Hsk as (d & fl1 & Hd & Hf1 & _ & Ht & Hr & ->).
  exists d, fl1. eexists. repeat split; try done.
  - apply lookup_insert_eq.
  - simpl. lia.
Qed.

(** C7. For every writer, [Writer.Close] flushes the pending bytes and
    then releases the handle, in the world the flush left and whether or not
    the flush failed.  A flush failure is the error reported, also when the
    release fails as well; when the flush succeeds, what the release
    reports is reported.  On a writer made by [Create] the handle is closed
    afterwards, and when its file takes the writes the pending bytes are in
    the file at the old cursor. *)
Theorem Writer_Close_reports_flush_error_first (b : bio.Writer.t) (w : World) :
  exists e1 w1 world1 e2 world2,
    bufio.Writer.Flush (bio.Writer.w b) w = Some (Ret (e1, w1) world1) /\
    os_calls.Close (bio.Writer.f b) world1 = Some (Ret e2 world2) /\
    bio.Writer.Close b w
    = Some (Ret (match e1 with Some _ => e1 | None => e2 end,
                 bio.Writer.mk (bio.Writer.f b) w1) world2) /\
    (forall d fl, created b w d fl ->
       exists fl2, files world2 !! d = Some fl2 /\ os.closed fl2 = true) /\
    (forall d fl, created b w d fl -> plain_writes fl ->
       bufio.Writer.err (bio.Writer.w b) = None ->
       e1 = None /\ e2 = os_PathError <$> os.closing fl /\
       exists fl2,
         files world2 !! d = Some fl2 /\
         take (length (bufio.Writer.buf (bio.Writer.w b)))
              (drop (os.pos fl) (os.data fl2))
         = bufio.Writer.buf (bio.Writer.w b)).
Proof.
  destruct (Flush_returns (bio.Writer.w b) w)
    as (e1 & w1 & world1 & Hfl & _).
  destruct (os_Close_returns (bio.Writer.f b) world1) as (e2 & world2 & Hcl).
  exists e1, w1, world1, e2, world2. split; [done|]. split; [done|].
  split.
  { unfold bio.Writer.Close.
    rewrite (bind_Ret _ _ _ _ _ Hfl), (bind_Ret _ _ _ _ _ Hcl).
    by destruct e1. }
  split.
  - intros d fl (Hf & Hwr & Hfile & _).
    destruct (Flush_keeps_files _ _ _ _ _ d Hfl) as [fl1 Hfl1]; [by eexists|].
    rewrite Hf, (os_Close_present _ _ _ Hfl1) in Hcl.
    injection Hcl as <- <-. eexists. split; [apply lookup_insert_eq|].
    apply file_close_closed.
  - intros d fl (Hf & Hwr & Hfile & _) Hp He.
    destruct (Flush_plain _ _ _ _ Hwr Hfile Hp He)
      as (fl1 & Hfl' & [Hc1 _] & _ & Hclosing & Hdata).
    rewrite Hfl' in Hfl. injection Hfl as <- <- <-.
    rewrite Hf, (os_Close_present d _ fl1) in Hcl by apply lookup_insert_eq.
    injection Hcl as <- <-. unfold os.file_close. rewrite Hc1.
    cbn [fst snd]. rewrite Hclosing. repeat split; try done.
    eexists. split; [apply lookup_insert_eq|]. done.
Qed.

(** ** Adapter mode *)

Lemma Open_opened name w b w' :
  bio.Open name w = Some (Ret (Some b, None) w') ->
  exists d contents,
    disk w !! name = Some contents /\
    b = bio.Reader.mk (Some d) (bufio.Reader.NewReader (Some d)) /\
    w' = set_file d (os.plain contents) w /\
    opened b w' d (os.plain contents).
Proof.
  unfold bio.Open, bind, os_calls.Open.
  destruct (disk w !! name) as [contents|]; [|done].
  intros [= <- <-]. eexists _, contents. repeat split; try done;
    try (cbn; unfold bufio.defaultBufSize; lia).
  apply lookup_insert_eq.
Qed.

(** A writer that [Create] returned works on a handle that is on a new
    file: empty, open, cursor at 0. *)
Lemma Create_created name w b w' :
  bio.Create name w = Some (Ret (Some b, None) w') ->
  exists d fl,
    b = bio.Writer.mk (Some d) (bufio.Writer.NewWriter (Some d)) /\
    created b w' d fl /\
    os.data fl = [] /\ os.pos fl = 0%nat /\ os.closed fl = false.
Proof.
  unfold bio.Create, bind, os_calls.Create.
  destruct (decide (name = EmptyString)); [done|].
  assert (Hok : writer_ok (bufio.Writer.NewWriter (Some (os_calls.fresh_fd w)))).
  { unfold writer_ok. cbn. unfold bufio.defaultBufSize. lia. }
  destruct (nodes w !! name) as [[e|steps cl]|]; [by intros [=]| |];
    intros [= <- <-]; eexists _, _;
    (split; [reflexivity|]);
    (split; [split; [done|split; [done|split; [apply lookup_insert_eq|exact Hok]]]
            |done]).
Qed.

(** ** Reading from a handle *)

Lemma take_drop_length {A} (l : list A) n :
  take n l ++ drop (length (take n l)) l = l.
Proof.
  rewrite length_take. destruct (Nat.le_gt_cases n (length l)).
  - rewrite Nat.min_l by done. apply take_drop.
  - rewrite Nat.min_r by lia. rewrite take_ge, drop_all by lia. apply app_nil_r.
Qed.

Lemma drop_take_advance {A} (data : list A) pos n :
  drop pos data
  = take n (drop pos data) ++ drop (pos + length (take n (drop pos data))) data.
Proof. rewrite <- drop_drop. symmetry. apply take_drop_length. Qed.

(** What one read of a handle does to it: the contents and the open state
    stay, the cursor moves over the bytes delivered, which are the next
    ones, and the script gets no longer. *)
Lemma file_read_moves f k got e f' :
  os.file_read f k = ((got, e), f') ->
  os.data f' = os.data f /\
  os.closed f' = os.closed f /\
  os.pos f' = (os.pos f + length got)%nat /\
  (length got <= k)%nat /\
  rest_of f = got ++ rest_of f' /\
  (length (os.reads f') <= length (os.reads f))%nat /\
  (os.reads f = [] -> os.reads f' = []) /\
  (got = [] -> e = None -> (0 < k)%nat ->
   (length (os.reads f') < length (os.reads f))%nat).
Proof.
  unfold os.file_read. destruct f as [data pos closed rs ws cl].
  cbn [os.closed os.reads os.data os.pos os.writes os.closing].
  destruct closed.
  { intros [= <- <- <-]. simpl. repeat split; try done; lia. }
  destruct rs as [|st rest].
  - destruct (take k (drop pos data)) as [|c got'] eqn:Hg.
    + destruct k as [|k].
      * intros [= <- <- <-]. simpl. rewrite Nat.add_0_r.
        repeat split; try done; lia.
      * intros [= <- <- <-]. simpl. repeat split; try done; lia.
    + assert (Hk : (length (c :: got') <= k)%nat)
        by (rewrite <- Hg, length_take; lia).
      pose proof (drop_take_advance data pos k) as Hr. rewrite Hg in Hr.
      destruct k; intros [= <- <- <-]; unfold rest_of;
        cbn [os.closed os.reads os.data os.pos];
        repeat split; try done.
  - intros [= <- <- <-]. unfold rest_of. cbn [os.closed os.reads os.data os.pos].
    pose proof (drop_take_advance data pos (Nat.min (os.upto st) k)) as Hr.
    repeat split; try done.
    + rewrite length_take. lia.
    + simpl. lia.
    + simpl. lia.
Qed.

(** On a plain file a read of [k > 0] bytes delivers the next [k] bytes, or
    what is left of them, and reports end of file when nothing is left. *)
Lemma file_read_plain f k got e f' :
  plain_reads f -> (0 < k)%nat ->
  os.file_read f k = ((got, e), f') ->
  got = take k (rest_of f) /\
  plain_reads f' /\
  e = match got with [] => Some io_EOF | _ :: _ => None end.
Proof.
  intros [Hc Hr] Hk. unfold os.file_read. rewrite Hc, Hr.
  fold (rest_of f). destruct k as [|k]; [lia|].
  destruct (take (S k) (rest_of f)) as [|c l]; intros [= <- <- <-]; done.
Qed.

Lemma delivered_refl h w : delivered h w w [].
Proof.
  unfold delivered. destruct (file_at h w) as [f|] eqn:Hf; [|done].
  exists f. rewrite Nat.add_0_r. done.
Qed.

Lemma delivered_trans h w w1 w2 g1 g2 :
  delivered h w w1 g1 -> delivered h w1 w2 g2 -> delivered h w w2 (g1 ++ g2).
Proof.
  unfold delivered. destruct (file_at h w) as [f|] eqn:Hf.
  - intros (f1 & -> & Hd1 & Hc1 & Hp1 & Hr1 & Hs1 & Hn1)
           (f2 & Hf2 & Hd2 & Hc2 & Hp2 & Hr2 & Hs2 & Hn2).
    exists f2. rewrite length_app, Hr1, Hr2, <- app_assoc.
    repeat split; try done; try congruence; try lia. auto.
  - intros [-> ->]. rewrite Hf. by intros [-> ->].
Qed.

(** A read of a handle always returns. *)
Lemma os_Read_delivers h k w :
  exists got e w',
    os_calls.Read h k w = Some (Ret (got, e) w') /\
    delivered h w w' got /\
    (length got <= k)%nat /\
    (file_at h w = None -> e = Some os_ErrInvalid) /\
    (forall f, file_at h w = Some f ->
       os.file_read f k = ((got, e), default f (file_at h w')))%nat.
Proof.
  destruct (file_at h w) as [f|] eqn:Hf.
  - destruct h as [d|]; [|done]. simpl in Hf.
    rewrite (os_Read_present _ _ _ _ Hf).
    destruct (os.file_read f k) as [[got e] f'] eqn:Hr.
    exists got, e, (set_file d f' w). split; [done|].
    apply file_read_moves in Hr as Hm.
    destruct Hm as (? & ? & ? & ? & ? & ? & ? & ?).
    split; [|split; [done|split; [done|]]].
    + unfold delivered. simpl. rewrite Hf. exists f'.
      rewrite lookup_insert_eq. done.
    + intros f0 [= <-]. simpl. by rewrite lookup_insert_eq.
  - unfold os_calls.Read. rewrite on_file_absent by done.
    eexists _, _, _. split; [done|]. unfold delivered. rewrite Hf.
    repeat split; try done. simpl. lia.
Qed.

(** ** The read-ahead buffer *)

Lemma fill_tries_S i b :
  bufio.Reader.fill_tries (S i) b
  = (let* (got, e) := os_calls.Read (bufio.Reader.rd b)
                        (bufio.Reader.size b - length (bufio.Reader.buf b)) in
     let b' := bufio.Reader.mk (bufio.Reader.buf b ++ got) (bufio.Reader.size b)
                 (bufio.Reader.err b) (bufio.Reader.rd b) in
     match e with
     | Some _ => ret (bufio.Reader.mk (bufio.Reader.buf b') (bufio.Reader.size b)
                        e (bufio.Reader.rd b))
     | None => match got with
               | [] => bufio.Reader.fill_tries i b'
               | _ :: _ => ret b'
               end
     end)%prog.
Proof. reflexivity. Qed.

(** The loop of [fill] always returns: it has appended the bytes it was
    delivered, no more than fit, and either it leaves an error pending or
    it brought at least one byte. *)
Lemma fill_tries_returns i b w :
  exists b' w' got,
    bufio.Reader.fill_tries i b w = Some (Ret b' w') /\
    delivered (bufio.Reader.rd b) w w' got /\
    bufio.Reader.buf b' = bufio.Reader.buf b ++ got /\
    bufio.Reader.size b' = bufio.Reader.size b /\
    bufio.Reader.rd b' = bufio.Reader.rd b /\
    (length got <= bufio.Reader.size b - length (bufio.Reader.buf b))%nat /\
    (bufio.Reader.err b' <> None \/
     (got <> [] /\ bufio.Reader.err b' = bufio.Reader.err b)).
Proof.
  revert b w. induction i as [|i IH]; intros b w.
  { eexists _, w, []. split; [reflexivity|]. cbn.
    rewrite app_nil_r. repeat split; try done; try lia.
    - apply delivered_refl.
    - by left. }
  rewrite fill_tries_S.
  destruct (os_Read_delivers (bufio.Reader.rd b)
              (bufio.Reader.size b - length (bufio.Reader.buf b)) w)
    as (got & e & w1 & Hrd & Hdel & Hlen & _).
  rewrite (bind_Ret _ _ _ _ _ Hrd). cbn [bufio.Reader.buf].
  destruct e as [e|].
  { eexists _, w1, got. split; [reflexivity|]. cbn.
    repeat split; try done. by left. }
  destruct got as [|c got].
  - destruct (IH (bufio.Reader.mk (bufio.Reader.buf b ++ []) (bufio.Reader.size b)
                    (bufio.Reader.err b) (bufio.Reader.rd b)) w1)
      as (b' & w' & got & Hft & Hdel' & Hbuf & Hsz & Hrd' & Hlen' & Herr).
    cbn in Hdel', Hbuf, Hsz, Hrd', Hlen', Herr.
    rewrite app_nil_r in Hbuf, Hlen'.
    exists b', w', got. split; [done|].
    repeat split; try done.
    change got with ([] ++ got). by eapply delivered_trans.
  - eexists _, w1, (c :: got). split; [reflexivity|]. cbn.
    repeat split; try done. by right.
Qed.

Lemma fill_returns b w :
  (length (bufio.Reader.buf b) < bufio.Reader.size b)%nat ->
  exists b' w' got,
    bufio.Reader.fill b w = Some (Ret b' w') /\
    delivered (bufio.Reader.rd b) w w' got /\
    bufio.Reader.buf b' = bufio.Reader.buf b ++ got /\
    bufio.Reader.size b' = bufio.Reader.size b /\
    bufio.Reader.rd b' = bufio.Reader.rd b /\
    (length got <= bufio.Reader.size b - length (bufio.Reader.buf b))%nat /\
    (bufio.Reader.err b' <> None \/
     (got <> [] /\ bufio.Reader.err b' = bufio.Reader.err b)).
Proof.
  intros Hroom. unfold bufio.Reader.fill.
  destruct (bufio.Reader.size b <=? length (bufio.Reader.buf b))%nat eqn:Hfull.
  { apply Nat.leb_le in Hfull. lia. }
  apply fill_tries_returns.
Qed.

(** On a plain file [fill] tops the buffer up with the next bytes of the
    file, and leaves [io.EOF] pending when there is none. *)
Lemma fill_plain b w d f :
  bufio.Reader.rd b = Some d -> files w !! d = Some f -> plain_reads f ->
  (length (bufio.Reader.buf b) < bufio.Reader.size b)%nat ->
  let got := take (bufio.Reader.size b - length (bufio.Reader.buf b)) (rest_of f) in
  exists f',
    bufio.Reader.fill b w
    = Some (Ret (bufio.Reader.mk (bufio.Reader.buf b ++ got) (bufio.Reader.size b)
                   (match got with
                    | [] => Some io_EOF
                    | _ :: _ => bufio.Reader.err b
                    end) (Some d))
                (set_file d f' w)) /\
    plain_reads f' /\
    os.data f' = os.data f /\
    os.pos f' = (os.pos f + length got)%nat /\
    rest_of f = got ++ rest_of f'.
Proof.
  intros Hrd Hf Hp Hroom got. unfold bufio.Reader.fill.
  destruct (bufio.Reader.size b <=? length (bufio.Reader.buf b))%nat eqn:Hfull.
  { apply Nat.leb_le in Hfull. lia. }
  change bufio.maxConsecutiveEmptyReads with (S 99). rewrite fill_tries_S, Hrd.
  rewrite (bind_Ret _ _ _ _ _ (os_Read_present _ _ _ _ Hf)).
  destruct (os.file_read f (bufio.Reader.size b - length (bufio.Reader.buf b)))
    as [[got' e] f'] eqn:Hr.
  apply file_read_moves in Hr as Hm.
  destruct Hm as (Hdata & _ & Hpos & _ & Hrest & _).
  apply file_read_plain in Hr as (-> & Hp' & ->); [|done|lia].
  fold got in Hpos, Hrest |- *. cbn [fst snd bufio.Reader.buf].
  exists f'. split; [|done]. by destruct got.
Qed.

(** ** The logical position of a reader *)

Lemma set_file_same d f w : files w !! d = Some f -> set_file d f w = w.
Proof. intros H. destruct w. unfold set_file. simpl in *. by rewrite insert_id. Qed.

Lemma wrap64_small z : - 2 ^ 63 <= z < 2 ^ 63 -> wrap64 z = z.
Proof. intros H. unfold wrap64. rewrite Z.mod_small; lia. Qed.

(** A query of the cursor of an open file returns it and changes nothing. *)
Lemma os_Seek_query d w fl :
  files w !! d = Some fl -> os.closed fl = false -> Z.of_nat (os.pos fl) < 2 ^ 63 ->
  os_calls.Seek (Some d) 0 1 w = Some (Ret (Z.of_nat (os.pos fl), None) w).
Proof.
  intros Hf Hc Hp. rewrite (os_Seek_present _ _ _ _ _ Hf).
  unfold os.file_seek. rewrite Hc. cbn [os.seek_target].
  rewrite Z.add_0_r.
  destruct ((0 <=? Z.of_nat (os.pos fl)) && (Z.of_nat (os.pos fl) <? 2 ^ 63)) eqn:Hr.
  2:{ apply andb_false_iff in Hr as [H%Z.leb_gt|H%Z.ltb_ge]; lia. }
  cbn [fst snd]. rewrite Nat2Z.id. do 3 f_equal.
  rewrite <- (set_file_same _ _ _ Hf) at 2. f_equal.
  destruct fl. simpl in *. by subst.
Qed.

Lemma Reader_Offset_opened b w d fl :
  opened b w d fl -> os.closed fl = false -> Z.of_nat (os.pos fl) < 2 ^ 63 ->
  bio.Reader.Offset b w = Some (Ret (logical b fl) w).
Proof.
  intros (Hf & Hrd & Hfile & Hsz & Hlen & Hint) Hc Hp.
  unfold bio.Reader.Offset. rewrite Hf.
  rewrite (bind_Ret _ _ _ _ _ (os_Seek_query _ _ _ Hfile Hc Hp)).
  unfold ret, int64_sub, logical. rewrite wrap64_small; [done|].
  unfold bufio.Reader.Buffered. lia.
Qed.

Lemma Reader_Seek_current b w d fl offset :
  opened b w d fl -> os.closed fl = false -> Z.of_nat (os.pos fl) < 2 ^ 63 ->
  - 2 ^ 63 <= offset < 2 ^ 63 ->
  0 <= logical b fl + offset < 2 ^ 63 ->
  let fl' := os.mkFile (os.data fl) (Z.to_nat (logical b fl + offset)) false
               (os.reads fl) (os.writes fl) (os.closing fl) in
  let b' := bio.Reader.mk (Some d) (bufio.Reader.Reset (bio.Reader.r b) (Some d)) in
  os_calls.Seek (Some d)
    (offset - Z.of_nat (bufio.Reader.Buffered (bio.Reader.r b))) 1 w
  = Some (Ret (logical b fl + offset, None) (set_file d fl' w)) /\
  bio.Reader.Seek b offset 1 w
  = Some (Ret (logical b fl + offset, b') (set_file d fl' w)) /\
  opened b' (set_file d fl' w) d fl' /\
  bio.Reader.Offset b' (set_file d fl' w)
  = Some (Ret (logical b fl + offset) (set_file d fl' w)).
Proof.
  intros (Hf & Hrd & Hfile & Hsz & Hlen & Hint) Hc Hpos Hoff Ht fl' b'.
  assert (Hsk : os_calls.Seek (Some d)
            (offset - Z.of_nat (bufio.Reader.Buffered (bio.Reader.r b))) 1 w
          = Some (Ret (logical b fl + offset, None) (set_file d fl' w))).
  { rewrite (os_Seek_present _ _ _ _ _ Hfile). unfold os.file_seek.
    rewrite Hc. cbn [os.seek_target].
    replace (Z.of_nat (os.pos fl) +
             (offset - Z.of_nat (bufio.Reader.Buffered (bio.Reader.r b))))
      with (logical b fl + offset) by (unfold logical; lia).
    destruct ((0 <=? logical b fl + offset) && (logical b fl + offset <? 2 ^ 63))
      eqn:Hr; [done|].
    apply andb_false_iff in Hr as [H%Z.leb_gt|H%Z.ltb_ge]; lia. }
  assert (Hop : opened b' (set_file d fl' w) d fl').
  { unfold opened, reader_ok. simpl. repeat split; try done; try lia.
    apply lookup_insert_eq. }
  split; [done|]. split; [|split; [done|]].
  - unfold bio.Reader.Seek. rewrite Z.eqb_refl, Hf.
    unfold int64_sub. rewrite wrap64_small.
    + by rewrite (bind_Ret _ _ _ _ _ Hsk).
    + unfold logical, bufio.Reader.Buffered in *. lia.
  - rewrite (Reader_Offset_opened _ _ _ _ Hop); [|done|subst fl'; simpl; lia].
    assert (logical b' fl' = logical b fl + offset) as ->; [|done].
    unfold logical at 1. subst fl' b'. unfold bufio.Reader.Buffered. simpl.
    rewrite Z2Nat.id by lia. lia.
Qed.

Lemma consumed_trans b w g1 b1 w1 g2 b2 w2 :
  consumed b w g1 b1 w1 -> consumed b1 w1 g2 b2 w2 ->
  consumed b w (g1 ++ g2) b2 w2.
Proof.
  intros (Hrd1 & Hsz1 & f1 & Hd1 & Hb1) (Hrd2 & Hsz2 & f2 & Hd2 & Hb2).
  split; [congruence|]. split; [congruence|].
  exists (f1 ++ f2). split.
  - rewrite Hrd1 in Hd2. by eapply delivered_trans.
  - by rewrite app_assoc, Hb1, <- app_assoc, Hb2, app_assoc.
Qed.

(** The bytes handed out are the next bytes of the stream. *)
Lemma consumed_ahead b w got b' w' :
  consumed b w got b' w' -> ahead b w = got ++ ahead b' w'.
Proof.
  intros (Hrd & _ & fetched & Hd & Hb). unfold ahead. rewrite Hrd.
  unfold delivered in Hd.
  destruct (file_at (bufio.Reader.rd b) w) as [f|] eqn:Hf.
  - destruct Hd as (f' & -> & _ & _ & _ & -> & _).
    by rewrite !app_assoc, Hb.
  - destruct Hd as [-> ->]. rewrite app_nil_r in Hb.
    by rewrite Hf, Hb, !app_nil_r.
Qed.

(** The logical position moved by the bytes handed out. *)
Lemma consumed_position b w got b' w' f :
  consumed b w got b' w' -> file_at (bufio.Reader.rd b) w = Some f ->
  exists f',
    file_at (bufio.Reader.rd b) w' = Some f' /\
    os.data f' = os.data f /\
    os.closed f' = os.closed f /\
    (os.reads f = [] -> os.reads f' = []) /\
    (os.pos f' + length (bufio.Reader.buf b) =
     os.pos f + length (bufio.Reader.buf b') + length got)%nat.
Proof.
  intros (Hrd & _ & fetched & Hd & Hb) Hf. unfold delivered in Hd.
  rewrite Hf in Hd. destruct Hd as (f' & Hf' & ? & ? & Hpos & _ & _ & ?).
  exists f'. repeat split; try done.
  apply (f_equal length) in Hb. rewrite !length_app in Hb. lia.
Qed.

Lemma consumed_script b w got b' w' :
  consumed b w got b' w' -> (script_left b' w' <= script_left b w)%nat.
Proof.
  intros (Hrd & _ & fetched & Hd & _). unfold script_left. rewrite Hrd.
  unfold delivered in Hd.
  destruct (file_at (bufio.Reader.rd b) w) as [f|] eqn:Hf.
  - by destruct Hd as (f' & -> & _ & _ & _ & _ & ? & _).
  - destruct Hd as [_ ->]. by rewrite Hf.
Qed.

Lemma consumed_nothing b w b1 :
  bufio.Reader.rd b1 = bufio.Reader.rd b ->
  bufio.Reader.size b1 = bufio.Reader.size b ->
  bufio.Reader.buf b1 = bufio.Reader.buf b ->
  consumed b w [] b1 w.
Proof.
  intros Hrd Hsz Hb. split; [done|]. split; [done|]. exists [].
  split; [apply delivered_refl|]. by rewrite Hb, app_nil_r.
Qed.

Lemma consumed_copy_out b w n :
  consumed b w (take n (bufio.Reader.buf b))
    (bufio.Reader.mk (drop n (bufio.Reader.buf b)) (bufio.Reader.size b)
       (bufio.Reader.err b) (bufio.Reader.rd b)) w.
Proof.
  split; [done|]. split; [done|]. exists [].
  split; [apply delivered_refl|]. simpl. by rewrite app_nil_r, take_drop.
Qed.

Lemma fill_consumed b w :
  (length (bufio.Reader.buf b) < bufio.Reader.size b)%nat ->
  exists b' w',
    bufio.Reader.fill b w = Some (Ret b' w') /\
    consumed b w [] b' w' /\
    (length (bufio.Reader.buf b') <= bufio.Reader.size b)%nat /\
    (bufio.Reader.err b' <> None \/
     ((length (bufio.Reader.buf b) < length (bufio.Reader.buf b'))%nat /\
      bufio.Reader.err b' = bufio.Reader.err b)).
Proof.
  intros Hroom.
  destruct (fill_returns b w Hroom)
    as (b' & w' & got & Hfill & Hdel & Hbuf & Hsz & Hrd & Hlen & Herr).
  exists b', w'. split; [done|]. split; [|split].
  - split; [done|]. split; [done|]. by exists got.
  - rewrite Hbuf, length_app. lia.
  - destruct Herr as [?|[Hne ?]]; [by left|right]. split; [|done].
    rewrite Hbuf, length_app. destruct got; [done|simpl; lia].
Qed.

(** [Read] always returns, with at most [n] bytes, the next ones of the
    stream.  A call for [n > 0] bytes that brings neither a byte nor an
    error used up a step of the script of the handle. *)
Lemma Read_returns b n w :
  (0 < bufio.Reader.size b)%nat ->
  (length (bufio.Reader.buf b) <= bufio.Reader.size b)%nat ->
  exists got e b' w',
    bufio.Reader.Read b n w = Some (Ret (got, e, b') w') /\
    consumed b w got b' w' /\
    (length got <= n)%nat /\
    (length (bufio.Reader.buf b') <= bufio.Reader.size b')%nat /\
    ((0 < n)%nat -> got = [] -> e = None ->
     (script_left b' w' < script_left b w)%nat).
Proof.
  intros Hsz Hlen. unfold bufio.Reader.Read.
  assert (Hcopy : forall b1 w1, consumed b w [] b1 w1 ->
            (length (bufio.Reader.buf b1) <= bufio.Reader.size b1)%nat ->
            bufio.Reader.buf b1 <> [] -> (0 < n)%nat ->
            exists got e b' w',
              Some (Ret (bufio.Reader.copy_out b1 n) w1)
              = Some (Ret (got, e, b') w') /\
              consumed b w got b' w' /\
              (length got <= n)%nat /\
              (length (bufio.Reader.buf b') <= bufio.Reader.size b')%nat /\
              ((0 < n)%nat -> got = [] -> e = None ->
               (script_left b' w' < script_left b w)%nat)).
  { intros b1 w1 Hc Hl1 Hne Hn. eexists _, _, _, _. split; [reflexivity|].
    split; [|split; [|split]].
    - change (take n (bufio.Reader.buf b1)) with ([] ++ take n (bufio.Reader.buf b1)).
      eapply consumed_trans; [exact Hc|]. apply consumed_copy_out.
    - rewrite length_take. lia.
    - simpl. rewrite length_drop. lia.
    - intros _ Hg. destruct (bufio.Reader.buf b1); [done|].
      destruct n; [lia|done]. }
  destruct n as [|n].
  { eexists _, _, _, _. split; [reflexivity|].
    split; [by apply consumed_nothing|]. simpl. repeat split; try done; lia. }
  destruct (bufio.Reader.buf b) as [|c l] eqn:Hb.
  2:{ apply (Hcopy b w); try lia; try congruence.
      by apply consumed_nothing. }
  destruct (bufio.Reader.err b) as [e0|] eqn:He.
  { eexists _, _, _, _. split; [reflexivity|].
    split; [by apply consumed_nothing|].
    simpl. rewrite Hb. repeat split; try done; simpl; try lia.
    intros; congruence. }
  destruct (bufio.Reader.size b <=? S n)%nat eqn:Hbig.
  - destruct (os_Read_delivers (bufio.Reader.rd b) (S n) w)
      as (got & e & w1 & Hrd & Hdel & Hgl & Habs & Hfr).
    rewrite (bind_Ret _ _ _ _ _ Hrd).
    eexists _, _, _, _. split; [reflexivity|]. simpl.
    split; [|split; [done|split; [lia|]]].
    + split; [done|]. split; [done|]. exists got. rewrite Hb.
      split; [done|]. by rewrite app_nil_r.
    + intros _ -> ->. unfold script_left. simpl.
      destruct (file_at (bufio.Reader.rd b) w) as [f|] eqn:Hf;
        [|by specialize (Habs eq_refl)].
      specialize (Hfr f eq_refl). unfold delivered in Hdel. rewrite Hf in Hdel.
      destruct Hdel as (f' & Hf' & _). rewrite Hf' in Hfr |- *. simpl in Hfr.
      apply file_read_moves in Hfr as (_ & _ & _ & _ & _ & _ & _ & Hdec).
      apply Hdec; [done|done|lia].
  - destruct (fill_consumed b w) as (b1 & w1 & Hfill & Hc & Hl1 & Herr);
      [rewrite Hb; simpl; lia|].
    rewrite (bind_Ret _ _ _ _ _ Hfill).
    destruct (bufio.Reader.buf b1) as [|c l] eqn:Hb1.
    + eexists _, _, _, _. split; [reflexivity|]. simpl.
      split; [|split; [lia|split; [rewrite Hb1; simpl; lia|]]].
      * destruct Hc as (? & ? & fetched & ? & Hbb). split; [done|].
        split; [done|]. exists fetched. split; [done|]. exact Hbb.
      * intros _ _ He'. destruct Herr as [?|[Hlt _]]; [done|].
        simpl in Hlt. lia.
    + apply Hcopy; try done; try lia.
      * destruct Hc as (? & -> & _). rewrite Hb1. lia.
      * by rewrite Hb1.
Qed.

(** ** Bgetc *)

Lemma ReadByte_loop_S fuel b :
  bufio.Reader.ReadByte_loop (S fuel) b
  = match bufio.Reader.buf b with
    | c :: rest =>
        ret (c, None, bufio.Reader.mk rest (bufio.Reader.size b)
                        (bufio.Reader.err b) (bufio.Reader.rd b))
    | [] =>
        match bufio.Reader.err b with
        | Some _ => let '(e, b) := bufio.Reader.readErr b in ret (x00, e, b)
        | None => (let* b := bufio.Reader.fill b in
                   bufio.Reader.ReadByte_loop fuel b)%prog
        end
    end.
Proof. reflexivity. Qed.

(** [ReadByte] always returns: the next byte of the stream, or the error
    that kept it from getting one. *)
Lemma ReadByte_returns b w :
  (0 < bufio.Reader.size b)%nat ->
  exists c e b' w',
    bufio.Reader.ReadByte b w = Some (Ret (c, e, b') w') /\
    consumed b w (match e with None => [c] | Some _ => [] end) b' w' /\
    (length (bufio.Reader.buf b') <= Nat.max (length (bufio.Reader.buf b))
                                             (bufio.Reader.size b))%nat.
Proof.
  intros Hsz. unfold bufio.Reader.ReadByte.
  assert (Hstep : forall fuel b1 w1,
            consumed b w [] b1 w1 ->
            (length (bufio.Reader.buf b1) <= Nat.max (length (bufio.Reader.buf b))
                                                     (bufio.Reader.size b))%nat ->
            bufio.Reader.buf b1 <> [] \/ bufio.Reader.err b1 <> None ->
            exists c e b' w',
              bufio.Reader.ReadByte_loop fuel b1 w1 = Some (Ret (c, e, b') w') /\
              consumed b w (match e with None => [c] | Some _ => [] end) b' w' /\
              (length (bufio.Reader.buf b') <= Nat.max (length (bufio.Reader.buf b))
                                                       (bufio.Reader.size b))%nat).
  { intros fuel b1 w1 Hc Hl Hready.
    destruct fuel; simpl;
      (destruct (bufio.Reader.buf b1) as [|c rest] eqn:Hb1;
       [destruct (bufio.Reader.err b1) as [e|] eqn:He1; [|by destruct Hready]|]).
    1,3: (eexists x00, (Some e), _, w1; split; [reflexivity|]; split; [|simpl; lia];
          change [] with ([] ++ @nil byte); eapply consumed_trans; [exact Hc|];
          by apply consumed_nothing).
    all: (eexists c, None, _, w1; split; [reflexivity|]; split; [|simpl in *; lia];
          change [c] with ([] ++ [c]); eapply consumed_trans; [exact Hc|];
          pose proof (consumed_copy_out b1 w1 1) as Hco; by rewrite Hb1 in Hco). }
  destruct (bufio.Reader.buf b) as [|c rest] eqn:Hb.
  2:{ apply Hstep; [by apply consumed_nothing|rewrite Hb; lia|left; congruence]. }
  destruct (bufio.Reader.err b) as [e|] eqn:He.
  { apply Hstep; [by apply consumed_nothing|rewrite Hb; lia|right; congruence]. }
  rewrite ReadByte_loop_S, Hb, He.
  destruct (fill_consumed b w) as (b1 & w1 & Hfill & Hc & Hl1 & Herr);
    [rewrite Hb; simpl; lia|].
  rewrite (bind_Ret _ _ _ _ _ Hfill). apply Hstep; [done|lia|].
  destruct Herr as [?|[Hlt _]]; [by right|left].
  rewrite Hb in Hlt. destruct (bufio.Reader.buf b1); [simpl in Hlt; lia|done].
Qed.

(** On a plain file with no error pending, [ReadByte] fails exactly at the
    end of the stream, and then with [io.EOF]. *)
Lemma ReadByte_plain b w d f c e b' w' :
  bufio.Reader.rd b = Some d -> files w !! d = Some f -> plain_reads f ->
  bufio.Reader.err b = None -> (0 < bufio.Reader.size b)%nat ->
  bufio.Reader.ReadByte b w = Some (Ret (c, e, b') w') ->
  e = match ahead b w with [] => Some io_EOF | _ :: _ => None end.
Proof.
  intros Hrd Hf Hp He Hsz. unfold bufio.Reader.ReadByte, ahead. rewrite Hrd.
  simpl file_at. rewrite Hf, ReadByte_loop_S.
  destruct (bufio.Reader.buf b) as [|c0 rest] eqn:Hb.
  2:{ by intros [= <- <- <- <-]. }
  rewrite He.
  destruct (fill_plain b w d f Hrd Hf Hp) as (f' & Hfill & _);
    [rewrite Hb; simpl; lia|].
  rewrite (bind_Ret _ _ _ _ _ Hfill), Hb, ReadByte_loop_S.
  simpl length. rewrite Nat.sub_0_r.
  cbn [bufio.Reader.buf bufio.Reader.err app].
  destruct (rest_of f) as [|c1 l1] eqn:Hrest.
  - rewrite take_nil. by intros [= <- <- <- <-].
  - destruct (bufio.Reader.size b) as [|sz]; [lia|]. simpl.
    by intros [= <- <- <- <-].
Qed.

Lemma int_of_byte_range c : 0 <= int_of_byte c < 256.
Proof.
  unfold int_of_byte. pose proof (Byte.to_N_bounded c). lia.
Qed.

(** C5. For every reader, [Bgetc] returns a value in the byte range, namely
    the next byte of the stream, when [ReadByte] got one; it returns the
    sentinel -1, which is no byte value, exactly when [ReadByte] reported
    [io.EOF]; every other failure ends the run in [log.Fatalf] with that
    error and is not returned.  On a plain file with no error pending,
    [io.EOF] is reported exactly when no byte is left in the stream. *)
Theorem Bgetc_byte_or_EOF_or_fatal (b : bio.Reader.t) (w : World)
    (Hsize : (0 < bufio.Reader.size (bio.Reader.r b))%nat) :
  exists c e r' w',
    bufio.Reader.ReadByte (bio.Reader.r b) w = Some (Ret (c, e, r') w') /\
    match e with
    | None =>
        bio.Bgetc b w
        = Some (Ret (int_of_byte c, bio.Reader.mk (bio.Reader.f b) r') w') /\
        0 <= int_of_byte c < 256 /\
        int_of_byte c <> bio.EOF /\
        ahead (bio.Reader.r b) w = c :: ahead r' w'
    | Some err =>
        if decide (err = io_EOF)
        then bio.Bgetc b w
             = Some (Ret (bio.EOF, bio.Reader.mk (bio.Reader.f b) r') w')
        else bio.Bgetc b w = Some (Fatal "reading input: %v" err)
    end /\
    (forall d fl,
       bufio.Reader.rd (bio.Reader.r b) = Some d -> files w !! d = Some fl ->
       plain_reads fl -> bufio.Reader.err (bio.Reader.r b) = None ->
       e = match ahead (bio.Reader.r b) w with
           | [] => Some io_EOF
           | _ :: _ => None
           end).
Proof.
  destruct (ReadByte_returns (bio.Reader.r b) w Hsize)
    as (c & e & r' & w' & Hrb & Hc & _).
  exists c, e, r', w'. split; [done|]. split.
  - unfold bio.Bgetc. rewrite (bind_Ret _ _ _ _ _ Hrb).
    destruct e as [err|].
    + by destruct (decide (err = io_EOF)).
    + pose proof (int_of_byte_range c). unfold bio.EOF.
      repeat split; try done; try lia.
      by apply consumed_ahead in Hc.
  - intros d fl Hrd Hf Hp He. by eapply ReadByte_plain.
Qed.

(** ** Bread *)

Lemma take_nil_inv {A} (l : list A) n : (0 < n)%nat -> take n l = [] -> l = [].
Proof. destruct n; [lia|]. by destruct l. Qed.

(** On a plain file a [Read] for [n > 0] bytes brings at least one byte and
    no error, or nothing and [io.EOF] at the end of the stream. *)
Lemma Read_plain b n w got e b' w' :
  plain_now b w -> (0 < bufio.Reader.size b)%nat -> (0 < n)%nat ->
  bufio.Reader.Read b n w = Some (Ret (got, e, b') w') ->
  plain_now b' w' /\
  ((got <> [] /\ e = None) \/ (got = [] /\ e = Some io_EOF /\ ahead b' w' = [])) /\
  (bufio.Reader.buf b = [] -> got = take n (ahead b w)).
Proof.
  intros (d & f & Hrd & Hf & Hp & He) Hsz Hn. unfold bufio.Reader.Read.
  destruct n as [|n]; [lia|].
  assert (Hcopy : forall b1 w1 f1,
            bufio.Reader.rd b1 = Some d -> files w1 !! d = Some f1 ->
            plain_reads f1 -> bufio.Reader.err b1 = None ->
            bufio.Reader.buf b1 <> [] ->
            Some (Ret (bufio.Reader.copy_out b1 (S n)) w1)
            = Some (Ret (got, e, b') w') ->
            plain_now b' w' /\
            ((got <> [] /\ e = None) \/
             (got = [] /\ e = Some io_EOF /\ ahead b' w' = [])) /\
            got = take (S n) (bufio.Reader.buf b1)).
  { intros b1 w1 f1 Hrd1 Hf1 Hp1 He1 Hne [= <- <- <- <-].
    split; [by exists d, f1|]. split; [|done]. left. split; [|done].
    by destruct (bufio.Reader.buf b1). }
  destruct (bufio.Reader.buf b) as [|c l] eqn:Hb.
  2:{ intros Hres. destruct (Hcopy b w f) as (? & ? & ?); try done.
      by rewrite Hb. }
  rewrite He. unfold ahead. rewrite Hb, Hrd. simpl file_at. rewrite Hf.
  cbn [app].
  destruct (bufio.Reader.size b <=? S n)%nat eqn:Hbig.
  - rewrite (bind_Ret _ _ _ _ _ (os_Read_present _ _ _ _ Hf)).
    destruct (os.file_read f (S n)) as [[got' e'] f'] eqn:Hr.
    apply file_read_moves in Hr as Hm.
    destruct Hm as (_ & _ & _ & _ & Hrest & _).
    apply file_read_plain in Hr as (-> & Hp' & ->); [|done|lia].
    cbn [fst snd]. intros [= <- <- <- <-]. split; [|split; [|done]].
    + exists d, f'. simpl. by rewrite lookup_insert_eq.
    + destruct (take (S n) (rest_of f)) as [|c l] eqn:Hg; [right|by left].
      repeat split; try done. unfold ahead. simpl. rewrite lookup_insert_eq.
      simpl in Hrest. rewrite <- Hrest. by eapply take_nil_inv.
  - destruct (fill_plain b w d f Hrd Hf Hp) as (f' & Hfill & Hp' & _ & _ & Hrest);
      [rewrite Hb; simpl; lia|].
    rewrite (bind_Ret _ _ _ _ _ Hfill), Hb. simpl length. rewrite Nat.sub_0_r.
    rewrite Hb in Hrest. simpl length in Hrest. rewrite Nat.sub_0_r in Hrest.
    cbn [bufio.Reader.buf app].
    destruct (take (bufio.Reader.size b) (rest_of f)) as [|c l] eqn:Hg.
    + cbn. intros [= <- <- <- <-].
      apply take_nil_inv in Hg as Hnil; [|done]. rewrite Hnil.
      split; [|split; [|done]].
      * exists d, f'. simpl. by rewrite lookup_insert_eq.
      * right. repeat split; try done. unfold ahead. simpl.
        rewrite lookup_insert_eq. simpl in Hrest. by rewrite <- Hrest.
    + intros Hres. eapply (Hcopy _ _ f') in Hres as (? & ? & Hgot); try done.
      * split; [done|]. split; [done|]. intros _. rewrite Hgot.
        cbn [bufio.Reader.buf]. rewrite <- Hg, take_take.
        f_equal. apply Nat.leb_gt in Hbig. lia.
      * simpl. by rewrite lookup_insert_eq.
Qed.

Lemma ReadAtLeast_loop_stop r len min got err w :
  ((length got <? min)%nat && bool_decide (err = None)) = false ->
  forall fuel,
    io.ReadAtLeast_loop fuel r len min got err w = Some (Ret (got, err, r) w).
Proof. intros H fuel. destruct fuel; simpl; by rewrite H. Qed.

Lemma ReadAtLeast_loop_go r len min got fuel w :
  (length got < min)%nat ->
  io.ReadAtLeast_loop (S fuel) r len min got None w
  = (let* (more, e, r) := bufio.Reader.Read r (len - length got) in
     io.ReadAtLeast_loop fuel r len min (got ++ more) e)%prog w.
Proof.
  intros H. simpl. apply Nat.ltb_lt in H. by rewrite H.
Qed.

(** The loop of [ReadAtLeast] returns, given fuel for the bytes still
    wanted and for the steps of the script: it has collected the next
    bytes of the stream, no more than [len], and stops short of [min] only
    with an error.  On a plain file that error is [io.EOF] and nothing is
    left in the stream. *)
Lemma ReadAtLeast_loop_returns fuel r len min got err w :
  (0 < bufio.Reader.size r)%nat ->
  (length (bufio.Reader.buf r) <= bufio.Reader.size r)%nat ->
  (min <= len)%nat -> (length got <= len)%nat ->
  (min - length got + script_left r w <= fuel)%nat ->
  exists more e r' w',
    io.ReadAtLeast_loop fuel r len min got err w
    = Some (Ret (got ++ more, e, r') w') /\
    consumed r w more r' w' /\
    (length (got ++ more) <= len)%nat /\
    (length (bufio.Reader.buf r') <= bufio.Reader.size r')%nat /\
    ((length (got ++ more) < min)%nat -> e <> None) /\
    (err <> None -> more = [] /\ e = err) /\
    (plain_now r w -> err = None ->
     plain_now r' w' /\ (e = None \/ (e = Some io_EOF /\ ahead r' w' = []))).
Proof.
  revert r got err w. induction fuel as [|fuel IH];
    intros r got err w Hsz Hbuf Hmin Hgot Hfuel.
  - assert (Hstop : ((length got <? min)%nat && bool_decide (err = None)) = false).
    { apply andb_false_iff. left. apply Nat.ltb_ge. lia. }
    rewrite (ReadAtLeast_loop_stop _ _ _ _ _ _ Hstop).
    exists [], err, r, w. rewrite app_nil_r. split; [done|].
    split; [by apply consumed_nothing|]. repeat split; try done; try lia.
    by left.
  - destruct ((length got <? min)%nat && bool_decide (err = None)) eqn:Hcond.
    2:{ rewrite (ReadAtLeast_loop_stop _ _ _ _ _ _ Hcond).
        exists [], err, r, w. rewrite app_nil_r. split; [done|].
        split; [by apply consumed_nothing|]. repeat split; try done.
        - intros Hlt. apply andb_false_iff in Hcond as [H%Nat.ltb_ge|H]; [lia|].
          by apply bool_decide_eq_false in H.
        - by left. }
    apply andb_true_iff in Hcond as [Hlt%Nat.ltb_lt ->%bool_decide_eq_true].
    rewrite (ReadAtLeast_loop_go _ _ _ _ _ _ Hlt).
    destruct (Read_returns r (len - length got) w Hsz Hbuf)
      as (more & e & r1 & w1 & Hread & Hc & Hml & Hbuf1 & Hprog).
    rewrite (bind_Ret _ _ _ _ _ Hread).
    assert (Hsz1 : (0 < bufio.Reader.size r1)%nat)
      by (destruct Hc as (_ & -> & _); done).
    pose proof (consumed_script _ _ _ _ _ Hc) as Hscr.
    destruct e as [e|].
    + assert (Hstop : ((length (got ++ more) <? min)%nat
                       && bool_decide (Some e = None)) = false).
      { apply andb_false_iff. right. by apply bool_decide_eq_false. }
      rewrite (ReadAtLeast_loop_stop _ _ _ _ _ _ Hstop).
      exists more, (Some e), r1, w1. split; [done|]. split; [done|].
      split; [rewrite length_app; lia|]. split; [done|]. split; [done|].
      split; [done|]. intros Hpl _.
      eapply Read_plain in Hread as (Hpl1 & [[_ ?]|(_ & ? & ?)] & _);
        try done; try lia.
      split; [done|]. by right.
    + destruct (IH r1 (got ++ more) None w1)
        as (more2 & e2 & r2 & w2 & Hloop & Hc2 & Hl2 & Hb2 & He2 & _ & Hpl2);
        try done.
      { rewrite length_app. lia. }
      { rewrite length_app. destruct more as [|c more].
        - specialize (Hprog ltac:(lia) eq_refl eq_refl). simpl. lia.
        - simpl. lia. }
      exists (more ++ more2), e2, r2, w2. rewrite app_assoc.
      split; [done|]. split; [by eapply consumed_trans|].
      split; [done|]. split; [done|]. split; [done|]. split; [done|].
      intros Hpl _.
      eapply Read_plain in Hread as (Hpl1 & _); try done; try lia.
      by apply Hpl2.
Qed.

(** C6. For every reader and every buffer length, given fuel for the bytes
    wanted and the steps scripted for the handle, [Bread] returns.  The
    bytes it filled in are the next bytes of the stream and no more than
    the buffer holds; it stops short of a full buffer only when the read
    reported an error or the end of the stream, and on a plain file it
    fills the buffer or takes all that is left.  It returns the number of
    bytes filled in, except that it returns -1 when no byte was obtained
    and the error is a genuine one, not [io.EOF]; so -1 is returned only
    then. *)
Theorem Bread_count_or_sentinel (b : bio.Reader.t) (len fuel : nat) (w : World)
    (Hsize : (0 < bufio.Reader.size (bio.Reader.r b))%nat)
    (Hbuf : (length (bufio.Reader.buf (bio.Reader.r b))
             <= bufio.Reader.size (bio.Reader.r b))%nat)
    (Hfuel : (len + script_left (bio.Reader.r b) w <= fuel)%nat) :
  exists got e r' w' n,
    io.ReadFull fuel (bio.Reader.r b) len w = Some (Ret (got, e, r') w') /\
    bio.Bread fuel b len w
    = Some (Ret (n, got, bio.Reader.mk (bio.Reader.f b) r') w') /\
    n = (if bool_decide (got = []) && genuine e then -1
         else Z.of_nat (length got)) /\
    (n = -1 <-> got = [] /\ genuine e = true) /\
    ahead (bio.Reader.r b) w = got ++ ahead r' w' /\
    (length got <= len)%nat /\
    ((length got < len)%nat -> e <> None) /\
    (length got = len -> e = None) /\
    (plain_now (bio.Reader.r b) w ->
     got = take len (ahead (bio.Reader.r b) w) /\ n = Z.of_nat (length got)).
Proof.
  destruct (ReadAtLeast_loop_returns fuel (bio.Reader.r b) len len [] None w)
    as (got & e & r' & w' & Hloop & Hc & Hlen & _ & Hshort & _ & Hplain);
    try done; try (simpl; lia).
  simpl app in *.
  set (e' := if (len <=? length got)%nat then None
             else if (0 <? length got)%nat && bool_decide (e = Some io_EOF)
                  then Some io_ErrUnexpectedEOF else e).
  assert (Hfull : io.ReadFull fuel (bio.Reader.r b) len w
                  = Some (Ret (got, e', r') w')).
  { unfold io.ReadFull, io.ReadAtLeast. rewrite Nat.ltb_irrefl.
    by rewrite (bind_Ret _ _ _ _ _ Hloop). }
  assert (He' : (got = [] -> e' = if (len <=? 0)%nat then None else e) /\
                ((length got < len)%nat -> e' <> None) /\
                (length got = len -> e' = None)).
  { subst e'. split; [|split].
    - intros ->. simpl. by destruct (len <=? 0)%nat.
    - intros Hlt. specialize (Hshort Hlt).
      destruct (len <=? length got)%nat eqn:Hle; [apply Nat.leb_le in Hle; lia|].
      by destruct ((0 <? length got)%nat && bool_decide (e = Some io_EOF)).
    - intros <-. by rewrite Nat.leb_refl. }
  destruct He' as (He0 & Hes & Hef).
  exists got, e', r', w'. eexists. split; [done|]. split.
  { unfold bio.Bread. rewrite (bind_Ret _ _ _ _ _ Hfull). reflexivity. }
  assert (Hn : (if Z.of_nat (length got) =? 0
                then match e' with
                     | Some e0 => if decide (e0 = io_EOF)
                                  then Z.of_nat (length got) else -1
                     | None => Z.of_nat (length got)
                     end
                else Z.of_nat (length got))
               = if bool_decide (got = []) && genuine e' then -1
                 else Z.of_nat (length got)).
  { destruct got as [|c got]; [|done]. simpl. destruct e' as [x|]; [|done].
    simpl. by destruct (decide (x = io_EOF)). }
  split; [exact Hn|]. rewrite Hn. split; [|split; [|split; [|split; [|split]]]];
    try done.
  - destruct got as [|c got]; simpl.
    + destruct (genuine e'); split; try done; try lia; try (by intros [_ ?]).
    + split; [lia|]. by intros [? _].
  - by apply consumed_ahead.
  - intros Hpl. destruct (Hplain Hpl eq_refl) as (_ & Hend).
    apply consumed_ahead in Hc as Hah. split.
    + rewrite Hah. destruct (decide (length got = len)) as [<-|Hne].
      * by rewrite take_app_length.
      * destruct Hend as [->|[_ ->]]; [by destruct Hshort; [lia|]|].
        rewrite app_nil_r, take_ge; [done|lia].
    + destruct got as [|c got]; [|done]. simpl.
      rewrite He0 by done. destruct (len <=? 0)%nat; [done|].
      destruct Hend as [->|[-> _]]; done.
Qed.

(** C10. For every reader and buffer length: whenever the read behind
    [Bread] obtained at least one byte, [Bread] returns the count of the
    bytes obtained, which is positive, whatever error the read reported
    with them; in particular a genuine error is not seen in what is
    returned. *)
Theorem Bread_partial_read_hides_error (b : bio.Reader.t) (len fuel : nat)
    (w : World) got e r' w' :
  io.ReadFull fuel (bio.Reader.r b) len w = Some (Ret (got, e, r') w') ->
  got <> [] ->
  bio.Bread fuel b len w
  = Some (Ret (Z.of_nat (length got), got, bio.Reader.mk (bio.Reader.f b) r') w') /\
  0 < Z.of_nat (length got).
Proof.
  intros Hfull Hne. unfold bio.Bread. rewrite (bind_Ret _ _ _ _ _ Hfull).
  destruct got as [|c got]; [done|]. split; [done|]. simpl. lia.
Qed.

(** ** Peek *)

Lemma Peek_loop_stop b n w :
  ((length (bufio.Reader.buf b) <? n)%nat && bool_decide (bufio.Reader.err b = None))
  = false ->
  forall fuel, bufio.Reader.Peek_loop fuel b n w = Some (Ret b w).
Proof. intros H fuel. destruct fuel; simpl; by rewrite H. Qed.

Lemma Peek_loop_go b n fuel w :
  ((length (bufio.Reader.buf b) <? n)%nat && bool_decide (bufio.Reader.err b = None))
  = true ->
  bufio.Reader.Peek_loop (S fuel) b n w
  = (let* b := bufio.Reader.fill b in bufio.Reader.Peek_loop fuel b n)%prog w.
Proof. intros H. simpl. by rewrite H. Qed.

(** The loop of [Peek] returns: it hands nothing out, and ends with [n]
    bytes buffered or with an error pending. *)
Lemma Peek_loop_returns fuel b n w :
  (n <= bufio.Reader.size b)%nat ->
  (length (bufio.Reader.buf b) <= bufio.Reader.size b)%nat ->
  (n - length (bufio.Reader.buf b) <= fuel)%nat ->
  exists b' w',
    bufio.Reader.Peek_loop fuel b n w = Some (Ret b' w') /\
    consumed b w [] b' w' /\
    (length (bufio.Reader.buf b') <= bufio.Reader.size b')%nat /\
    ((n <= length (bufio.Reader.buf b'))%nat \/ bufio.Reader.err b' <> None).
Proof.
  assert (Hstop : forall b w,
            (length (bufio.Reader.buf b) <= bufio.Reader.size b)%nat ->
            ((length (bufio.Reader.buf b) <? n)%nat
             && bool_decide (bufio.Reader.err b = None)) = false ->
            forall fuel, exists b' w',
              bufio.Reader.Peek_loop fuel b n w = Some (Ret b' w') /\
              consumed b w [] b' w' /\
              (length (bufio.Reader.buf b') <= bufio.Reader.size b')%nat /\
              ((n <= length (bufio.Reader.buf b'))%nat \/ bufio.Reader.err b' <> None)).
  { intros b0 w0 Hbuf0 Hcond fuel0. rewrite (Peek_loop_stop _ _ _ Hcond).
    exists b0, w0. split; [done|]. split; [by apply consumed_nothing|].
    split; [done|].
    apply andb_false_iff in Hcond as [H%Nat.ltb_ge|H%bool_decide_eq_false];
      [by left|by right]. }
  revert b w. induction fuel as [|fuel IH]; intros b w Hn Hbuf Hfuel;
    (destruct ((length (bufio.Reader.buf b) <? n)%nat
               && bool_decide (bufio.Reader.err b = None)) eqn:Hcond;
     [|by apply Hstop]);
    apply andb_true_iff in Hcond as Hc'; destruct Hc' as [Hlt%Nat.ltb_lt He].
  - lia.
  - rewrite (Peek_loop_go _ _ _ _ Hcond).
    destruct (fill_consumed b w) as (b1 & w1 & Hfill & Hc & Hl1 & Herr); [lia|].
    rewrite (bind_Ret _ _ _ _ _ Hfill).
    assert (Hsz1 : bufio.Reader.size b1 = bufio.Reader.size b)
      by (by destruct Hc as (_ & ? & _)).
    assert (Hnext : exists b2 w2,
              bufio.Reader.Peek_loop fuel b1 n w1 = Some (Ret b2 w2) /\
              consumed b1 w1 [] b2 w2 /\
              (length (bufio.Reader.buf b2) <= bufio.Reader.size b2)%nat /\
              ((n <= length (bufio.Reader.buf b2))%nat \/ bufio.Reader.err b2 <> None)).
    { destruct Herr as [Herr|[Hgrow _]].
      - apply Hstop; [lia|]. apply andb_false_iff. right.
        by apply bool_decide_eq_false.
      - apply IH; lia. }
    destruct Hnext as (b2 & w2 & Hloop & Hc2 & Hl2 & Hdone).
    exists b2, w2. split; [done|]. split; [|done].
    change (@nil byte) with ([] ++ @nil byte). by eapply consumed_trans.
Qed.

(** [Peek] always returns and hands nothing out; when it reports no error
    the [n] bytes it returns are the first [n] of the buffer it leaves. *)
Lemma Peek_returns b n w :
  (0 < bufio.Reader.size b)%nat ->
  (length (bufio.Reader.buf b) <= bufio.Reader.size b)%nat ->
  exists got e b' w',
    bufio.Reader.Peek b n w = Some (Ret (got, e, b') w') /\
    consumed b w [] b' w' /\
    (length (bufio.Reader.buf b') <= bufio.Reader.size b')%nat /\
    (e = None ->
     0 <= n /\ got = take (Z.to_nat n) (bufio.Reader.buf b') /\
     length got = Z.to_nat n).
Proof.
  intros Hsz Hbuf. unfold bufio.Reader.Peek.
  destruct (n <? 0) eqn:Hneg.
  { eexists _, _, _, _. split; [reflexivity|].
    split; [by apply consumed_nothing|]. done. }
  destruct (Z.of_nat (bufio.Reader.size b) <? n) eqn:Hbig.
  { eexists _, _, _, _. split; [reflexivity|].
    split; [by apply consumed_nothing|]. done. }
  apply Z.ltb_ge in Hneg, Hbig.
  destruct (Peek_loop_returns (S (Z.to_nat n)) b (Z.to_nat n) w)
    as (b1 & w1 & Hloop & Hc & Hl1 & Hdone); try lia.
  rewrite (bind_Ret _ _ _ _ _ Hloop).
  destruct (length (bufio.Reader.buf b1) <? Z.to_nat n)%nat eqn:Hshort.
  - eexists _, _, _, _. split; [reflexivity|]. split; [|done].
    change (@nil byte) with ([] ++ @nil byte).
    eapply consumed_trans; [exact Hc|]. by apply consumed_nothing.
  - eexists _, _, _, _. split; [reflexivity|]. split; [done|]. split; [done|].
    intros _. apply Nat.ltb_ge in Hshort.
    repeat split; try done. rewrite length_take. lia.
Qed.

(** Bytes are delivered from inside the contents: the cursor does not pass
    the end of the file unless it was beyond it already. *)
Lemma consumed_cursor_bound b w got b' w' f f' :
  consumed b w got b' w' ->
  file_at (bufio.Reader.rd b) w = Some f ->
  file_at (bufio.Reader.rd b) w' = Some f' ->
  (os.pos f' <= Nat.max (os.pos f) (length (os.data f)))%nat.
Proof.
  intros (_ & _ & fetched & Hd & _) Hf Hf'. unfold delivered in Hd.
  rewrite Hf in Hd. destruct Hd as (f1 & Hf1 & _ & _ & Hpos & Hrest & _).
  rewrite Hf' in Hf1. injection Hf1 as <-.
  apply (f_equal length) in Hrest. unfold rest_of in Hrest.
  rewrite length_app, !length_drop in Hrest. lia.
Qed.

(** After a reading operation on a reader made by [Open], [Offset] has
    moved by the bytes handed out, whatever was fetched into the buffer. *)
Lemma consumed_Offset b w d fl got r' w' :
  opened b w d fl -> os.closed fl = false ->
  Z.of_nat (Nat.max (os.pos fl) (length (os.data fl))) < 2 ^ 63 ->
  consumed (bio.Reader.r b) w got r' w' ->
  (length (bufio.Reader.buf r') <= bufio.Reader.size r')%nat ->
  exists fl',
    opened (bio.Reader.mk (bio.Reader.f b) r') w' d fl' /\
    os.closed fl' = false /\
    Z.of_nat (Nat.max (os.pos fl') (length (os.data fl'))) < 2 ^ 63 /\
    bio.Reader.Offset (bio.Reader.mk (bio.Reader.f b) r') w'
    = Some (Ret (logical b fl + Z.of_nat (length got)) w').
Proof.
  intros (Hf & Hrd & Hfile & Hsz & Hlen & Hint) Hc Hbound Hcons Hbuf'.
  assert (Hat : file_at (bufio.Reader.rd (bio.Reader.r b)) w = Some fl)
    by (by rewrite Hrd).
  destruct (consumed_position _ _ _ _ _ _ Hcons Hat)
    as (fl' & Hat' & Hdata & Hclosed & _ & Hpos).
  pose proof (consumed_cursor_bound _ _ _ _ _ _ _ Hcons Hat Hat') as Hcur.
  destruct Hcons as (Hrd' & Hsz' & _).
  rewrite Hrd in Hat'. simpl in Hat'.
  assert (Hop : opened (bio.Reader.mk (bio.Reader.f b) r') w' d fl').
  { unfold opened, reader_ok. simpl. rewrite Hrd', Hsz'. rewrite Hsz' in Hbuf'.
    repeat split; done. }
  exists fl'. split; [done|]. split; [congruence|]. split; [rewrite Hdata; lia|].
  rewrite (Reader_Offset_opened _ _ _ _ Hop); [|congruence|lia].
  do 2 f_equal. unfold logical, bufio.Reader.Buffered. simpl. lia.
Qed.

(** C8, as amended.  For every reader made by [Open] on an open file and
    every [n] for which [Peek(n)] succeeds: [Peek] leaves [Offset] where it
    was; a [Read] into [n] bytes right after it returns the [n] bytes
    [Peek] returned, and [Offset] is then the offset before plus [n].  A
    [Read] into [n] bytes alone leaves [Offset] at the offset before plus
    the count it returned, so the two agree whenever the lone [Read]
    returned [n] bytes. *)
Theorem Peek_then_Read_same_bytes (b : bio.Reader.t) (n : Z) (w : World)
    (d : nat) (fl : os.File) got b1 w1 :
  opened b w d fl -> os.closed fl = false ->
  Z.of_nat (Nat.max (os.pos fl) (length (os.data fl))) < 2 ^ 63 ->
  bio.Reader.Peek b n w = Some (Ret (got, None, b1) w1) ->
  0 <= n /\ Z.of_nat (length got) = n /\
  bio.Reader.Offset b w = Some (Ret (logical b fl) w) /\
  bio.Reader.Offset b1 w1 = Some (Ret (logical b fl) w1) /\
  (exists e2 b2 w2,
     bio.Reader.Read b1 (Z.to_nat n) w1 = Some (Ret (got, e2, b2) w2) /\
     (0 < n -> e2 = None) /\
     bio.Reader.Offset b2 w2 = Some (Ret (logical b fl + n) w2)) /\
  (forall got' e' b' w',
     bio.Reader.Read b (Z.to_nat n) w = Some (Ret (got', e', b') w') ->
     bio.Reader.Offset b' w'
     = Some (Ret (logical b fl + Z.of_nat (length got')) w')).
Proof.
  intros Hop Hclosed Hbound Hpeek.
  pose proof Hop as (Hf & Hrd & Hfile & Hsz & Hlen & Hint).
  destruct (Peek_returns (bio.Reader.r b) n w Hsz Hlen)
    as (got0 & e0 & r1 & w1' & Hpk & Hcons & Hbuf1 & Hok).
  unfold bio.Reader.Peek in Hpeek. rewrite (bind_Ret _ _ _ _ _ Hpk) in Hpeek.
  injection Hpeek as -> -> <- ->.
  destruct (Hok eq_refl) as (Hn & Hgot & Hgl).
  destruct (consumed_Offset _ _ _ _ _ _ _ Hop Hclosed Hbound Hcons Hbuf1)
    as (fl1 & Hop1 & Hclosed1 & Hbound1 & Hoff1).
  rewrite Z.add_0_r in Hoff1. simpl in Hoff1.
  split; [done|]. split; [lia|].
  split; [apply (Reader_Offset_opened _ _ d); [done|done|lia]|].
  split; [done|]. split.
  - pose proof Hop1 as (_ & _ & _ & Hsz1 & _).
    destruct (Read_returns r1 (Z.to_nat n) w1 Hsz1 Hbuf1)
      as (got2 & e2 & r2 & w2 & Hread & Hcons2 & _ & Hbuf2 & _).
    assert (Hsame : got2 = got /\ (0 < n -> e2 = None)).
    { revert Hread. unfold bufio.Reader.Read.
      destruct (Z.to_nat n) as [|k] eqn:Hk.
      - intros [= <- <- <- <-]. split; [|lia]. rewrite Hgot. done.
      - destruct (bufio.Reader.buf r1) as [|c l] eqn:Hb1.
        { rewrite take_nil in Hgot. subst got. simpl in Hgl. lia. }
        unfold ret, bufio.Reader.copy_out. intros [= <- <- <- <-].
        by rewrite Hgot, Hb1. }
    destruct Hsame as [-> He2].
    destruct (consumed_Offset _ _ _ _ _ _ _ Hop1 Hclosed1 Hbound1 Hcons2 Hbuf2)
      as (fl2 & _ & _ & _ & Hoff2).
    exists e2, (bio.Reader.mk (bio.Reader.f b) r2), w2.
    split; [|split; [done|]].
    + unfold bio.Reader.Read. simpl. by rewrite (bind_Ret _ _ _ _ _ Hread).
    + simpl in Hoff2. rewrite Hoff2. do 2 f_equal.
      unfold logical at 1. simpl. 
      assert (logical (bio.Reader.mk (bio.Reader.f b) r1) fl1 = logical b fl).
      { pose proof (Reader_Offset_opened _ _ _ _ Hop1 Hclosed1 ltac:(lia)) as H1.
        rewrite Hoff1 in H1. by injection H1. }
      unfold logical in *. simpl in *. lia.
  - intros got' e' b' w' Hread.
    destruct (Read_returns (bio.Reader.r b) (Z.to_nat n) w Hsz Hlen)
      as (got2 & e2 & r2 & w2 & Hread2 & Hcons2 & _ & Hbuf2 & _).
    unfold bio.Reader.Read in Hread.
    rewrite (bind_Ret _ _ _ _ _ Hread2) in Hread. injection Hread as <- <- <- <-.
    by destruct (consumed_Offset _ _ _ _ _ _ _ Hop Hclosed Hbound Hcons2 Hbuf2)
      as (fl2 & _ & _ & _ & Hoff2).
Qed.

(** ** Offset and Seek of a reader *)

Lemma Open_returns name contents w :
  disk w !! name = Some contents ->
  let d := os_calls.fresh_fd w in
  bio.Open name w
  = Some (Ret (Some (bio.Reader.mk (Some d) (bufio.Reader.NewReader (Some d))), None)
              (set_file d (os.plain contents) w)).
Proof. intros H. unfold bio.Open, bind, os_calls.Open. by rewrite H. Qed.

(** The first [Read] of [n] bytes, fewer than the buffer holds, from a
    fresh reader on a plain file that is not empty: one [fill] reads ahead
    as much as the buffer takes, and the first [n] bytes are handed out. *)
Lemma first_Read_reads_ahead d w fl n :
  files w !! d = Some fl -> plain_reads fl -> rest_of fl <> [] ->
  (0 < n < bufio.defaultBufSize)%nat ->
  let got := take bufio.defaultBufSize (rest_of fl) in
  exists fl',
    bio.Reader.Read (bio.Reader.mk (Some d) (bufio.Reader.NewReader (Some d))) n w
    = Some (Ret (take n (rest_of fl), None,
                 bio.Reader.mk (Some d)
                   (bufio.Reader.mk (drop n got) bufio.defaultBufSize None (Some d)))
                (set_file d fl' w)) /\
    plain_reads fl' /\
    os.data fl' = os.data fl /\
    os.pos fl' = (os.pos fl + length got)%nat.
Proof.
  intros Hf Hp Hne Hn got.
  destruct (fill_plain (bufio.Reader.NewReader (Some d)) w d fl eq_refl Hf Hp)
    as (fl' & Hfill & Hp' & Hdata & Hpos & _); [simpl; lia|].
  unfold bufio.Reader.NewReader in Hfill, Hpos.
  cbn [bufio.Reader.size bufio.Reader.buf bufio.Reader.err app length]
    in Hfill, Hpos.
  rewrite Nat.sub_0_r in Hfill, Hpos. fold got in Hfill, Hpos.
  exists fl'. split; [|done].
  unfold bio.Reader.Read, bufio.Reader.Read.
  cbn [bio.Reader.r bio.Reader.f bufio.Reader.NewReader bufio.Reader.size
       bufio.Reader.buf bufio.Reader.err].
  destruct n as [|n]; [lia|].
  assert ((bufio.defaultBufSize <=? S n)%nat = false) as -> by (apply Nat.leb_gt; lia).
  unfold bind at 1. unfold bind at 1.
  unfold bufio.Reader.NewReader at 1. rewrite Hfill. cbn [bufio.Reader.buf].
  assert (Hgot : got <> []).
  { subst got. intros H. apply Hne. eapply take_nil_inv; [|exact H].
    unfold bufio.defaultBufSize. lia. }
  destruct got as [|c l] eqn:Hg; [done|].
  unfold ret, bufio.Reader.copy_out. cbn [bufio.Reader.buf bufio.Reader.size
    bufio.Reader.err bufio.Reader.rd].
  do 4 f_equal. rewrite <- Hg. subst got. rewrite take_take. f_equal. lia.
Qed.

(** C2. For every reader [Open] made on an open file, [Offset] returns the
    raw cursor of the handle minus the count of buffered bytes that were
    not consumed.  [Seek] from the current position subtracts that count
    from the offset, seeks the handle with the result, and discards the
    buffer: it returns the logical position plus the offset, nothing is
    buffered afterwards and [Offset] says the same.  Consequently, on any
    file of more than 3 bytes: after a [Read] of 3 bytes the raw cursor is
    ahead of 3 by what was read ahead, and [Seek(0, 1)] and then [Offset]
    both return 3. *)
Theorem Reader_Offset_and_Seek_discount_read_ahead :
  (forall (b : bio.Reader.t) (w : World) (d : nat) (fl : os.File),
     opened b w d fl -> os.closed fl = false -> Z.of_nat (os.pos fl) < 2 ^ 63 ->
     bio.Reader.Offset b w
     = Some (Ret (Z.of_nat (os.pos fl)
                  - Z.of_nat (bufio.Reader.Buffered (bio.Reader.r b))) w) /\
     forall offset,
       - 2 ^ 63 <= offset < 2 ^ 63 ->
       0 <= logical b fl + offset < 2 ^ 63 ->
       exists b' w' fl',
         os_calls.Seek (Some d)
           (offset - Z.of_nat (bufio.Reader.Buffered (bio.Reader.r b))) 1 w
         = Some (Ret (logical b fl + offset, None) w') /\
         bio.Reader.Seek b offset 1 w = Some (Ret (logical b fl + offset, b') w') /\
         bufio.Reader.Buffered (bio.Reader.r b') = 0%nat /\
         opened b' w' d fl' /\
         Z.of_nat (os.pos fl') = logical b fl + offset /\
         bio.Reader.Offset b' w' = Some (Ret (logical b fl + offset) w')) /\
  (forall (name : string) (contents : list byte) (w : World),
     disk w !! name = Some contents -> (3 < length contents)%nat ->
     let raw := Z.of_nat (Nat.min (length contents) bufio.defaultBufSize) in
     3 < raw /\
     value (read3_seek_offset name w) = Some (take 3 contents, raw, 3, 3)).
Proof.
  split.
  - intros b w d fl Hop Hclosed Hpos. split.
    + by apply (Reader_Offset_opened _ _ d).
    + intros offset Hoff Ht.
      destruct (Reader_Seek_current b w d fl offset Hop Hclosed Hpos Hoff Ht)
        as (Hsk & Hseek & Hop' & Hoffset).
      eexists _, _, _. split; [exact Hsk|]. split; [exact Hseek|].
      split; [done|]. split; [exact Hop'|]. split; [simpl; lia|done].
  - intros name contents w Hdisk Hlen raw.
    assert (Hraw : 3 < raw) by (subst raw; unfold bufio.defaultBufSize; lia).
    split; [done|].
    unfold read3_seek_offset. rewrite (bind_Ret _ _ _ _ _ (Open_returns _ _ _ Hdisk)).
    set (d := os_calls.fresh_fd w). set (w0 := set_file d (os.plain contents) w).
    destruct (first_Read_reads_ahead d w0 (os.plain contents) 3)
      as (fl1 & Hread & Hp1 & Hdata1 & Hpos1).
    { apply lookup_insert_eq. }
    { done. }
    { unfold rest_of. simpl. destruct contents; [simpl in Hlen; lia|done]. }
    { unfold bufio.defaultBufSize. lia. }
    rewrite (bind_Ret _ _ _ _ _ Hread).
    unfold rest_of in Hpos1, Hread. simpl in Hpos1, Hread.
    change (drop 0 contents) with contents in Hpos1, Hread.
    rewrite length_take in Hpos1.
    cbn [bio.Reader.f]. set (w1 := set_file d fl1 w0) in *.
    set (b1 := bio.Reader.mk (Some d)
                 (bufio.Reader.mk (drop 3 (take bufio.defaultBufSize contents))
                    bufio.defaultBufSize None (Some d))).
    assert (Hf1 : files w1 !! d = Some fl1) by apply lookup_insert_eq.
    assert (Hpos1' : Z.of_nat (os.pos fl1) = raw) by (subst raw; lia).
    destruct Hp1 as [Hclosed1 Hreads1].
    assert (Hsmall : Z.of_nat (os.pos fl1) < 2 ^ 63)
      by (unfold bufio.defaultBufSize in *; lia).
    rewrite (bind_Ret _ _ _ _ _ (os_Seek_query d w1 fl1 Hf1 Hclosed1 Hsmall)).
    assert (Hop1 : opened b1 w1 d fl1).
    { unfold opened, reader_ok. subst b1. simpl.
      rewrite length_drop, length_take. unfold bufio.defaultBufSize.
      repeat split; try done; lia. }
    assert (Hlog : logical b1 fl1 = 3).
    { unfold logical, bufio.Reader.Buffered. subst b1. simpl.
      rewrite length_drop, length_take. unfold bufio.defaultBufSize in *. lia. }
    destruct (Reader_Seek_current b1 w1 d fl1 0 Hop1 Hclosed1 Hsmall)
      as (_ & Hseek & _ & Hoffset); try lia.
    rewrite Hlog in Hseek, Hoffset. simpl Z.add in Hseek, Hoffset.
    rewrite (bind_Ret _ _ _ _ _ Hseek), (bind_Ret _ _ _ _ _ Hoffset).
    simpl. by rewrite Hpos1'.
Qed.

(** C9. The adapter constructors [BufReader] and [BufWriter] leave the
    handle field nil, whereas [Open] and [Create] set it to the handle the
    buffer works on.  [Seek] and [Offset] go to the handle without looking
    whether there is one: on a stream whose handle is nil, whatever its
    buffer holds, the seek is made on the nil handle, which answers with
    [os.ErrInvalid]; no offset comes back and the run ends in [log.Fatalf],
    not in a panic (for a writer the flush before it may end it first); on
    a stream fresh from [Open] or [Create] they return. *)
Theorem adapter_mode_has_no_handle_to_seek :
  (forall rd, bio.Reader.f (bio.BufReader rd) = None) /\
  (forall wr, bio.Writer.f (bio.BufWriter wr) = None) /\
  (forall r0 offset whence w,
     os_calls.Seek None offset whence w = Some (Ret (0, Some os_ErrInvalid) w) /\
     bio.Reader.Seek (bio.Reader.mk None r0) offset whence w
     = Some (Fatal "seeking in output: %v" os_ErrInvalid)) /\
  (forall r0 w,
     bio.Reader.Offset (bio.Reader.mk None r0) w
     = Some (Fatal "seeking in output [0, 1]: %v" os_ErrInvalid)) /\
  (forall w0 offset whence w,
     (exists e, bio.Writer.Seek (bio.Writer.mk None w0) offset whence w
                = Some (Fatal "writing output: %v" e)) \/
     bio.Writer.Seek (bio.Writer.mk None w0) offset whence w
     = Some (Fatal "seeking in output: %v" os_ErrInvalid)) /\
  (forall w0 w,
     (exists e, bio.Writer.Offset (bio.Writer.mk None w0) w
                = Some (Fatal "writing output: %v" e)) \/
     bio.Writer.Offset (bio.Writer.mk None w0) w
     = Some (Fatal "seeking in output [0, 1]: %v" os_ErrInvalid)) /\
  (forall name w b w',
     bio.Open name w = Some (Ret (Some b, None) w') ->
     exists d fl,
       opened b w' d fl /\
       bio.Reader.Offset b w' = Some (Ret 0 w') /\
       exists b'', bio.Reader.Seek b 0 0 w' = Some (Ret (0, b'') w')) /\
  (forall name w b w',
     bio.Create name w = Some (Ret (Some b, None) w') ->
     exists d fl,
       created b w' d fl /\
       bio.Writer.Offset b w' = Some (Ret (0, b) w')).
Proof.
  split; [done|]. split; [done|]. split; [done|]. split; [done|].
  split; [|split; [|split]].
  - intros w0 offset whence w. unfold bio.Writer.Seek.
    destruct (Flush_returns w0 w) as (e1 & w1 & world1 & Hfl & _).
    cbn [bio.Writer.w bio.Writer.f]. rewrite (bind_Ret _ _ _ _ _ Hfl).
    destruct e1 as [e|]; [left; by exists e|by right].
  - intros w0 w. unfold bio.Writer.Offset.
    destruct (Flush_returns w0 w) as (e1 & w1 & world1 & Hfl & _).
    cbn [bio.Writer.w bio.Writer.f]. rewrite (bind_Ret _ _ _ _ _ Hfl).
    destruct e1 as [e|]; [left; by exists e|by right].
  - intros name w b w' Hopen.
    apply Open_opened in Hopen as (d & contents & _ & -> & -> & Hop).
    exists d, (os.plain contents). split; [done|].
    assert (Hf : files (set_file d (os.plain contents) w) !! d
                 = Some (os.plain contents)) by apply lookup_insert_eq.
    split.
    + rewrite (Reader_Offset_opened _ _ _ _ Hop); done.
    + unfold bio.Reader.Seek. cbn [bio.Reader.f Z.eqb].
      rewrite (bind_Ret _ _ _ _ _ (os_Seek_present _ _ _ _ _ Hf)).
      cbn. rewrite set_file_set. eexists. done.
  - intros name w b w' Hcreate.
    apply Create_created in Hcreate as (d & fl & -> & Hcr & _ & Hpos & Hcl).
    exists d, fl. split; [done|].
    destruct Hcr as (_ & _ & Hf & _).
    unfold bio.Writer.Offset. cbn.
    rewrite (bind_Ret _ _ _ _ _ (os_Seek_query _ _ _ Hf Hcl ltac:(rewrite Hpos; done))).
    by rewrite Hpos.
Qed.

(** ** Writing *)



Lemma Write_loop_stop b p nn w :
  ((bufio.Writer.Available b <? length p)%nat
   && bool_decide (bufio.Writer.err b = None)) = false ->
  forall fuel, bufio.Writer.Write_loop fuel b p nn w = Some (Ret (p, nn, b) w).
Proof. intros H fuel. destruct fuel; simpl; by rewrite H. Qed.

Lemma Write_loop_go b p nn fuel :
  ((bufio.Writer.Available b <? length p)%nat
   && bool_decide (bufio.Writer.err b = None)) = true ->
  bufio.Writer.Write_loop (S fuel) b p nn
  = match bufio.Writer.buf b with
    | [] =>
        (let* (n, e) := os_calls.Write (bufio.Writer.wr b) p in
         bufio.Writer.Write_loop fuel
           (bufio.Writer.mk e [] (bufio.Writer.size b) (bufio.Writer.wr b))
           (drop n p) (nn + n))%prog
    | _ :: _ =>
        let n := Nat.min (bufio.Writer.Available b) (length p) in
        (let* (_, b) := bufio.Writer.Flush
                          (bufio.Writer.mk (bufio.Writer.err b)
                             (bufio.Writer.buf b ++ take n p) (bufio.Writer.size b)
                             (bufio.Writer.wr b)) in
         bufio.Writer.Write_loop fuel b (drop n p) (nn + n))%prog
    end.
Proof. intros H. simpl. by rewrite H. Qed.



Lemma WriteString_loop_stop b s nn w :
  ((bufio.Writer.Available b <? length s)%nat
   && bool_decide (bufio.Writer.err b = None)) = false ->
  forall fuel, bufio.Writer.WriteString_loop fuel b s nn w = Some (Ret (s, nn, b) w).
Proof. intros H fuel. destruct fuel; simpl; by rewrite H. Qed.

Lemma WriteString_loop_go b s nn fuel :
  ((bufio.Writer.Available b <? length s)%nat
   && bool_decide (bufio.Writer.err b = None)) = true ->
  bufio.Writer.WriteString_loop (S fuel) b s nn
  = (let n := Nat.min (bufio.Writer.Available b) (length s) in
     let* (_, b) := bufio.Writer.Flush
                      (bufio.Writer.mk (bufio.Writer.err b)
                         (bufio.Writer.buf b ++ take n s) (bufio.Writer.size b)
                         (bufio.Writer.wr b)) in
     bufio.Writer.WriteString_loop fuel b (drop n s) (nn + n))%prog.
Proof. intros H. simpl. by rewrite H. Qed.










(** ** Brdline *)

Lemma index_byte_None l c : bufio.index_byte l c = None -> c ∉ l.
Proof.
  induction l as [|x l IH]; simpl; [intros _; apply not_elem_of_nil|].
  destruct (decide (x = c)) as [->|Hne]; [done|].
  destruct (bufio.index_byte l c); [done|]. intros _.
  apply not_elem_of_cons. split; [done|]. by apply IH.
Qed.

Lemma index_byte_Some l c i :
  bufio.index_byte l c = Some i ->
  exists pre, take (S i) l = pre ++ [c] /\ c ∉ pre.
Proof.
  revert i. induction l as [|x l IH]; intros i; simpl; [done|].
  destruct (decide (x = c)) as [->|Hne].
  - intros [= <-]. exists []. split; [done|]. apply not_elem_of_nil.
  - destruct (bufio.index_byte l c) as [j|]; [|done]. intros [= <-].
    destruct (IH j eq_refl) as (pre & Hpre & Hnot).
    exists (x :: pre). simpl. rewrite Hpre. split; [done|].
    apply not_elem_of_cons. done.
Qed.

(** The errors of a handle are its own: none is [bufio.ErrBufferFull]. *)
Lemma os_Read_error h k w got e w' :
  os_calls.Read h k w = Some (Ret (got, e) w') -> e <> Some bufio_ErrBufferFull.
Proof.
  unfold os_calls.Read, os_calls.on_file.
  destruct h as [d|]; [|by intros [= <- <- <-]].
  destruct (files w !! d) as [f|]; [|by intros [= <- <- <-]].
  unfold os.file_read. destruct (os.closed f); [by intros [= <- <- <-]|].
  destruct (os.reads f) as [|st rest].
  - destruct (take k (drop (os.pos f) (os.data f))); destruct k;
      by intros [= <- <- <-].
  - intros [= <- <- <-]. by destruct (os.fails st).
Qed.

Lemma fill_tries_error i b w b' w' :
  bufio.Reader.fill_tries i b w = Some (Ret b' w') ->
  bufio.Reader.err b' = bufio.Reader.err b \/
  (bufio.Reader.err b' <> None /\ bufio.Reader.err b' <> Some bufio_ErrBufferFull).
Proof.
  revert b w. induction i as [|i IH]; intros b w.
  { intros [= <- <-]. right. done. }
  rewrite fill_tries_S. unfold bind at 1.
  destruct (os_calls.Read _ _ w) as [[[got e] w1| |]|] eqn:Hrd; try done.
  apply os_Read_error in Hrd. destruct e as [e|].
  - intros [= <- <-]. right. done.
  - destruct got.
    + intros H. by apply IH in H.
    + intros [= <- <-]. by left.
Qed.

Lemma fill_error b w b' w' :
  bufio.Reader.fill b w = Some (Ret b' w') ->
  bufio.Reader.err b' = bufio.Reader.err b \/
  (bufio.Reader.err b' <> None /\ bufio.Reader.err b' <> Some bufio_ErrBufferFull).
Proof.
  unfold bufio.Reader.fill. destruct (_ <=? _)%nat; [done|].
  apply fill_tries_error.
Qed.

Lemma ReadSlice_loop_found b delim i w :
  bufio.index_byte (bufio.Reader.buf b) delim = Some i ->
  forall fuel,
    bufio.Reader.ReadSlice_loop fuel b delim w
    = Some (Ret (take (S i) (bufio.Reader.buf b), None,
                 bufio.Reader.mk (drop (S i) (bufio.Reader.buf b))
                   (bufio.Reader.size b) (bufio.Reader.err b) (bufio.Reader.rd b)) w).
Proof. intros H fuel. destruct fuel; simpl; by rewrite H. Qed.

Lemma ReadSlice_loop_pending b delim x w :
  bufio.index_byte (bufio.Reader.buf b) delim = None ->
  bufio.Reader.err b = Some x ->
  forall fuel,
    bufio.Reader.ReadSlice_loop fuel b delim w
    = Some (Ret (bufio.Reader.buf b, Some x,
                 bufio.Reader.mk [] (bufio.Reader.size b) None (bufio.Reader.rd b)) w).
Proof. intros H He fuel. destruct fuel; simpl; by rewrite H, He. Qed.

Lemma ReadSlice_loop_full b delim w :
  bufio.index_byte (bufio.Reader.buf b) delim = None ->
  bufio.Reader.err b = None ->
  (bufio.Reader.size b <= length (bufio.Reader.buf b))%nat ->
  forall fuel,
    bufio.Reader.ReadSlice_loop fuel b delim w
    = Some (Ret (bufio.Reader.buf b, Some bufio_ErrBufferFull,
                 bufio.Reader.mk [] (bufio.Reader.size b) None (bufio.Reader.rd b)) w).
Proof.
  intros H He Hfull fuel. apply Nat.leb_le in Hfull.
  unfold bufio.Reader.Buffered. destruct fuel; simpl;
    unfold bufio.Reader.Buffered; by rewrite H, He, Hfull.
Qed.

Lemma ReadSlice_loop_fill b delim fuel w :
  bufio.index_byte (bufio.Reader.buf b) delim = None ->
  bufio.Reader.err b = None ->
  (length (bufio.Reader.buf b) < bufio.Reader.size b)%nat ->
  bufio.Reader.ReadSlice_loop (S fuel) b delim w
  = (let* b := bufio.Reader.fill b in bufio.Reader.ReadSlice_loop fuel b delim)%prog w.
Proof.
  intros H He Hroom. apply Nat.leb_gt in Hroom. simpl.
  unfold bufio.Reader.Buffered. by rewrite H, He, Hroom.
Qed.

Lemma consumed_all b w e :
  consumed b w (bufio.Reader.buf b)
    (bufio.Reader.mk [] (bufio.Reader.size b) e (bufio.Reader.rd b)) w.
Proof.
  split; [done|]. split; [done|]. exists [].
  split; [apply delivered_refl|]. done.
Qed.

(** The loop of [ReadSlice] returns: a line that ends in the first
    delimiter of the stream, or with an error what was there before it. *)
Lemma ReadSlice_loop_returns fuel b delim w :
  (0 < bufio.Reader.size b)%nat ->
  (length (bufio.Reader.buf b) <= bufio.Reader.size b)%nat ->
  (bufio.Reader.err b <> None \/
   (bufio.Reader.size b - length (bufio.Reader.buf b) <= fuel)%nat) ->
  exists line e b' w',
    bufio.Reader.ReadSlice_loop fuel b delim w = Some (Ret (line, e, b') w') /\
    consumed b w line b' w' /\
    slice_ok b delim line e b'.
Proof.
  revert b w. induction fuel as [|fuel IH]; intros b w Hsz Hbuf Hfuel;
    (destruct (bufio.index_byte (bufio.Reader.buf b) delim) as [i|] eqn:Hi;
     [rewrite (ReadSlice_loop_found _ _ _ _ Hi);
      eexists _, _, _, _; (split; [reflexivity|]);
      (split; [apply consumed_copy_out|]); (split; [simpl; rewrite length_drop; lia|]);
      by apply index_byte_Some
     |apply index_byte_None in Hi as Hnot;
      destruct (bufio.Reader.err b) as [x|] eqn:He;
      [rewrite (ReadSlice_loop_pending _ _ _ _ Hi He);
       eexists _, _, _, _; (split; [reflexivity|]);
       (split; [apply consumed_all|]); (split; [simpl; lia|]);
       (split; [done|]); (split; [done|]); intros ->; by right
      |destruct (Nat.le_gt_cases (bufio.Reader.size b) (length (bufio.Reader.buf b)))
         as [Hfull|Hroom];
       [rewrite (ReadSlice_loop_full _ _ _ Hi He Hfull);
        eexists _, _, _, _; (split; [reflexivity|]);
        (split; [apply consumed_all|]); (split; [simpl; lia|]);
        (split; [done|]); (split; [done|]); intros _; left; lia
       |]]]).
  - destruct Hfuel as [?|?]; [done|lia].
  - rewrite (ReadSlice_loop_fill _ _ _ _ Hi He Hroom).
    destruct (fill_consumed b w Hroom) as (b1 & w1 & Hfill & Hc & Hl1 & Herr).
    rewrite (bind_Ret _ _ _ _ _ Hfill).
    pose proof (fill_error _ _ _ _ Hfill) as Hfe.
    assert (Hsz1 : bufio.Reader.size b1 = bufio.Reader.size b)
      by (by destruct Hc as (_ & ? & _)).
    destruct (IH b1 w1) as (line & e & b2 & w2 & Hloop & Hc2 & Hl2 & Hres).
    { lia. }
    { lia. }
    { destruct Herr as [?|[Hgrow _]]; [by left|right]. destruct Hfuel; [done|lia]. }
    exists line, e, b2, w2. split; [done|].
    split; [change line with ([] ++ line); by eapply consumed_trans|].
    split; [done|]. destruct e as [x|]; [|done].
    destruct Hres as (? & ? & Hbf). repeat split; try done.
    intros Hx. destruct (Hbf Hx) as [?|Hb1]; [by left|].
    rewrite He in Hfe. destruct Hfe as [Hfe|[_ Hfe]]; congruence.
Qed.

(** On a plain file [ReadSlice] fails only on a full buffer or, with
    [io.EOF], at the end of the stream. *)
Lemma ReadSlice_loop_plain fuel b delim w line e b' w' :
  plain_now b w -> (0 < bufio.Reader.size b)%nat ->
  bufio.Reader.ReadSlice_loop fuel b delim w = Some (Ret (line, e, b') w') ->
  plain_now b' w' /\
  (e = None \/ e = Some bufio_ErrBufferFull \/
   (e = Some io_EOF /\ ahead b' w' = [])).
Proof.
  revert b w. induction fuel as [|fuel IH]; intros b w Hpl Hsz;
    pose proof Hpl as (d & f & Hrd & Hf & Hp & He);
    (destruct (bufio.index_byte (bufio.Reader.buf b) delim) as [i|] eqn:Hi;
     [rewrite (ReadSlice_loop_found _ _ _ _ Hi); intros [= <- <- <- <-];
      split; [by exists d, f|by left]
     |destruct (Nat.le_gt_cases (bufio.Reader.size b) (length (bufio.Reader.buf b)))
        as [Hfull|Hroom];
      [rewrite (ReadSlice_loop_full _ _ _ Hi He Hfull); intros [= <- <- <- <-];
       split; [by exists d, f|right; by left]
      |]]).
  - simpl. unfold bufio.Reader.Buffered. rewrite Hi, He.
    apply Nat.leb_gt in Hroom. by rewrite Hroom.
  - rewrite (ReadSlice_loop_fill _ _ _ _ Hi He Hroom).
    destruct (fill_plain b w d f Hrd Hf Hp Hroom)
      as (f' & Hfill & Hp' & Hdata & Hpos & Hrest).
    rewrite (bind_Ret _ _ _ _ _ Hfill).
    assert (Hf' : files (set_file d f' w) !! d = Some f') by apply lookup_insert_eq.
    destruct (take (bufio.Reader.size b - length (bufio.Reader.buf b)) (rest_of f))
      as [|c l] eqn:Hg.
    + rewrite ReadSlice_loop_pending with (x := io_EOF);
        [|simpl; by rewrite app_nil_r|done].
      intros [= <- <- <- <-]. split; [by exists d, f'|]. right. right.
      split; [done|]. unfold ahead. simpl. rewrite lookup_insert_eq.
      simpl in Hrest. rewrite <- Hrest. eapply take_nil_inv; [|exact Hg]. lia.
    + apply IH; [|done]. exists d, f'. rewrite He. done.
Qed.

Lemma ReadBytes_loop_S fuel b delim full :
  bufio.Reader.ReadBytes_loop (S fuel) b delim full
  = (let* (frag, e, b) := bufio.Reader.ReadSlice b delim in
     match e with
     | None => ret (full ++ frag, None, b)
     | Some e' =>
         if decide (e' = bufio_ErrBufferFull)
         then bufio.Reader.ReadBytes_loop fuel b delim (full ++ frag)
         else ret (full ++ frag, Some e', b)
     end)%prog.
Proof. reflexivity. Qed.

Lemma ReadBytes_loop_returns fuel b delim full w :
  (0 < bufio.Reader.size b)%nat ->
  (length (bufio.Reader.buf b) <= bufio.Reader.size b)%nat ->
  (length (ahead b w)
   + (match bufio.Reader.err b with Some _ => 1 | None => 0 end) < fuel)%nat ->
  exists more e b' w',
    bufio.Reader.ReadBytes_loop fuel b delim full w
    = Some (Ret (full ++ more, e, b') w') /\
    consumed b w more b' w' /\
    (length (bufio.Reader.buf b') <= bufio.Reader.size b')%nat /\
    line_ok delim more e /\
    (plain_now b w ->
     plain_now b' w' /\ (e = None \/ (e = Some io_EOF /\ ahead b' w' = []))).
Proof.
  revert b full w. induction fuel as [|fuel IH]; intros b full w Hsz Hbuf Hfuel;
    [lia|].
  rewrite ReadBytes_loop_S.
  destruct (ReadSlice_loop_returns (S (bufio.Reader.size b)) b delim w Hsz Hbuf)
    as (frag & e & b1 & w1 & Hslice & Hc & Hbuf1 & Hres); [right; lia|].
  unfold bufio.Reader.ReadSlice. rewrite (bind_Ret _ _ _ _ _ Hslice).
  assert (Hplain1 : plain_now b w ->
            plain_now b1 w1 /\
            (e = None \/ e = Some bufio_ErrBufferFull \/
             (e = Some io_EOF /\ ahead b1 w1 = [])))
    by (intros Hpl; by eapply ReadSlice_loop_plain).
  destruct e as [x|].
  2:{ exists frag, None, b1, w1. split; [done|]. split; [done|]. split; [done|].
      split; [done|]. intros Hpl. destruct (Hplain1 Hpl) as [? _].
      split; [done|by left]. }
  destruct Hres as (Hnot & He1 & Hbf).
  destruct (decide (x = bufio_ErrBufferFull)) as [->|Hx].
  2:{ exists frag, (Some x), b1, w1. split; [done|]. split; [done|].
      split; [done|]. split; [done|]. intros Hpl.
      destruct (Hplain1 Hpl) as [? [?|[?|?]]]; try done; try congruence.
      split; [done|by right]. }
  assert (Hsz1 : bufio.Reader.size b1 = bufio.Reader.size b)
    by (by destruct Hc as (_ & ? & _)).
  apply consumed_ahead in Hc as Hah.
  destruct (IH b1 (full ++ frag) w1)
    as (more & e & b2 & w2 & Hloop & Hc2 & Hbuf2 & Hline & Hplain2); try lia.
  { rewrite He1. rewrite Hah, length_app in Hfuel.
    destruct (Hbf eq_refl) as [?|Hpend]; [lia|]. rewrite Hpend in Hfuel. lia. }
  exists (frag ++ more), e, b2, w2. rewrite app_assoc. split; [done|].
  split; [by eapply consumed_trans|]. split; [done|]. split.
  - destruct e as [y|]; simpl in *.
    + destruct Hline as [Hm ?]. split; [|done].
      intros [?|?]%elem_of_app; done.
    + destruct Hline as (pre & -> & Hpre). exists (frag ++ pre).
      rewrite app_assoc. split; [done|]. intros [?|?]%elem_of_app; done.
  - intros Hpl. destruct (Hplain1 Hpl) as [Hpl1 _]. by apply Hplain2.
Qed.

(** C1, as amended.  For every reader, delimiter and enough fuel for the
    bytes ahead, [Brdline] finishes.  When [ReadBytes] reports no error it
    returns the next bytes of the stream up to and including the first
    occurrence of the delimiter.  Every error [ReadBytes] reports before a
    delimiter is found ends the run in [log.Fatalf], [io.EOF] as any other.
    On a plain file with no error pending: the call returns when the
    delimiter occurs in what is ahead, and when it does not (the stream
    ends with no trailing delimiter, or has ended) the call is fatal with
    [io.EOF], all that was ahead being consumed.  On "ab;cd;" with
    delimiter [;] two successive calls return "ab;" and "cd;". *)
Theorem Brdline_line_or_fatal :
  (forall (b : bio.Reader.t) (delim : Z) (fuel : nat) (w : World),
     (0 < bufio.Reader.size (bio.Reader.r b))%nat ->
     (length (bufio.Reader.buf (bio.Reader.r b))
      <= bufio.Reader.size (bio.Reader.r b))%nat ->
     (length (ahead (bio.Reader.r b) w) + 1 < fuel)%nat ->
     let c := byte_of_int delim in
     exists s e r' w',
       bufio.Reader.ReadBytes fuel (bio.Reader.r b) c w = Some (Ret (s, e, r') w') /\
       ahead (bio.Reader.r b) w = s ++ ahead r' w' /\
       match e with
       | None =>
           bio.Brdline fuel b delim w
           = Some (Ret (string_of_list_byte s, bio.Reader.mk (bio.Reader.f b) r') w') /\
           exists pre, s = pre ++ [c] /\ c ∉ pre
       | Some x =>
           bio.Brdline fuel b delim w = Some (Fatal "reading input: %v" x) /\
           c ∉ s
       end /\
       (plain_now (bio.Reader.r b) w ->
        (c ∈ ahead (bio.Reader.r b) w -> e = None) /\
        (c ∉ ahead (bio.Reader.r b) w ->
         e = Some io_EOF /\ s = ahead (bio.Reader.r b) w))) /\
  value (open_brdlines 10 2 "in" 59 (world_of [("in"%string, bytes "ab;cd;")]))
  = Some ["ab;"%string; "cd;"%string].
Proof.
  split; [|by vm_compute].
  intros b delim fuel w Hsz Hbuf Hfuel c.
  destruct (ReadBytes_loop_returns fuel (bio.Reader.r b) c [] w Hsz Hbuf)
    as (s & e & r' & w' & Hrb & Hc & _ & Hline & Hplain).
  { destruct (bufio.Reader.err (bio.Reader.r b)); lia. }
  simpl app in Hrb. apply consumed_ahead in Hc as Hah.
  exists s, e, r', w'. split; [done|]. split; [done|]. split.
  - unfold bio.Brdline. fold c. unfold bufio.Reader.ReadBytes.
    rewrite (bind_Ret _ _ _ _ _ Hrb). destruct e as [x|]; simpl in Hline.
    + by destruct Hline.
    + done.
  - intros Hpl. destruct (Hplain Hpl) as [_ Hend]. split.
    + intros Hin. destruct Hend as [?|[-> Hnil]]; [done|].
      rewrite Hah, Hnil, app_nil_r in Hin. by destruct Hline.
    + intros Hnot. destruct Hend as [->|[-> Hnil]].
      * destruct Hline as (pre & -> & _). exfalso. apply Hnot.
        rewrite Hah. apply elem_of_app. left. apply elem_of_app. right.
        apply list_elem_of_singleton. done.
      * by rewrite Hah, Hnil, app_nil_r.
Qed.

(** Where C1 as it was stated fails: on "ab;cd", a stream that ends with
    no trailing delimiter, the second call does not return "cd" but ends
    the run in [log.Fatalf] with [io.EOF]; and on "ab;cd;" the call after
    the two lines, at the clean end of the stream, is fatal as well. *)
Lemma Brdline_fatal_at_end_of_stream :
  open_brdlines 10 2 "in" 59 (world_of [("in"%string, bytes "ab;cd")])
  = Some (Fatal "reading input: %v" io_EOF) /\
  value (open_brdlines 10 2 "in" 59 (world_of [("in"%string, bytes "ab;cd")]))
  <> Some ["ab;"%string; "cd"%string] /\
  open_brdlines 10 3 "in" 59 (world_of [("in"%string, bytes "ab;cd;")])
  = Some (Fatal "reading input: %v" io_EOF).
Proof. by vm_compute. Qed.

(** Where C8 as it was stated fails: in a file of 5000 bytes, 4094 bytes in,
    two bytes are left in the buffer.  [Peek(5)] succeeds and returns
    "01234"; the [Read] into 5 bytes after it returns the same and [Offset]
    is 4099.  The [Read] into 5 bytes alone hands out the two buffered bytes
    only, and [Offset] is 4096 as if only the [Read] had occurred. *)
Lemma Peek_then_Read_offset_differs :
  value (skip_peek_read_offset "obj" 4094 5
           (world_of [("obj"%string, long_contents)]))
  = Some (bytes "01234", None, bytes "01234", 4099) /\
  value (skip_read_offset "obj" 4094 5 (world_of [("obj"%string, long_contents)]))
  = Some (bytes "01", 4096).
Proof. by vm_compute. Qed.

(** ** The properties at concrete streams *)

Lemma demo_opened : opened demo_reader demo_world 0 (os.plain (bytes "ab;cd;")).
Proof.
  unfold opened, reader_ok. cbn. unfold bufio.defaultBufSize.
  repeat split; try done; lia.
Qed.

Lemma demo_plain : plain_now (bio.Reader.r demo_reader) demo_world.
Proof. exists 0%nat, (os.plain (bytes "ab;cd;")). by repeat split. Qed.

(** C1 at "ab;cd;": the first line is returned. *)
Lemma Brdline_line_or_fatal_witness :
  (0 < bufio.Reader.size (bio.Reader.r demo_reader))%nat /\
  (length (bufio.Reader.buf (bio.Reader.r demo_reader))
   <= bufio.Reader.size (bio.Reader.r demo_reader))%nat /\
  (length (ahead (bio.Reader.r demo_reader) demo_world) + 1 < 10)%nat /\
  exists s r' w',
    bio.Brdline 10 demo_reader 59 demo_world
    = Some (Ret (string_of_list_byte s, bio.Reader.mk (Some 0%nat) r') w') /\
    ahead (bio.Reader.r demo_reader) demo_world = s ++ ahead r' w' /\
    exists pre, s = pre ++ [byte_of_int 59] /\ byte_of_int 59 ∉ pre.
Proof.
  assert (H1 : (0 < bufio.Reader.size (bio.Reader.r demo_reader))%nat)
    by (cbn; unfold bufio.defaultBufSize; lia).
  assert (H2 : (length (bufio.Reader.buf (bio.Reader.r demo_reader))
                <= bufio.Reader.size (bio.Reader.r demo_reader))%nat)
    by (cbn; lia).
  assert (H3 : (length (ahead (bio.Reader.r demo_reader) demo_world) + 1 < 10)%nat)
    by (vm_compute; lia).
  split; [exact H1|]. split; [exact H2|]. split; [exact H3|].
  destruct (proj1 Brdline_line_or_fatal demo_reader 59 10%nat demo_world H1 H2 H3)
    as (s & e & r' & w' & _ & Hah & Hres & Hplain).
  destruct (Hplain demo_plain) as [Hfound _].
  assert (He : e = None).
  { apply Hfound. apply (bool_decide_unpack _). by vm_compute. }
  subst e. destruct Hres as [Hline Hpre]. by exists s, r', w'.
Defined.

(** C2 at "ab;cd;". *)
Lemma Reader_Offset_and_Seek_discount_read_ahead_witness :
  opened demo_reader demo_world 0 (os.plain (bytes "ab;cd;")) /\
  os.closed (os.plain (bytes "ab;cd;")) = false /\
  Z.of_nat (os.pos (os.plain (bytes "ab;cd;"))) < 2 ^ 63 /\
  bio.Reader.Offset demo_reader demo_world = Some (Ret 0 demo_world) /\
  value (read3_seek_offset "in" (world_of [("in"%string, bytes "ab;cd;")]))
  = Some (bytes "ab;", 6, 3, 3).
Proof.
  assert (H3 : Z.of_nat (os.pos (os.plain (bytes "ab;cd;"))) < 2 ^ 63) by done.
  split; [exact demo_opened|]. split; [reflexivity|]. split; [exact H3|].
  split.
  - exact (proj1 (proj1 Reader_Offset_and_Seek_discount_read_ahead
                    demo_reader demo_world 0%nat (os.plain (bytes "ab;cd;"))
                    demo_opened eq_refl H3)).
  - assert (Hlen : (3 < length (bytes "ab;cd;"))%nat) by (vm_compute; lia).
    exact (proj2 (proj2 Reader_Offset_and_Seek_discount_read_ahead "in"%string
                    (bytes "ab;cd;") (world_of [("in"%string, bytes "ab;cd;")])
                    eq_refl Hlen)).
Defined.

(** C9 read to the letter, with the nil handle dereferenced, would end
    in a run-time panic.  On a reader and a writer of adapter mode neither
    [Seek] nor [Offset] panics: the handle's own seek answers the nil
    receiver with [os.ErrInvalid] and the run ends in [log.Fatalf]. *)
Lemma adapter_mode_Seek_is_fatal_without_panic :
  bio.Reader.Seek (bio.BufReader (Some 0%nat)) 0 0 failing_world
  = Some (Fatal "seeking in output: %v" os_ErrInvalid) /\
  panicked (bio.Reader.Seek (bio.BufReader (Some 0%nat)) 0 0 failing_world)
  = false /\
  bio.Reader.Offset (bio.BufReader (Some 0%nat)) failing_world
  = Some (Fatal "seeking in output [0, 1]: %v" os_ErrInvalid) /\
  panicked (bio.Reader.Offset (bio.BufReader (Some 0%nat)) failing_world)
  = false /\
  bio.Writer.Seek (bio.BufWriter (Some 0%nat)) 0 0 failing_world
  = Some (Fatal "seeking in output: %v" os_ErrInvalid) /\
  panicked (bio.Writer.Seek (bio.BufWriter (Some 0%nat)) 0 0 failing_world)
  = false /\
  bio.Writer.Offset (bio.BufWriter (Some 0%nat)) failing_world
  = Some (Fatal "seeking in output [0, 1]: %v" os_ErrInvalid) /\
  panicked (bio.Writer.Offset (bio.BufWriter (Some 0%nat)) failing_world)
  = false.
Proof. by vm_compute. Qed.

(** Where a file cannot be created [Create] returns the error, and on a
    device that does not take its writes the writes are not what the file
    holds: the byte is accepted into the buffer, [Close] reports that it
    could not be written, and [Offset] ends the run. *)
Lemma Create_refused_or_on_a_full_device :
  bio.Create "nodir/out" special_world
  = Some (Ret (None, Some (os_PathError ENOENT)) special_world) /\
  value (create_write_close "/dev/full" [W_Write (bytes "x")] special_world)
  = Some (1%nat, None, Some (os_PathError ENOSPC)) /\
  writes_offset "/dev/full" [W_Write (bytes "x")] special_world
  = Some (Fatal "writing output: %v" (os_PathError ENOSPC)).
Proof. by vm_compute. Qed.


(** C5 at "ab;cd;", and on a device whose read fails. *)
Lemma Bgetc_byte_or_EOF_or_fatal_witness :
  (0 < bufio.Reader.size (bio.Reader.r demo_reader))%nat /\
  (exists c r' w',
     bio.Bgetc demo_reader demo_world
     = Some (Ret (int_of_byte c, bio.Reader.mk (Some 0%nat) r') w') /\
     0 <= int_of_byte c < 256) /\
  (0 < bufio.Reader.size (bio.Reader.r adapter_reader))%nat /\
  bio.Bgetc adapter_reader broken_world
  = Some (Fatal "reading input: %v" (os_PathError EIO)).
Proof.
  assert (H1 : (0 < bufio.Reader.size (bio.Reader.r demo_reader))%nat)
    by (cbn; unfold bufio.defaultBufSize; lia).
  assert (H2 : (0 < bufio.Reader.size (bio.Reader.r adapter_reader))%nat)
    by (cbn; unfold bufio.defaultBufSize; lia).
  split; [exact H1|]. split; [|split; [exact H2|]].
  - destruct (Bgetc_byte_or_EOF_or_fatal demo_reader demo_world H1)
      as (c & e & r' & w' & _ & Hres & Hplain).
    assert (He : e = None) by (by apply (Hplain 0%nat (os.plain (bytes "ab;cd;")))).
    subst e. destruct Hres as (Hget & Hrange & _). by exists c, r', w'.
  - destruct (Bgetc_byte_or_EOF_or_fatal adapter_reader broken_world H2)
      as (c & e & r' & w' & Hrb & Hres & _).
    assert (Hrb' : bufio.Reader.ReadByte (bio.Reader.r adapter_reader) broken_world
                   = broken_read) by (by vm_compute).
    unfold broken_read in Hrb'.
    rewrite Hrb' in Hrb. injection Hrb as <- <- <- <-. exact Hres.
Defined.

(** C6 at "ab;cd;": four bytes are asked for and four are filled in. *)
Lemma Bread_count_or_sentinel_witness :
  (0 < bufio.Reader.size (bio.Reader.r demo_reader))%nat /\
  (length (bufio.Reader.buf (bio.Reader.r demo_reader))
   <= bufio.Reader.size (bio.Reader.r demo_reader))%nat /\
  (4 + script_left (bio.Reader.r demo_reader) demo_world <= 10)%nat /\
  exists r' w',
    bio.Bread 10 demo_reader 4 demo_world
    = Some (Ret (4, bytes "ab;c", bio.Reader.mk (Some 0%nat) r') w').
Proof.
  assert (H1 : (0 < bufio.Reader.size (bio.Reader.r demo_reader))%nat)
    by (cbn; unfold bufio.defaultBufSize; lia).
  assert (H2 : (length (bufio.Reader.buf (bio.Reader.r demo_reader))
                <= bufio.Reader.size (bio.Reader.r demo_reader))%nat)
    by (cbn; lia).
  assert (H3 : (4 + script_left (bio.Reader.r demo_reader) demo_world <= 10)%nat)
    by (vm_compute; lia).
  split; [exact H1|]. split; [exact H2|]. split; [exact H3|].
  destruct (Bread_count_or_sentinel demo_reader 4 10 demo_world H1 H2 H3)
    as (got & e & r' & w' & n & _ & Hb & _ & _ & _ & _ & _ & _ & Hplain).
  destruct (Hplain demo_plain) as [-> ->]. exists r', w'. exact Hb.
Defined.

(** C8 at "ab;cd;" and [Peek(2)]. *)
Lemma Peek_then_Read_same_bytes_witness :
  opened demo_reader demo_world 0 (os.plain (bytes "ab;cd;")) /\
  os.closed (os.plain (bytes "ab;cd;")) = false /\
  Z.of_nat (Nat.max (os.pos (os.plain (bytes "ab;cd;")))
                    (length (os.data (os.plain (bytes "ab;cd;"))))) < 2 ^ 63 /\
  bio.Reader.Peek demo_reader 2 demo_world
  = Some (Ret (demo_peeked.1.1, None, demo_peeked.1.2) demo_peeked.2) /\
  demo_peeked.1.1 = bytes "ab" /\
  bio.Reader.Offset demo_peeked.1.2 demo_peeked.2 = Some (Ret 0 demo_peeked.2) /\
  exists e2 b2 w2,
    bio.Reader.Read demo_peeked.1.2 2 demo_peeked.2
    = Some (Ret (bytes "ab", e2, b2) w2) /\
    bio.Reader.Offset b2 w2 = Some (Ret 2 w2).
Proof.
  assert (H3 : Z.of_nat (Nat.max (os.pos (os.plain (bytes "ab;cd;")))
                 (length (os.data (os.plain (bytes "ab;cd;"))))) < 2 ^ 63)
    by done.
  assert (H4 : bio.Reader.Peek demo_reader 2 demo_world
               = Some (Ret (demo_peeked.1.1, None, demo_peeked.1.2) demo_peeked.2))
    by (by vm_compute).
  split; [exact demo_opened|]. split; [reflexivity|]. split; [exact H3|].
  split; [exact H4|]. split; [reflexivity|].
  destruct (Peek_then_Read_same_bytes demo_reader 2 demo_world 0%nat
              (os.plain (bytes "ab;cd;")) _ _ _ demo_opened eq_refl H3 H4)
    as (_ & _ & _ & Hoff1 & (e2 & b2 & w2 & Hread & _ & Hoff2) & _).
  split; [exact Hoff1|]. exists e2, b2, w2. split; [exact Hread|exact Hoff2].
Defined.

(** C10 on a device that delivers "ab" and then fails with EIO: [Bread]
    returns 2. *)
Lemma Bread_partial_read_hides_error_witness :
  io.ReadFull 10 (bio.Reader.r adapter_reader) 5 failing_world
  = Some (Ret (failing_read.1.1.1, failing_read.1.1.2, failing_read.1.2)
              failing_read.2) /\
  failing_read.1.1.1 <> [] /\
  failing_read.1.1.2 = Some (os_PathError EIO) /\
  bio.Bread 10 adapter_reader 5 failing_world
  = Some (Ret (2, bytes "ab", bio.Reader.mk None failing_read.1.2) failing_read.2).
Proof.
  assert (H1 : io.ReadFull 10 (bio.Reader.r adapter_reader) 5 failing_world
               = Some (Ret (failing_read.1.1.1, failing_read.1.1.2, failing_read.1.2)
                           failing_read.2)) by (by vm_compute).
  assert (H2 : failing_read.1.1.1 <> []) by done.
  split; [exact H1|]. split; [exact H2|]. split; [reflexivity|].
  exact (proj1 (Bread_partial_read_hides_error adapter_reader 5 10 failing_world
                  _ _ _ _ H1 H2)).
Defined.

(** C7 on a writer with three bytes pending whose file refuses the write
    and fails to close: the error of the flush is the one reported, and the
    file is closed all the same. *)
Lemma Writer_Close_both_fail :
  exists b' w',
    bio.Writer.Close pending_writer full_disk_world
    = Some (Ret (Some (os_PathError ENOSPC), b') w') /\
    os.closed <$> files w' !! 0%nat = Some true.
Proof. eexists _, _. by vm_compute. Qed.

(** C3 on the same writer: the flush fails, the run ends, no seek is made. *)
Lemma Writer_Seek_flush_fails :
  bio.Writer.Seek pending_writer 0 0 full_disk_world
  = Some (Fatal "writing output: %v" (os_PathError ENOSPC)).
Proof. by vm_compute. Qed.

(** * Further properties *)

(** ** The reader as a cursor over the contents *)

Lemma reading_plain_now b w d contents off :
  reading b w d contents off -> plain_now (bio.Reader.r b) w.
Proof.
  intros (fl & (_ & Hrd & Hf & _) & Hp & He & _). by exists d, fl.
Qed.

Lemma reading_ok b w d contents off :
  reading b w d contents off -> reader_ok (bio.Reader.r b).
Proof. by intros (fl & (_ & _ & _ & Hok) & _). Qed.

Lemma reading_bound b w d contents off :
  reading b w d contents off -> (off <= length contents)%nat.
Proof. intros (fl & _ & _ & _ & _ & Hpos & Hle & _). lia. Qed.

(** Whatever a reading operation consumed is the next part of the
    contents, and the reader is left a cursor behind it. *)
Lemma reading_consumed b w d contents off got r' w' :
  reading b w d contents off ->
  consumed (bio.Reader.r b) w got r' w' ->
  plain_now r' w' ->
  (length (bufio.Reader.buf r') <= bufio.Reader.size r')%nat ->
  got = take (length got) (drop off contents) /\
  reading (bio.Reader.mk (bio.Reader.f b) r') w' d contents (off + length got).
Proof.
  intros (fl & Hop & Hp & He & Hdata & Hpos & Hle & Hsmall & Hah) Hc Hpl Hl.
  destruct Hop as (Hf & Hrd & Hfl & Hsz & Hbuf & Hsz63).
  pose proof (consumed_ahead _ _ _ _ _ Hc) as Hah'.
  assert (Hat : file_at (bufio.Reader.rd (bio.Reader.r b)) w = Some fl)
    by (rewrite Hrd; exact Hfl).
  destruct (consumed_position _ _ _ _ _ _ Hc Hat)
    as (fl' & Hat' & Hd' & Hcl' & Hrs' & Hpos').
  pose proof (consumed_cursor_bound _ _ _ _ _ _ _ Hc Hat Hat') as Hcb.
  destruct Hc as (Hrd' & Hsz' & _).
  rewrite Hah in Hah'. split.
  { rewrite Hah'. by rewrite take_app_length. }
  rewrite Hrd in Hat'. simpl in Hat'.
  exists fl'. split; [|split; [|split; [|split; [|split; [|split; [|split]]]]]].
  - split; [done|]. split; [simpl; congruence|]. split; [done|].
    simpl. unfold reader_ok. rewrite Hsz'. split; [done|]. split; [|done].
    by rewrite <- Hsz'.
  - destruct Hp as (Hcl & Hrs). split; [congruence|by apply Hrs'].
  - simpl. by destruct Hpl as (? & ? & _ & _ & _ & ?).
  - congruence.
  - simpl. lia.
  - rewrite Hdata in Hcb. lia.
  - done.
  - simpl. rewrite <- drop_drop, Hah'. by rewrite drop_app_length.
Qed.

Lemma Open_reading name contents w :
  disk w !! name = Some contents -> Z.of_nat (length contents) < 2 ^ 63 ->
  let d := os_calls.fresh_fd w in
  reading (bio.Reader.mk (Some d) (bufio.Reader.NewReader (Some d)))
          (set_file d (os.plain contents) w) d contents 0.
Proof.
  intros Hdisk Hsmall d. exists (os.plain contents).
  split; [|split; [done|split; [done|split; [done|split; [done|
    split; [simpl; lia|split; [done|]]]]]]].
  - split; [done|]. split; [done|]. split; [by apply lookup_insert_eq|].
    unfold reader_ok. simpl. unfold bufio.defaultBufSize. lia.
  - unfold ahead. simpl. by rewrite lookup_insert_eq.
Qed.

Lemma Offset_reading b w d contents off :
  reading b w d contents off ->
  bio.Reader.Offset b w = Some (Ret (Z.of_nat off) w).
Proof.
  intros (fl & Hop & (Hcl & _) & _ & _ & Hpos & Hle & Hsmall & _).
  rewrite (Reader_Offset_opened b w d fl Hop Hcl) by lia.
  unfold logical, bufio.Reader.Buffered. do 3 f_equal. lia.
Qed.

(** A seek from the start or from the end: the offset goes to the handle
    as it is. *)
Lemma Reader_Seek_absolute b w d fl offset whence t :
  opened b w d fl -> os.closed fl = false -> whence <> 1 ->
  os.seek_target fl offset whence = Some t -> 0 <= t < 2 ^ 63 ->
  let fl' := os.mkFile (os.data fl) (Z.to_nat t) false
               (os.reads fl) (os.writes fl) (os.closing fl) in
  let b' := bio.Reader.mk (Some d) (bufio.Reader.Reset (bio.Reader.r b) (Some d)) in
  bio.Reader.Seek b offset whence w = Some (Ret (t, b') (set_file d fl' w)) /\
  opened b' (set_file d fl' w) d fl'.
Proof.
  intros (Hf & Hrd & Hfl & Hok) Hcl Hwh Ht Hrange fl' b'.
  split.
  - unfold bio.Reader.Seek. rewrite Hf.
    destruct (whence =? 1) eqn:Hw1; [apply Z.eqb_eq in Hw1; done|].
    rewrite (bind_Ret _ _ _ _ _ (os_Seek_present d offset whence w fl Hfl)).
    unfold os.file_seek. rewrite Hcl, Ht.
    destruct ((0 <=? t) && (t <? 2 ^ 63)) eqn:Hin; [done|].
    apply andb_false_iff in Hin as [Hin|Hin];
      [apply Z.leb_gt in Hin|apply Z.ltb_ge in Hin]; lia.
  - split; [done|]. split; [done|]. split; [by apply lookup_insert_eq|].
    destruct Hok as (? & ? & ?). unfold reader_ok. simpl. lia.
Qed.

Lemma Seek_reading b w d contents off offset whence t :
  reading b w d contents off ->
  cursor_target off (length contents) offset whence = Some t ->
  - 2 ^ 63 <= offset < 2 ^ 63 ->
  0 <= t <= Z.of_nat (length contents) ->
  exists b' w',
    bio.Reader.Seek b offset whence w = Some (Ret (t, b') w') /\
    bufio.Reader.buf (bio.Reader.r b') = [] /\
    reading b' w' d contents (Z.to_nat t).
Proof.
  intros (fl & Hop & Hp & He & Hdata & Hpos & Hle & Hsmall & Hah) Ht Hoff Hrange.
  pose proof Hp as (Hcl & Hrs).
  assert (Hlog : logical b fl = Z.of_nat off).
  { unfold logical, bufio.Reader.Buffered. lia. }
  set (fl' := os.mkFile (os.data fl) (Z.to_nat t) false
                (os.reads fl) (os.writes fl) (os.closing fl)).
  set (b' := bio.Reader.mk (Some d) (bufio.Reader.Reset (bio.Reader.r b) (Some d))).
  assert (Hseek : bio.Reader.Seek b offset whence w
                  = Some (Ret (t, b') (set_file d fl' w))
                  /\ opened b' (set_file d fl' w) d fl').
  { destruct (decide (whence = 1)) as [->|Hne].
    - simpl in Ht. injection Ht as <-.
      destruct (Reader_Seek_current b w d fl offset Hop Hcl) as (_ & Hs & Ho & _);
        try lia.
      rewrite Hlog in Hs, Ho. by split.
    - apply (Reader_Seek_absolute b w d fl offset whence t); try done; try lia.
      rewrite <- Ht. unfold os.seek_target, cursor_target. rewrite Hdata.
      by destruct whence as [|[| |]|]. }
  destruct Hseek as (Hs & Ho).
  exists b', (set_file d fl' w). split; [done|]. split; [done|].
  exists fl'. split; [done|]. split; [done|]. split; [done|]. split; [done|].
  split; [simpl; lia|]. split; [simpl; lia|]. split; [done|].
  unfold ahead. simpl. rewrite lookup_insert_eq. unfold rest_of. simpl.
  by rewrite Hdata.
Qed.

Lemma Read_reading b w d contents off n :
  reading b w d contents off -> (0 < n)%nat ->
  exists got e b' w',
    bio.Reader.Read b n w = Some (Ret (got, e, b') w') /\
    got = take (length got) (drop off contents) /\
    (length got <= n)%nat /\
    e = (if decide (off = length contents) then Some io_EOF else None) /\
    (got = [] <-> off = length contents) /\
    reading b' w' d contents (off + length got).
Proof.
  intros Hr Hn. pose proof (reading_ok _ _ _ _ _ Hr) as (Hsz & Hbuf & _).
  pose proof (reading_bound _ _ _ _ _ Hr) as Hob.
  destruct (Read_returns (bio.Reader.r b) n w Hsz Hbuf)
    as (got & e & r' & w' & HR & Hc & Hlen & Hl' & _).
  destruct (Read_plain _ _ _ _ _ _ _ (reading_plain_now _ _ _ _ _ Hr) Hsz Hn HR)
    as (Hpl & Hcase & _).
  destruct (reading_consumed _ _ _ _ _ _ _ _ Hr Hc Hpl Hl') as (Hgot & Hr').
  exists got, e, (bio.Reader.mk (bio.Reader.f b) r'), w'.
  split; [unfold bio.Reader.Read; by rewrite (bind_Ret _ _ _ _ _ HR)|].
  split; [done|]. split; [done|].
  assert (Hiff : got = [] <-> off = length contents).
  { split.
    - intros ->. destruct Hcase as [[? _]|(_ & _ & Hempty)]; [done|].
      destruct Hr' as (fl' & _ & _ & _ & _ & _ & _ & _ & Hah).
      cbn [bio.Reader.r length] in Hah. rewrite Hempty, Nat.add_0_r in Hah.
      symmetry in Hah. apply (f_equal length) in Hah.
      rewrite length_drop in Hah. simpl in Hah. lia.
    - intros ->. rewrite drop_all, take_nil in Hgot. done. }
  split; [|done].
  destruct (decide (off = length contents)) as [Heq|Hne].
  - apply Hiff in Heq. by destruct Hcase as [[? _]|(_ & ? & _)].
  - destruct Hcase as [[_ ?]|(Hnil & _)]; [done|]. by apply Hiff in Hnil.
Qed.

Lemma ReadByte_keeps_plain b w c e b' w' :
  plain_now b w -> (0 < bufio.Reader.size b)%nat ->
  bufio.Reader.ReadByte b w = Some (Ret (c, e, b') w') ->
  plain_now b' w'.
Proof.
  intros (d & f & Hrd & Hf & Hp & He) Hsz.
  unfold bufio.Reader.ReadByte. rewrite ReadByte_loop_S.
  destruct (bufio.Reader.buf b) as [|c0 rest] eqn:Hb.
  2:{ intros [= <- <- <- <-]. by exists d, f. }
  rewrite He.
  destruct (fill_plain b w d f Hrd Hf Hp) as (f' & Hfill & Hp' & _);
    [rewrite Hb; simpl; lia|].
  rewrite (bind_Ret _ _ _ _ _ Hfill), Hb, ReadByte_loop_S.
  simpl length. rewrite Nat.sub_0_r.
  cbn [bufio.Reader.buf bufio.Reader.err app].
  destruct (rest_of f) as [|c1 l1] eqn:Hrest.
  - rewrite take_nil. intros [= <- <- <- <-]. exists d, f'.
    split; [done|]. split; [by apply lookup_insert_eq|]. by split.
  - destruct (bufio.Reader.size b) as [|sz]; [lia|]. simpl.
    intros [= <- <- <- <-]. exists d, f'.
    split; [done|]. split; [by apply lookup_insert_eq|]. by split.
Qed.

Lemma Bgetc_reading b w d contents off :
  reading b w d contents off ->
  exists b' w',
    match contents !! off with
    | Some c =>
        bio.Bgetc b w = Some (Ret (int_of_byte c, b') w') /\
        reading b' w' d contents (S off)
    | None =>
        bio.Bgetc b w = Some (Ret (bio.EOF, b') w') /\
        reading b' w' d contents off
    end.
Proof.
  intros Hr. pose proof (reading_ok _ _ _ _ _ Hr) as (Hsz & Hbuf & _).
  pose proof (reading_plain_now _ _ _ _ _ Hr) as Hpl.
  destruct (ReadByte_returns (bio.Reader.r b) w Hsz)
    as (c & e & r' & w' & HR & Hc & Hl').
  pose proof (ReadByte_keeps_plain _ _ _ _ _ _ Hpl Hsz HR) as Hpl'.
  assert (He : e = match ahead (bio.Reader.r b) w with
                   | [] => Some io_EOF
                   | _ :: _ => None
                   end).
  { destruct Hpl as (d0 & f0 & ? & ? & ? & ?).
    by eapply ReadByte_plain. }
  assert (Hl'' : (length (bufio.Reader.buf r') <= bufio.Reader.size r')%nat).
  { destruct Hc as (_ & Hs' & _). rewrite Hs'. lia. }
  destruct (reading_consumed _ _ _ _ _ _ _ _ Hr Hc Hpl' Hl'') as (Hgot & Hr').
  destruct Hr as (fl & _ & _ & _ & _ & _ & _ & _ & Hah). rewrite Hah in He.
  exists (bio.Reader.mk (bio.Reader.f b) r'), w'.
  unfold bio.Bgetc. rewrite (bind_Ret _ _ _ _ _ HR).
  destruct (contents !! off) as [c0|] eqn:Hlk.
  - rewrite (drop_S _ _ _ Hlk) in He, Hgot. subst e. simpl in *.
    injection Hgot as ->. split; [done|]. by rewrite Nat.add_1_r in Hr'.
  - rewrite drop_ge in He by (by apply lookup_ge_None). subst e. simpl in *.
    split; [done|]. by rewrite Nat.add_0_r in Hr'.
Qed.

Lemma Bread_reading fuel b len w d contents off :
  reading b w d contents off -> (len <= fuel)%nat ->
  let got := take len (drop off contents) in
  exists b' w',
    bio.Bread fuel b len w = Some (Ret (Z.of_nat (length got), got, b') w') /\
    reading b' w' d contents (off + length got).
Proof.
  intros Hr Hfuel got. pose proof (reading_ok _ _ _ _ _ Hr) as (Hsz & Hbuf & _).
  pose proof (reading_plain_now _ _ _ _ _ Hr) as Hpl.
  assert (Hscript : script_left (bio.Reader.r b) w = 0%nat).
  { destruct Hpl as (d0 & f0 & Hrd & Hf & (_ & Hrs) & _).
    unfold script_left. rewrite Hrd. simpl. by rewrite Hf, Hrs. }
  destruct (ReadAtLeast_loop_returns fuel (bio.Reader.r b) len len [] None w)
    as (more & e & r' & w' & Hloop & Hc & Hlen & Hl' & Hshort & _ & Hplain);
    try done; try (simpl; lia).
  simpl app in *. destruct (Hplain Hpl eq_refl) as (Hpl' & Hend).
  destruct (reading_consumed _ _ _ _ _ _ _ _ Hr Hc Hpl' Hl') as (Hmore & Hr').
  assert (Hgot : more = got).
  { subst got. destruct (decide (length more = len)) as [<-|Hne]; [done|].
    destruct Hend as [->|[_ Hempty]]; [by destruct Hshort; [lia|]|].
    destruct Hr' as (fl' & _ & _ & _ & _ & _ & _ & _ & Hah).
    cbn [bio.Reader.r] in Hah. rewrite Hempty in Hah.
    symmetry in Hah. apply (f_equal length) in Hah.
    rewrite length_drop in Hah. simpl in Hah.
    transitivity (drop off contents);
      [rewrite Hmore at 1; apply take_ge|symmetry; apply take_ge];
      rewrite length_drop; lia. }
  rewrite Hgot in *.
  exists (bio.Reader.mk (bio.Reader.f b) r'), w'. split; [|done].
  unfold bio.Bread, io.ReadFull, io.ReadAtLeast. rewrite Nat.ltb_irrefl.
  rewrite (bind_Ret _ _ _ _ _ (bind_Ret _ _ _ _ _ Hloop)).
  destruct (decide (length got = 0%nat)) as [H0|Hn0].
  - rewrite H0. destruct got; [|done]. simpl.
    destruct (len <=? 0)%nat; [done|].
    destruct Hend as [->|[-> _]]; done.
  - destruct (Z.of_nat (length got) =? 0) eqn:Hz; [apply Z.eqb_eq in Hz; lia|].
    done.
Qed.

Lemma first_delimiter_unique (c : byte) l1 r1 l2 r2 :
  l1 ++ c :: r1 = l2 ++ c :: r2 -> c ∉ l1 -> c ∉ l2 -> l1 = l2 /\ r1 = r2.
Proof.
  revert l2. induction l1 as [|x l1 IH]; intros [|y l2] Heq H1 H2; simpl in *.
  - by injection Heq as ->.
  - injection Heq as <- _. by apply not_elem_of_cons in H2 as [? _].
  - injection Heq as -> _. by apply not_elem_of_cons in H1 as [? _].
  - injection Heq as -> Heq.
    apply not_elem_of_cons in H1 as [_ H1]. apply not_elem_of_cons in H2 as [_ H2].
    destruct (IH l2 Heq H1 H2) as [-> ->]. done.
Qed.

Lemma Brdline_reading fuel b delim w d contents off line rest :
  reading b w d contents off -> (length contents + 1 < fuel)%nat ->
  drop off contents = line ++ byte_of_int delim :: rest ->
  byte_of_int delim ∉ line ->
  exists b' w',
    bio.Brdline fuel b delim w
    = Some (Ret (string_of_list_byte (line ++ [byte_of_int delim]), b') w') /\
    reading b' w' d contents (off + length line + 1).
Proof.
  intros Hr Hfuel Hdrop Hnot.
  pose proof (reading_ok _ _ _ _ _ Hr) as (Hsz & Hbuf & _).
  pose proof (reading_plain_now _ _ _ _ _ Hr) as Hpl.
  assert (Hah : ahead (bio.Reader.r b) w = drop off contents).
  { by destruct Hr as (fl & _ & _ & _ & _ & _ & _ & _ & Hah). }
  destruct (ReadBytes_loop_returns fuel (bio.Reader.r b) (byte_of_int delim) [] w)
    as (more & e & r' & w' & HR & Hc & Hl' & Hline & Hplain); try done.
  { rewrite Hah, length_drop.
    destruct (bufio.Reader.err (bio.Reader.r b)); lia. }
  simpl app in HR. destruct (Hplain Hpl) as (Hpl' & Hend).
  destruct (reading_consumed _ _ _ _ _ _ _ _ Hr Hc Hpl' Hl') as (Hmore & Hr').
  pose proof (consumed_ahead _ _ _ _ _ Hc) as Hsplit. rewrite Hah, Hdrop in Hsplit.
  destruct Hend as [->|[-> Hempty]].
  - destruct Hline as (pre & -> & Hpre).
    rewrite <- app_assoc in Hsplit. simpl in Hsplit.
    destruct (first_delimiter_unique _ _ _ _ _ Hsplit Hnot Hpre) as [<- _].
    exists (bio.Reader.mk (bio.Reader.f b) r'), w'.
    split.
    + unfold bio.Brdline, bufio.Reader.ReadBytes.
      by rewrite (bind_Ret _ _ _ _ _ HR).
    + rewrite length_app in Hr'. simpl in Hr'. by rewrite Nat.add_assoc in Hr'.
  - destruct Hline as (Hnone & _). rewrite Hempty, app_nil_r in Hsplit.
    exfalso. apply Hnone. rewrite <- Hsplit.
    apply elem_of_app. right. apply list_elem_of_here.
Qed.

(** At the end of the contents, and wherever no delimiter is left,
    [Brdline] ends the run. *)
Lemma Brdline_reading_fatal fuel b delim w d contents off :
  reading b w d contents off -> (length contents + 1 < fuel)%nat ->
  byte_of_int delim ∉ drop off contents ->
  bio.Brdline fuel b delim w = Some (Fatal "reading input: %v" io_EOF).
Proof.
  intros Hr Hfuel Hnot.
  pose proof (reading_ok _ _ _ _ _ Hr) as (Hsz & Hbuf & _).
  pose proof (reading_plain_now _ _ _ _ _ Hr) as Hpl.
  assert (Hah : ahead (bio.Reader.r b) w = drop off contents).
  { by destruct Hr as (fl & _ & _ & _ & _ & _ & _ & _ & Hah). }
  destruct (ReadBytes_loop_returns fuel (bio.Reader.r b) (byte_of_int delim) [] w)
    as (more & e & r' & w' & HR & Hc & Hl' & Hline & Hplain); try done.
  { rewrite Hah, length_drop.
    destruct (bufio.Reader.err (bio.Reader.r b)); lia. }
  simpl app in HR. destruct (Hplain Hpl) as (Hpl' & Hend).
  pose proof (consumed_ahead _ _ _ _ _ Hc) as Hsplit. rewrite Hah in Hsplit.
  unfold bio.Brdline, bufio.Reader.ReadBytes.
  rewrite (bind_Ret _ _ _ _ _ HR).
  destruct Hend as [->|[-> _]]; [|done].
  destruct Hline as (pre & -> & _). exfalso. apply Hnot.
  rewrite Hsplit. apply elem_of_app. left. apply elem_of_app. right.
  apply list_elem_of_here.
Qed.

Lemma value_bind_ret {A B} (m : M A) (f : A -> B) w a :
  value (m w) = Some a -> value (bind m (fun x => ret (f x)) w) = Some (f a).
Proof.
  unfold value, bind, ret. destruct (m w) as [[x w'| |]|]; try done.
  by intros [= ->].
Qed.

Lemma drop_take_length {A} (l : list A) off len :
  drop (off + length (take len (drop off l))) l = drop len (drop off l).
Proof.
  rewrite drop_drop, length_take, length_drop.
  destruct (decide (len <= length l - off)%nat) as [Hle|Hgt].
  - by rewrite Nat.min_l.
  - rewrite Nat.min_r by lia. rewrite !drop_ge; [done|lia|lia].
Qed.

Lemma bgetcs_reading n b w d contents off :
  reading b w d contents off ->
  value (bgetcs n b w)
  = Some ((int_of_byte <$> take n (drop off contents))
          ++ replicate (n - (length contents - off)) bio.EOF).
Proof.
  revert b w off. induction n as [|n IH]; intros b w off Hr; [done|].
  destruct (Bgetc_reading _ _ _ _ _ Hr) as (b' & w' & Hstep).
  cbn [bgetcs]. destruct (contents !! off) as [c|] eqn:Hlk.
  - destruct Hstep as (HB & Hr'). rewrite (bind_Ret _ _ _ _ _ HB).
    rewrite (value_bind_ret _ (fun rest => int_of_byte c :: rest) _ _ (IH _ _ _ Hr')).
    rewrite (drop_S _ _ _ Hlk). apply lookup_lt_Some in Hlk.
    replace (S n - (length contents - off))%nat
      with (n - (length contents - S off))%nat by lia.
    done.
  - destruct Hstep as (HB & Hr'). rewrite (bind_Ret _ _ _ _ _ HB).
    rewrite (value_bind_ret _ (fun rest => bio.EOF :: rest) _ _ (IH _ _ _ Hr')).
    apply lookup_ge_None in Hlk. rewrite drop_ge by done. rewrite !take_nil.
    replace (S n - (length contents - off))%nat with (S n) by lia.
    replace (n - (length contents - off))%nat with n by lia. done.
Qed.

Lemma breads_reading fuel lens b w d contents off :
  reading b w d contents off -> Forall (fun len => (len <= fuel)%nat) lens ->
  value (breads fuel lens b w) = Some (chunks lens (drop off contents)).
Proof.
  revert b w off. induction lens as [|len lens IH]; intros b w off Hr Hall; [done|].
  apply Forall_cons in Hall as (Hlen & Hall).
  destruct (Bread_reading fuel b len w d contents off Hr Hlen) as (b' & w' & HB & Hr').
  cbn [breads chunks]. rewrite (bind_Ret _ _ _ _ _ HB).
  rewrite (value_bind_ret _ (fun rest => _ :: rest) _ _ (IH _ _ _ Hr' Hall)).
  by rewrite drop_take_length.
Qed.

Lemma brdlines_reading fuel lines tail b delim w d contents off :
  reading b w d contents off -> (length contents + 1 < fuel)%nat ->
  drop off contents = join_lines (byte_of_int delim) lines ++ tail ->
  Forall (fun l => byte_of_int delim ∉ l) lines ->
  value (brdlines fuel (length lines) b delim w)
  = Some ((fun l => string_of_list_byte (l ++ [byte_of_int delim])) <$> lines) /\
  (byte_of_int delim ∉ tail ->
   brdlines fuel (S (length lines)) b delim w
   = Some (Fatal "reading input: %v" io_EOF)).
Proof.
  intros Hr Hfuel. revert b w off Hr.
  induction lines as [|l lines IH]; intros b w off Hr Hdrop Hall.
  - split; [done|]. intros Hnot. cbn [brdlines length].
    apply bind_Fatal. eapply Brdline_reading_fatal; [done|done|].
    by rewrite Hdrop.
  - apply Forall_cons in Hall as (Hl & Hall).
    unfold join_lines in Hdrop. simpl in Hdrop.
    rewrite <- !app_assoc in Hdrop. simpl in Hdrop.
    destruct (Brdline_reading fuel b delim w d contents off l _ Hr Hfuel Hdrop Hl)
      as (b' & w' & HB & Hr').
    assert (Hdrop' : drop (off + length l + 1) contents
                     = join_lines (byte_of_int delim) lines ++ tail).
    { rewrite <- Nat.add_assoc, <- drop_drop, Hdrop.
      by rewrite <- (drop_drop _ 1 (length l)), drop_app_length. }
    destruct (IH _ _ _ Hr' Hdrop' Hall) as (IHv & IHf). split.
    + cbn [brdlines length]. rewrite (bind_Ret _ _ _ _ _ HB).
      by rewrite (value_bind_ret _ (fun rest => _ :: rest) _ _ IHv).
    + intros Hnot. specialize (IHf Hnot).
      change (brdlines fuel (S (length (l :: lines))) b delim w)
        with (bind (bio.Brdline fuel b delim)
                (fun '(s, b) => bind (brdlines fuel (S (length lines)) b delim)
                                  (fun rest => ret (s :: rest))) w).
      rewrite (bind_Ret _ _ _ _ _ HB). by apply bind_Fatal.
Qed.

Lemma bread_back_bread_reading fuel b len w d contents off :
  reading b w d contents off -> (len <= fuel)%nat ->
  let got := take len (drop off contents) in
  exists b' w',
    bread_back_bread fuel b len w
    = Some (Ret (Z.of_nat (length got), got, Z.of_nat (length got), got, b') w') /\
    reading b' w' d contents (off + length got).
Proof.
  intros Hr Hfuel got.
  destruct (Bread_reading fuel b len w d contents off Hr Hfuel)
    as (b1 & w1 & HB1 & Hr1). fold got in HB1, Hr1.
  pose proof (reading_bound _ _ _ _ _ Hr1) as Hb1.
  assert (Hsmall : Z.of_nat (length contents) < 2 ^ 63)
    by (by destruct Hr as (fl & _ & _ & _ & _ & _ & _ & ? & _)).
  destruct (Seek_reading b1 w1 d contents (off + length got)
              (- Z.of_nat (length got)) 1 (Z.of_nat off) Hr1)
    as (b2 & w2 & HS & _ & Hr2); [simpl; f_equal; lia|lia|lia|].
  rewrite Nat2Z.id in Hr2.
  destruct (Bread_reading fuel b2 len w2 d contents off Hr2 Hfuel)
    as (b3 & w3 & HB3 & Hr3). fold got in HB3, Hr3.
  exists b3, w3. split; [|done].
  unfold bread_back_bread.
  rewrite (bind_Ret _ _ _ _ _ HB1), (bind_Ret _ _ _ _ _ HS).
  by rewrite (bind_Ret _ _ _ _ _ HB3).
Qed.

(** ** The writer as a pen on the contents *)

Lemma store_nil d at_ : (at_ <= length d)%nat -> os.store d at_ [] = d.
Proof.
  intros Hle. unfold os.store. replace (at_ - length d)%nat with 0%nat by lia.
  simpl. by rewrite Nat.add_0_r, take_drop.
Qed.

Lemma store_length d at_ p :
  length (os.store d at_ p) = Nat.max (at_ + length p) (length d).
Proof.
  unfold os.store.
  rewrite !length_app, length_take, length_replicate, length_drop. lia.
Qed.

Lemma store_end d p : os.store d (length d) p = d ++ p.
Proof.
  unfold os.store. rewrite take_ge, Nat.sub_diag by done. simpl.
  by rewrite drop_ge, app_nil_r by lia.
Qed.

(** Two writes one behind the other are one write of both. *)
Lemma store_store d at_ p q :
  os.store (os.store d at_ p) (at_ + length p) q = os.store d at_ (p ++ q).
Proof.
  pose proof (store_length d at_ p) as Hlen.
  pose proof (store_length_prefix d at_) as Hpre.
  assert (Hs : os.store d at_ p
               = ((take at_ d ++ replicate (at_ - length d) x00) ++ p)
                 ++ drop (at_ + length p) d).
  { unfold os.store. by rewrite <- !app_assoc. }
  unfold os.store at 1.
  replace (at_ + length p - length (os.store d at_ p))%nat with 0%nat by lia.
  rewrite Hs.
  rewrite take_app_length' by (rewrite length_app; lia).
  rewrite drop_app_add' by (rewrite length_app; lia).
  rewrite drop_drop. unfold os.store. rewrite length_app. simpl.
  rewrite <- !app_assoc. by rewrite Nat.add_assoc.
Qed.

Lemma store_store_take d at_ (p : list byte) n k :
  (n <= length p)%nat ->
  os.store (os.store d at_ (take n p)) (at_ + n) (take k (drop n p))
  = os.store d at_ (take (n + k) p).
Proof.
  intros Hn.
  replace (at_ + n)%nat with (at_ + length (take n p))%nat
    by (rewrite length_take; lia).
  by rewrite store_store, take_take_drop.
Qed.

Lemma composing_writing b w d cl all cur :
  composing b w d cl all cur -> writing b w d cur.
Proof.
  intros (Hwr & Hok & He & fl & Hf & Hp & _ & _ & _ & Hcur).
  split; [done|]. split; [done|]. split; [done|]. by exists fl.
Qed.

Lemma composing_within b w d cl all cur :
  composing b w d cl all cur -> (cur <= length all)%nat.
Proof.
  intros (_ & _ & _ & fl & _ & _ & _ & _ & <- & <-). rewrite store_length. lia.
Qed.

Lemma composing_fresh d w fl :
  files w !! d = Some fl -> plain_writes fl -> os.data fl = [] -> os.pos fl = 0%nat ->
  composing (bufio.Writer.NewWriter (Some d)) w d (os.closing fl) [] 0.
Proof.
  intros Hf Hp Hd Hpos. split; [done|]. split.
  { unfold writer_ok. simpl. unfold bufio.defaultBufSize. lia. }
  split; [done|]. exists fl. rewrite Hd, Hpos. done.
Qed.

(** Bytes put into the buffer. *)
Lemma composing_copy b w d cl all cur q :
  composing b w d cl all cur ->
  (length (bufio.Writer.buf b) + length q <= bufio.Writer.size b)%nat ->
  composing (bufio.Writer.mk (bufio.Writer.err b) (bufio.Writer.buf b ++ q)
               (bufio.Writer.size b) (bufio.Writer.wr b)) w d cl
            (os.store all cur q) (cur + length q).
Proof.
  intros (Hwr & [Hsz Hlen] & He & fl & Hf & Hp & Hcl & Hpos & Hall & Hcur) Hroom.
  split; [done|]. split.
  { unfold writer_ok. simpl. rewrite length_app. lia. }
  split; [done|]. exists fl. simpl.
  split; [done|]. split; [done|]. split; [done|]. split; [done|].
  rewrite length_app. split; [|lia].
  by rewrite <- Hall, <- Hcur, store_store.
Qed.

(** [Flush] writes what is buffered where it belongs. *)
Lemma Flush_composing b w d cl all cur :
  composing b w d cl all cur ->
  exists fl',
    bufio.Writer.Flush b w
    = Some (Ret (None, bufio.Writer.mk None [] (bufio.Writer.size b) (Some d))
                (set_file d fl' w)) /\
    os.data fl' = all /\ os.pos fl' = cur /\ os.closed fl' = false /\
    os.closing fl' = cl /\
    composing (bufio.Writer.mk None [] (bufio.Writer.size b) (Some d))
              (set_file d fl' w) d cl all cur.
Proof.
  intros (Hwr & [Hsz Hlen] & He & fl & Hf & Hp & Hcl & Hpos & Hall & Hcur).
  assert (Hres : forall fl',
            plain_writes fl' -> os.data fl' = all -> os.pos fl' = cur ->
            os.closing fl' = cl ->
            composing (bufio.Writer.mk None [] (bufio.Writer.size b) (Some d))
                      (set_file d fl' w) d cl all cur).
  { intros fl' Hp' Hd' Hpos' Hcl'. split; [done|]. split.
    { unfold writer_ok. simpl. lia. }
    split; [done|]. exists fl'. simpl. rewrite lookup_insert_eq.
    assert (cur <= length all)%nat by (rewrite <- Hall, <- Hcur, store_length; lia).
    split; [done|]. split; [done|]. split; [done|].
    rewrite Hd', Hpos'. split; [done|]. split; [by apply store_nil|lia]. }
  unfold bufio.Writer.Flush. rewrite He.
  destruct (bufio.Writer.buf b) as [|c l] eqn:Hb.
  - exists fl. rewrite (set_file_same _ _ _ Hf) in *.
    simpl in Hcur. rewrite Nat.add_0_r in Hcur. rewrite store_nil in Hall by done.
    split.
    { destruct b as [e bf sz wr]. simpl in *. by subst. }
    destruct Hp as (? & ?). split; [done|]. split; [done|]. split; [done|].
    split; [done|]. specialize (Hres fl). rewrite (set_file_same _ _ _ Hf) in Hres.
    by apply Hres.
  - rewrite Hwr, (bind_Ret _ _ _ _ _ (os_Write_present d (c :: l) w fl Hf)).
    rewrite (file_write_plain _ _ Hp). cbn [fst snd].
    rewrite Nat.ltb_irrefl. destruct Hp as (Hclosed & Hws).
    eexists. split; [reflexivity|]. simpl.
    split; [done|]. split; [done|]. split; [done|]. split; [done|].
    by apply Hres.
Qed.

(** A write that goes to the handle past an empty buffer. *)
Lemma direct_composing b w d cl all cur q :
  composing b w d cl all cur -> bufio.Writer.buf b = [] ->
  exists fl',
    os_calls.Write (Some d) q w = Some (Ret (length q, None) (set_file d fl' w)) /\
    composing (bufio.Writer.mk None [] (bufio.Writer.size b) (Some d))
              (set_file d fl' w) d cl (os.store all cur q) (cur + length q).
Proof.
  intros (Hwr & [Hsz Hlen] & He & fl & Hf & Hp & Hcl & Hpos & Hall & Hcur) Hb.
  rewrite Hb in Hall, Hcur. simpl in Hcur. rewrite Nat.add_0_r in Hcur.
  rewrite store_nil in Hall by done. subst all cur.
  rewrite (os_Write_present d q w fl Hf), (file_write_plain _ _ Hp). cbn [fst snd].
  eexists. split; [reflexivity|].
  split; [done|]. split; [unfold writer_ok; simpl; lia|]. split; [done|].
  eexists. simpl. rewrite lookup_insert_eq. split; [done|]. simpl.
  destruct Hp as (? & ?). split; [done|]. split; [done|].
  rewrite store_length. split; [lia|]. split; [|lia].
  apply store_nil. rewrite store_length. lia.
Qed.

Lemma composing_stay b w d cl all cur :
  composing b w d cl all cur -> os.store all cur [] = all.
Proof. intros H. apply store_nil. by eapply composing_within. Qed.

Lemma Write_loop_composing fuel b p nn w d cl all cur :
  composing b w d cl all cur -> (2 <= fuel)%nat ->
  exists k b' w',
    bufio.Writer.Write_loop fuel b p nn w = Some (Ret (drop k p, (nn + k)%nat, b') w') /\
    composing b' w' d cl (os.store all cur (take k p)) (cur + k) /\
    (k <= length p)%nat /\
    (length p - k <= bufio.Writer.Available b')%nat.
Proof.
  intros Hw Hfuel.
  assert (Hstop : forall b0 w0 q nn0 all0 cur0,
            composing b0 w0 d cl all0 cur0 ->
            ((bufio.Writer.Available b0 <? length q)%nat
             && bool_decide (bufio.Writer.err b0 = None)) = false ->
            forall fuel0,
            exists k b' w',
              bufio.Writer.Write_loop fuel0 b0 q nn0 w0
              = Some (Ret (drop k q, (nn0 + k)%nat, b') w') /\
              composing b' w' d cl (os.store all0 cur0 (take k q)) (cur0 + k) /\
              (k <= length q)%nat /\
              (length q - k <= bufio.Writer.Available b')%nat).
  { intros b0 w0 q nn0 all0 cur0 Hw0 Hcond fuel0.
    rewrite (Write_loop_stop _ _ _ _ Hcond).
    pose proof Hw0 as (_ & _ & He & _).
    apply andb_false_iff in Hcond as [Hc%Nat.ltb_ge|Hc%bool_decide_eq_false];
      [|done].
    exists 0%nat, b0, w0. rewrite !Nat.add_0_r, take_0, drop_0.
    rewrite (composing_stay _ _ _ _ _ _ Hw0). split; [done|]. split; [done|]. lia. }
  assert (Hdirect : forall fuel0 b0 w0 q nn0 all0 cur0,
            composing b0 w0 d cl all0 cur0 -> bufio.Writer.buf b0 = [] ->
            exists k b' w',
              bufio.Writer.Write_loop (S fuel0) b0 q nn0 w0
              = Some (Ret (drop k q, (nn0 + k)%nat, b') w') /\
              composing b' w' d cl (os.store all0 cur0 (take k q)) (cur0 + k) /\
              (k <= length q)%nat /\
              (length q - k <= bufio.Writer.Available b')%nat).
  { intros fuel0 b0 w0 q nn0 all0 cur0 Hw0 Hb0.
    destruct ((bufio.Writer.Available b0 <? length q)%nat
              && bool_decide (bufio.Writer.err b0 = None)) eqn:Hcond;
      [|by apply Hstop].
    pose proof Hw0 as (Hwr & _).
    rewrite (Write_loop_go _ _ _ _ Hcond), Hb0, Hwr.
    destruct (direct_composing _ _ _ _ _ _ q Hw0 Hb0) as (fl' & Hwrite & Hw1).
    rewrite (bind_Ret _ _ _ _ _ Hwrite).
    rewrite Write_loop_stop
      by (apply andb_false_iff; left; apply Nat.ltb_ge; rewrite length_drop; lia).
    eexists (length q), _, _. split; [reflexivity|]. rewrite firstn_all.
    split; [done|]. simpl. lia. }
  destruct fuel as [|fuel]; [lia|].
  destruct (bufio.Writer.buf b) as [|c l] eqn:Hb; [by apply Hdirect|].
  destruct ((bufio.Writer.Available b <? length p)%nat
            && bool_decide (bufio.Writer.err b = None)) eqn:Hcond;
    [|by apply Hstop].
  rewrite (Write_loop_go _ _ _ _ Hcond), Hb.
  apply andb_true_iff in Hcond as [Hlt%Nat.ltb_lt _].
  pose proof Hw as (Hwr & [Hsz Hlen] & _).
  set (n := Nat.min (bufio.Writer.Available b) (length p)).
  assert (Hn : n = (bufio.Writer.size b - length (bufio.Writer.buf b))%nat).
  { subst n. unfold bufio.Writer.Available in *. lia. }
  assert (Hnp : (n < length p)%nat).
  { unfold bufio.Writer.Available in Hlt. lia. }
  pose proof (composing_copy _ _ _ _ _ _ (take n p) Hw) as Hw1.
  rewrite Hb in Hw1, Hn, Hlen. rewrite length_take, Nat.min_l in Hw1 by lia.
  specialize (Hw1 ltac:(lia)).
  destruct (Flush_composing _ _ _ _ _ _ Hw1) as (fl1 & Hfl & _ & _ & _ & _ & Hw2).
  rewrite (bind_Ret _ _ _ _ _ Hfl).
  cbn [bufio.Writer.size] in Hfl, Hw2 |- *.
  destruct fuel as [|fuel]; [lia|].
  destruct (Hdirect fuel _ _ (drop n p) (nn + n)%nat _ _ Hw2 eq_refl)
    as (k & b' & w' & Hloop & Hw' & Hk & Hfit).
  rewrite length_drop in Hk, Hfit.
  exists (n + k)%nat, b', w'. rewrite drop_drop, <- Nat.add_assoc in Hloop.
  split; [done|].
  rewrite store_store_take in Hw' by lia. rewrite Nat.add_assoc.
  split; [done|]. lia.
Qed.

Lemma store_take_drop d at_ (p : list byte) k :
  (k <= length p)%nat ->
  os.store (os.store d at_ (take k p)) (at_ + k) (drop k p) = os.store d at_ p.
Proof.
  intros Hk.
  replace (at_ + k)%nat with (at_ + length (take k p))%nat
    by (rewrite length_take; lia).
  by rewrite store_store, take_drop.
Qed.

(** What the loops of [Write] and [WriteString] leave is copied into the
    buffer. *)
Lemma composing_finish b w d cl all cur (p : list byte) k :
  composing b w d cl (os.store all cur (take k p)) (cur + k) ->
  (k <= length p)%nat ->
  (length p - k <= bufio.Writer.Available b)%nat ->
  let n := Nat.min (bufio.Writer.Available b) (length (drop k p)) in
  composing (bufio.Writer.mk None (bufio.Writer.buf b ++ take n (drop k p))
               (bufio.Writer.size b) (bufio.Writer.wr b)) w d cl
            (os.store all cur p) (cur + length p).
Proof.
  intros Hw Hk Hfit n.
  assert (Hn : n = length (drop k p)) by (subst n; rewrite length_drop; lia).
  rewrite Hn, firstn_all.
  pose proof (composing_copy _ _ _ _ _ _ (drop k p) Hw) as Hc.
  pose proof Hw as (_ & _ & He & _). rewrite He in Hc.
  rewrite store_take_drop, length_drop in Hc by done.
  replace (cur + k + (length p - k))%nat with (cur + length p)%nat in Hc by lia.
  apply Hc. unfold bufio.Writer.Available in Hfit.
  destruct Hw as (_ & [_ ?] & _). lia.
Qed.

Lemma Write_composing b p w d cl all cur :
  composing b w d cl all cur ->
  exists b' w',
    bufio.Writer.Write b p w = Some (Ret (length p, None, b') w') /\
    composing b' w' d cl (os.store all cur p) (cur + length p).
Proof.
  intros Hw. unfold bufio.Writer.Write.
  destruct (Write_loop_composing (S (S (length p))) b p 0 w d cl all cur Hw)
    as (k & b' & w' & Hloop & Hw' & Hk & Hfit); [lia|].
  rewrite (bind_Ret _ _ _ _ _ Hloop).
  pose proof Hw' as (_ & _ & He & _). rewrite He.
  eexists _, _. split.
  { unfold ret. do 4 f_equal. rewrite length_drop. lia. }
  by apply composing_finish.
Qed.

Lemma WriteString_loop_composing fuel b s nn w d cl all cur :
  composing b w d cl all cur ->
  (length s + (if (bufio.Writer.Available b =? 0)%nat then 1 else 0) <= fuel)%nat ->
  exists k b' w',
    bufio.Writer.WriteString_loop fuel b s nn w
    = Some (Ret (drop k s, (nn + k)%nat, b') w') /\
    composing b' w' d cl (os.store all cur (take k s)) (cur + k) /\
    (k <= length s)%nat /\
    (length s - k <= bufio.Writer.Available b')%nat.
Proof.
  revert b s nn w all cur. induction fuel as [|fuel IH];
    intros b s nn w all cur Hw Hfuel;
    (destruct ((bufio.Writer.Available b <? length s)%nat
               && bool_decide (bufio.Writer.err b = None)) eqn:Hcond;
     [apply andb_true_iff in Hcond as Hc'; destruct Hc' as [Hlt%Nat.ltb_lt _]
     |rewrite (WriteString_loop_stop _ _ _ _ Hcond);
      pose proof Hw as (_ & _ & He & _);
      apply andb_false_iff in Hcond as [Hc%Nat.ltb_ge|Hc%bool_decide_eq_false];
      [|done];
      exists 0%nat, b, w; rewrite !Nat.add_0_r, take_0, drop_0;
      rewrite (composing_stay _ _ _ _ _ _ Hw);
      (split; [done|split; [done|lia]])]).
  - destruct (bufio.Writer.Available b =? 0)%nat; lia.
  - rewrite (WriteString_loop_go _ _ _ _ Hcond). cbv zeta.
    pose proof Hw as (Hwr & [Hsz Hlen] & _).
    set (n := Nat.min (bufio.Writer.Available b) (length s)).
    assert (Hn : n = bufio.Writer.Available b) by (subst n; lia).
    unfold bufio.Writer.Available in Hn, Hlt.
    pose proof (composing_copy _ _ _ _ _ _ (take n s) Hw) as Hw1.
    rewrite length_take, Nat.min_l in Hw1 by lia.
    specialize (Hw1 ltac:(lia)).
    destruct (Flush_composing _ _ _ _ _ _ Hw1) as (fl1 & Hfl & _ & _ & _ & _ & Hw2).
    rewrite (bind_Ret _ _ _ _ _ Hfl).
    cbn [bufio.Writer.size] in Hfl, Hw2 |- *.
    destruct (IH _ (drop n s) (nn + n)%nat _ _ _ Hw2)
      as (k & b' & w' & Hloop & Hw' & Hk & Hfit).
    { rewrite length_drop. unfold bufio.Writer.Available at 1. simpl.
      rewrite Nat.sub_0_r.
      destruct (bufio.Writer.size b =? 0)%nat eqn:Hz; [apply Nat.eqb_eq in Hz; lia|].
      destruct (bufio.Writer.Available b =? 0)%nat eqn:Ha.
      - lia.
      - apply Nat.eqb_neq in Ha. unfold bufio.Writer.Available in Ha. lia. }
    rewrite length_drop in Hk, Hfit.
    exists (n + k)%nat, b', w'. rewrite drop_drop, <- Nat.add_assoc in Hloop.
    split; [done|].
    rewrite store_store_take in Hw' by lia. rewrite Nat.add_assoc.
    split; [done|]. lia.
Qed.

Lemma WriteString_composing b s w d cl all cur :
  composing b w d cl all cur ->
  exists b' w',
    bufio.Writer.WriteString b s w = Some (Ret (length s, None, b') w') /\
    composing b' w' d cl (os.store all cur s) (cur + length s).
Proof.
  intros Hw. unfold bufio.Writer.WriteString.
  destruct (WriteString_loop_composing (S (S (length s))) b s 0 w d cl all cur Hw)
    as (k & b' & w' & Hloop & Hw' & Hk & Hfit).
  { destruct (bufio.Writer.Available b =? 0)%nat; lia. }
  rewrite (bind_Ret _ _ _ _ _ Hloop).
  pose proof Hw' as (_ & _ & He & _). rewrite He.
  eexists _, _. split.
  { unfold ret. do 4 f_equal. rewrite length_drop. lia. }
  by apply composing_finish.
Qed.

Lemma WriteByte_composing b c w d cl all cur :
  composing b w d cl all cur ->
  exists b' w',
    bufio.Writer.WriteByte b c w = Some (Ret (None, b') w') /\
    composing b' w' d cl (os.store all cur [c]) (cur + 1).
Proof.
  intros Hw. unfold bufio.Writer.WriteByte.
  pose proof Hw as (Hwr & [Hsz Hlen] & He & _). rewrite He.
  assert (Hput : forall b1 w1,
            composing b1 w1 d cl all cur ->
            (length (bufio.Writer.buf b1) < bufio.Writer.size b1)%nat ->
            exists b' w',
              (if (bufio.Writer.size b1 <=? length (bufio.Writer.buf b1))%nat
               then panic "runtime error: index out of range"
               else ret (None, bufio.Writer.mk (bufio.Writer.err b1)
                                 (bufio.Writer.buf b1 ++ [c])
                                 (bufio.Writer.size b1) (bufio.Writer.wr b1))) w1
              = Some (Ret (@None error, b') w') /\
              composing b' w' d cl (os.store all cur [c]) (cur + 1)).
  { intros b1 w1 Hw1 Hroom.
    destruct (bufio.Writer.size b1 <=? length (bufio.Writer.buf b1))%nat eqn:Hfull.
    { apply Nat.leb_le in Hfull. lia. }
    eexists _, _. split; [reflexivity|].
    apply (composing_copy _ _ _ _ _ _ [c] Hw1). simpl. lia. }
  destruct (bufio.Writer.Available b <=? 0)%nat eqn:Hav.
  - destruct (Flush_composing _ _ _ _ _ _ Hw) as (fl1 & Hfl & _ & _ & _ & _ & Hw1).
    rewrite (bind_Ret _ _ _ _ _ Hfl). apply Hput; [done|]. simpl. lia.
  - unfold bind, ret at 1. apply Hput; [done|].
    apply Nat.leb_gt in Hav. unfold bufio.Writer.Available in Hav. lia.
Qed.

Lemma op_bytes_length o : length (op_bytes o) = op_len o.
Proof. by destruct o. Qed.

Lemma do_write_composing b o w d cl all cur :
  composing (bio.Writer.w b) w d cl all cur ->
  exists b' w',
    do_write b o w = Some (Ret (op_len o, None, b') w') /\
    composing (bio.Writer.w b') w' d cl (os.store all cur (op_bytes o))
              (cur + op_len o) /\
    bio.Writer.f b' = bio.Writer.f b.
Proof.
  intros Hw. destruct o as [p|s|c]; simpl.
  - destruct (Write_composing _ p _ _ _ _ _ Hw) as (b' & w' & Hwrite & Hw').
    unfold bio.Writer.Write. rewrite (bind_Ret _ _ _ _ _ Hwrite).
    by eexists _, _.
  - destruct (WriteString_composing _ s _ _ _ _ _ Hw) as (b' & w' & Hwrite & Hw').
    unfold bio.Writer.WriteString. rewrite (bind_Ret _ _ _ _ _ Hwrite).
    by eexists _, _.
  - destruct (WriteByte_composing _ c _ _ _ _ _ Hw) as (b' & w' & Hwrite & Hw').
    unfold bio.Writer.WriteByte. unfold bind at 1.
    rewrite (bind_Ret _ _ _ _ _ Hwrite). by eexists _, _.
Qed.

Lemma do_writes_composing ops b w d cl all cur :
  composing (bio.Writer.w b) w d cl all cur ->
  exists b' w',
    do_writes b ops w = Some (Ret (bytes_written ops, None, b') w') /\
    composing (bio.Writer.w b') w' d cl (stored all cur ops)
              (cur + bytes_written ops) /\
    bio.Writer.f b' = bio.Writer.f b.
Proof.
  revert b w all cur. induction ops as [|o ops IH]; intros b w all cur Hw.
  - exists b, w. simpl. rewrite Nat.add_0_r. done.
  - destruct (do_write_composing b o w d cl all cur Hw) as (b1 & w1 & Hdo & Hw1 & Hf1).
    destruct (IH b1 w1 _ _ Hw1) as (b2 & w2 & Hdos & Hw2 & Hf2).
    exists b2, w2. cbn [do_writes bytes_written foldr stored].
    rewrite (bind_Ret _ _ _ _ _ Hdo), (bind_Ret _ _ _ _ _ Hdos).
    split; [done|]. split; [|congruence].
    fold (bytes_written ops). by rewrite Nat.add_assoc.
Qed.

(** Writes that start at the end of the contents append. *)
Lemma stored_at_end all ops :
  stored all (length all) ops = all ++ written ops.
Proof.
  revert all. induction ops as [|o ops IH]; intros all.
  - unfold written. simpl. by rewrite app_nil_r.
  - cbn [stored]. rewrite store_end.
    replace (length all + op_len o)%nat with (length (all ++ op_bytes o))
      by (rewrite length_app, op_bytes_length; done).
    rewrite IH. unfold written. simpl. by rewrite app_assoc.
Qed.

Lemma Writer_Flush_composing b w d cl all cur :
  composing (bio.Writer.w b) w d cl all cur ->
  exists b' w' fl,
    bio.Writer.Flush b w = Some (Ret (None, b') w') /\
    composing (bio.Writer.w b') w' d cl all cur /\
    bio.Writer.f b' = bio.Writer.f b /\
    files w' !! d = Some fl /\ os.data fl = all /\ os.pos fl = cur.
Proof.
  intros Hw.
  destruct (Flush_composing _ _ _ _ _ _ Hw) as (fl & Hfl & Hd & Hpos & _ & _ & Hw1).
  unfold bio.Writer.Flush. rewrite (bind_Ret _ _ _ _ _ Hfl).
  eexists _, _, fl. split; [reflexivity|]. split; [done|]. split; [done|].
  split; [apply lookup_insert_eq|done].
Qed.

Lemma Writer_Seek_composing b w d cl all cur offset whence t :
  composing (bio.Writer.w b) w d cl all cur -> bio.Writer.f b = Some d ->
  cursor_target cur (length all) offset whence = Some t ->
  0 <= t <= Z.of_nat (length all) -> Z.of_nat (length all) < 2 ^ 63 ->
  exists b' w',
    bio.Writer.Seek b offset whence w = Some (Ret (t, b') w') /\
    composing (bio.Writer.w b') w' d cl all (Z.to_nat t) /\
    bio.Writer.f b' = Some d /\
    bufio.Writer.buf (bio.Writer.w b') = [].
Proof.
  intros Hw Hf Ht Hrange Hsmall.
  destruct (Flush_composing _ _ _ _ _ _ Hw)
    as (fl & Hfl & Hd & Hpos & Hclosed & Hcl & Hw1).
  unfold bio.Writer.Seek. rewrite (bind_Ret _ _ _ _ _ Hfl), Hf.
  assert (Hlk : files (set_file d fl w) !! d = Some fl)
    by apply lookup_insert_eq.
  rewrite (bind_Ret _ _ _ _ _ (os_Seek_present d offset whence _ fl Hlk)).
  unfold os.file_seek. rewrite Hclosed.
  assert (Hst : os.seek_target fl offset whence = Some t).
  { rewrite <- Ht. unfold os.seek_target, cursor_target. by rewrite Hd, Hpos. }
  rewrite Hst.
  destruct ((0 <=? t) && (t <? 2 ^ 63)) eqn:Hin.
  2:{ apply andb_false_iff in Hin as [Hin|Hin];
        [apply Z.leb_gt in Hin|apply Z.ltb_ge in Hin]; lia. }
  cbn [fst snd]. eexists _, _. split; [reflexivity|]. split; [|done].
  rewrite set_file_set. cbn [bio.Writer.w].
  destruct Hw1 as (Hwr1 & Hok1 & He1 & fl1 & Hf1 & (_ & Hws) & _).
  rewrite Hlk in Hf1. injection Hf1 as <-.
  split; [done|]. split; [done|]. split; [done|].
  eexists. split; [apply lookup_insert_eq|]. simpl.
  split; [done|]. split; [done|]. rewrite Hd.
  split; [lia|]. split; [apply store_nil; lia|lia].
Qed.

Lemma Writer_Offset_composing b w d cl all cur :
  composing (bio.Writer.w b) w d cl all cur -> bio.Writer.f b = Some d ->
  Z.of_nat (length all) < 2 ^ 63 ->
  exists b' w',
    bio.Writer.Offset b w = Some (Ret (Z.of_nat cur, b') w') /\
    composing (bio.Writer.w b') w' d cl all cur /\
    bio.Writer.f b' = Some d.
Proof.
  intros Hw Hf Hsmall. pose proof (composing_within _ _ _ _ _ _ Hw) as Hin.
  destruct (Flush_composing _ _ _ _ _ _ Hw)
    as (fl & Hfl & Hd & Hpos & Hclosed & Hcl & Hw1).
  unfold bio.Writer.Offset. rewrite (bind_Ret _ _ _ _ _ Hfl), Hf.
  assert (Hlk : files (set_file d fl w) !! d = Some fl)
    by apply lookup_insert_eq.
  rewrite (bind_Ret _ _ _ _ _ (os_Seek_query d _ fl Hlk Hclosed ltac:(lia))).
  rewrite Hpos. by eexists _, _.
Qed.

Lemma Writer_Close_composing b w d cl all cur :
  composing (bio.Writer.w b) w d cl all cur -> bio.Writer.f b = Some d ->
  exists b' w' fl,
    bio.Writer.Close b w = Some (Ret (os_PathError <$> cl, b') w') /\
    files w' !! d = Some fl /\ os.data fl = all /\ os.closed fl = true.
Proof.
  intros Hw Hf.
  destruct (Flush_composing _ _ _ _ _ _ Hw)
    as (fl & Hfl & Hd & Hpos & Hclosed & Hcl & Hw1).
  unfold bio.Writer.Close. rewrite (bind_Ret _ _ _ _ _ Hfl), Hf.
  assert (Hlk : files (set_file d fl w) !! d = Some fl)
    by apply lookup_insert_eq.
  rewrite (bind_Ret _ _ _ _ _ (os_Close_present d _ fl Hlk)).
  unfold os.file_close. rewrite Hclosed, Hcl. cbn [fst snd].
  eexists _, _, _. split; [reflexivity|].
  split; [apply lookup_insert_eq|]. done.
Qed.

(** A writer that [Create] returned, on a file that takes its writes,
    stands at offset 0 of empty contents. *)
Lemma Create_composing name w b w0 fl :
  bio.Create name w = Some (Ret (Some b, None) w0) ->
  file_at (bio.Writer.f b) w0 = Some fl -> plain_writes fl ->
  exists d,
    b = bio.Writer.mk (Some d) (bufio.Writer.NewWriter (Some d)) /\
    composing (bufio.Writer.NewWriter (Some d)) w0 d (os.closing fl) [] 0.
Proof.
  intros Hcreate Hfl Hp.
  apply Create_created in Hcreate as (d & fl0 & -> & Hcr & Hdata & Hpos & _).
  destruct Hcr as (_ & _ & Hf & _). simpl in Hfl. rewrite Hf in Hfl.
  injection Hfl as ->.
  exists d. split; [done|]. by apply composing_fresh.
Qed.

(** ** Streams over a file: opening, seeking, reading *)

(** X1. [Open] and [Create] return what the system call returned: when
    [os.Open] or [os.Create] reports an error they hand this very error to
    the caller, with no stream, and do not end the run; when it reports
    none they return a stream whose seek handle is the handle the call
    returned and whose buffer, empty, works on that same handle.  Either
    way the world is the one the call left.  The reader [Open] returns
    for a named file has the whole contents ahead, at offset 0. *)
Theorem Open_and_Create_return_a_stream_or_the_error (name : string) (w : World) :
  (exists f err w',
     os_calls.Open name w = Some (Ret (f, err) w') /\
     bio.Open name w
     = Some (Ret (match err with
                  | Some _ => (None, err)
                  | None =>
                      (Some (bio.Reader.mk f (bufio.Reader.NewReader f)), None)
                  end) w')) /\
  (exists f err w',
     os_calls.Create name w = Some (Ret (f, err) w') /\
     bio.Create name w
     = Some (Ret (match err with
                  | Some _ => (None, err)
                  | None =>
                      (Some (bio.Writer.mk f (bufio.Writer.NewWriter f)), None)
                  end) w')) /\
  (forall contents,
     disk w !! name = Some contents ->
     exists d b w',
       bio.Open name w = Some (Ret (Some b, None) w') /\
       bio.Reader.f b = Some d /\ bufio.Reader.rd (bio.Reader.r b) = Some d /\
       bufio.Reader.Buffered (bio.Reader.r b) = 0%nat /\
       ahead (bio.Reader.r b) w' = contents /\
       (Z.of_nat (length contents) < 2 ^ 63 -> reading b w' d contents 0)).
Proof.
  split; [|split].
  - unfold bio.Open, bind, os_calls.Open.
    destruct (disk w !! name) as [contents|]; eexists _, _, _; by split.
  - unfold bio.Create, bind, os_calls.Create.
    destruct (decide (name = EmptyString)); [eexists _, _, _; by split|].
    destruct (nodes w !! name) as [[e|steps cl]|]; eexists _, _, _; by split.
  - intros contents Hdisk. exists (os_calls.fresh_fd w). eexists _, _.
    split; [exact (Open_returns name contents w Hdisk)|].
    split; [done|]. split; [done|]. split; [done|]. split.
    { unfold ahead. simpl. by rewrite lookup_insert_eq. }
    intros Hsmall. exact (Open_reading name contents w Hdisk Hsmall).
Qed.

(** X2. A reader at work on a file, and a seek in one of the three modes
    to a target inside the file: [Seek] returns the target, nothing is
    left in the buffer, [Offset] then returns the target, and the next
    [Read] hands out the bytes of the file from the target on. *)
Theorem Reader_Seek_moves_the_cursor (b : bio.Reader.t) (w : World) (d : nat)
    (contents : list byte) (off : nat) (offset whence t : Z) :
  reading b w d contents off ->
  cursor_target off (length contents) offset whence = Some t ->
  0 <= t <= Z.of_nat (length contents) ->
  exists b' w',
    bio.Reader.Seek b offset whence w = Some (Ret (t, b') w') /\
    bufio.Reader.Buffered (bio.Reader.r b') = 0%nat /\
    bio.Reader.Offset b' w' = Some (Ret t w') /\
    reading b' w' d contents (Z.to_nat t) /\
    forall n, (0 < n)%nat ->
      exists e b'' w'',
        bio.Reader.Read b' n w'
        = Some (Ret (take n (drop (Z.to_nat t) contents), e, b'') w'').
Proof.
  intros Hr Ht Hrange.
  pose proof (reading_bound _ _ _ _ _ Hr) as Hoff.
  assert (Hsmall : Z.of_nat (length contents) < 2 ^ 63)
    by (by destruct Hr as (fl & _ & _ & _ & _ & _ & _ & ? & _)).
  assert (Hint : - 2 ^ 63 <= offset < 2 ^ 63).
  { unfold cursor_target in Ht.
    destruct whence as [|[p|[p|p|]|]|p]; try done; injection Ht as <-; lia. }
  destruct (Seek_reading _ _ _ _ _ _ _ _ Hr Ht Hint Hrange)
    as (b' & w' & HS & Hbuf & Hr').
  exists b', w'. split; [done|].
  split; [unfold bufio.Reader.Buffered; by rewrite Hbuf|].
  split.
  { rewrite (Offset_reading _ _ _ _ _ Hr'). do 3 f_equal. lia. }
  split; [done|]. intros n Hn.
  pose proof (reading_ok _ _ _ _ _ Hr') as (Hsz & Hlen & _).
  destruct (Read_returns (bio.Reader.r b') n w' Hsz Hlen)
    as (got & e & r'' & w'' & HR & _).
  destruct (Read_plain _ _ _ _ _ _ _ (reading_plain_now _ _ _ _ _ Hr') Hsz Hn HR)
    as (_ & _ & Hgot).
  specialize (Hgot Hbuf).
  destruct Hr' as (fl' & _ & _ & _ & _ & _ & _ & _ & Hah). rewrite Hah in Hgot.
  exists e, (bio.Reader.mk (bio.Reader.f b') r''), w''.
  unfold bio.Reader.Read. rewrite (bind_Ret _ _ _ _ _ HR). by rewrite Hgot.
Qed.

(** X3. Two seeks relative to the current position, one after the other,
    leave the reader and the file exactly where the one seek by the sum of
    the two offsets leaves them, and return that position. *)
Theorem Reader_Seek_relative_seeks_add_up (b : bio.Reader.t) (w : World)
    (d : nat) (contents : list byte) (off : nat) (x y : Z) :
  reading b w d contents off ->
  0 <= Z.of_nat off + x <= Z.of_nat (length contents) ->
  0 <= Z.of_nat off + x + y <= Z.of_nat (length contents) ->
  exists b1 w1 b2 w2,
    bio.Reader.Seek b x 1 w = Some (Ret (Z.of_nat off + x, b1) w1) /\
    bio.Reader.Seek b1 y 1 w1 = Some (Ret (Z.of_nat off + x + y, b2) w2) /\
    bio.Reader.Seek b (x + y) 1 w = Some (Ret (Z.of_nat off + x + y, b2) w2).
Proof.
  intros (fl & Hop & Hp & He & Hdata & Hpos & Hle & Hsmall & Hah) Hx Hxy.
  pose proof Hp as (Hcl & _).
  assert (Hlog : logical b fl = Z.of_nat off).
  { unfold logical, bufio.Reader.Buffered. lia. }
  destruct (Reader_Seek_current b w d fl x Hop Hcl) as (_ & HS1 & Hop1 & _);
    try lia.
  destruct (Reader_Seek_current b w d fl (x + y) Hop Hcl) as (_ & HS3 & _);
    try lia.
  rewrite Hlog in HS1, Hop1, HS3.
  set (fl1 := os.mkFile (os.data fl) (Z.to_nat (Z.of_nat off + x)) false
                (os.reads fl) (os.writes fl) (os.closing fl)) in *.
  set (b1 := bio.Reader.mk (Some d) (bufio.Reader.Reset (bio.Reader.r b) (Some d)))
    in *.
  assert (Hlog1 : logical b1 fl1 = Z.of_nat off + x).
  { unfold logical, bufio.Reader.Buffered. simpl. lia. }
  destruct (Reader_Seek_current b1 (set_file d fl1 w) d fl1 y Hop1 eq_refl)
    as (_ & HS2 & _); try (simpl; lia).
  rewrite Hlog1, set_file_set in HS2. simpl in HS2.
  eexists _, _, _, _. split; [exact HS1|]. split; [exact HS2|].
  rewrite HS3. by rewrite Z.add_assoc.
Qed.

(** X4. A reader at work on a file, and a [Read] into a buffer of
    [n > 0] bytes: it returns at most [n] bytes, which are the next bytes
    of the file; it returns none, and then reports [io.EOF], exactly at the
    end of the file; and [Offset] has advanced by the count returned. *)
Theorem Reader_Read_hands_out_the_next_bytes (b : bio.Reader.t) (w : World)
    (d : nat) (contents : list byte) (off n : nat) :
  reading b w d contents off -> (0 < n)%nat ->
  exists got e b' w',
    bio.Reader.Read b n w = Some (Ret (got, e, b') w') /\
    got = take (length got) (drop off contents) /\
    (length got <= n)%nat /\
    (got = [] <-> off = length contents) /\
    e = (if decide (off = length contents) then Some io_EOF else None) /\
    bio.Reader.Offset b w = Some (Ret (Z.of_nat off) w) /\
    bio.Reader.Offset b' w' = Some (Ret (Z.of_nat (off + length got)) w') /\
    reading b' w' d contents (off + length got).
Proof.
  intros Hr Hn.
  destruct (Read_reading _ _ _ _ _ _ Hr Hn)
    as (got & e & b' & w' & HR & Hgot & Hlen & He & Hiff & Hr').
  exists got, e, b', w'.
  rewrite (Offset_reading _ _ _ _ _ Hr), (Offset_reading _ _ _ _ _ Hr'). done.
Qed.

(** X5. Calling [Bgetc] again and again on a file just opened returns its
    bytes one by one, each as a value from 0 to 255, and from the end of
    the file on returns -1, however often it is called. *)
Theorem Bgetc_walks_through_the_file (name : string) (contents : list byte)
    (w : World) (n : nat) :
  disk w !! name = Some contents -> Z.of_nat (length contents) < 2 ^ 63 ->
  value (open_bgetcs n name w)
  = Some ((int_of_byte <$> take n contents)
          ++ replicate (n - length contents) bio.EOF).
Proof.
  intros Hdisk Hsmall. unfold open_bgetcs.
  rewrite (bind_Ret _ _ _ _ _ (Open_returns name contents w Hdisk)).
  rewrite (bgetcs_reading n _ _ _ _ _ (Open_reading name contents w Hdisk Hsmall)).
  by rewrite drop_0, Nat.sub_0_r.
Qed.

(** X6. Calling [Bread] again and again on a file just opened, with
    buffers of any lengths, cuts the file into pieces of those lengths:
    each call fills its buffer with the next bytes and returns their count,
    which is short only at the end of the file; from there on it returns 0
    and never -1.  The pieces put together are the start of the file. *)
Theorem Bread_cuts_the_file_into_pieces (name : string) (contents : list byte)
    (w : World) (fuel : nat) (lens : list nat) :
  disk w !! name = Some contents -> Z.of_nat (length contents) < 2 ^ 63 ->
  Forall (fun len => (len <= fuel)%nat) lens ->
  value (open_breads fuel lens name w) = Some (chunks lens contents) /\
  concat (snd <$> chunks lens contents) = take (sum_list lens) contents /\
  Forall (fun c => 0 <= c.1 /\ c.1 = Z.of_nat (length c.2)) (chunks lens contents).
Proof.
  intros Hdisk Hsmall Hall. split; [|split].
  - unfold open_breads.
    rewrite (bind_Ret _ _ _ _ _ (Open_returns name contents w Hdisk)).
    rewrite (breads_reading fuel lens _ _ _ _ _
               (Open_reading name contents w Hdisk Hsmall) Hall).
    by rewrite drop_0.
  - clear. revert contents. induction lens as [|len lens IH]; intros contents.
    + by rewrite take_0.
    + cbn [chunks fmap list_fmap concat snd sum_list]. rewrite IH.
      by rewrite take_take_drop.
  - clear. revert contents. induction lens as [|len lens IH]; intros contents.
    + constructor.
    + cbn [chunks]. constructor; [simpl; lia|apply IH].
Qed.

(** X7. A file that is a sequence of lines, each followed by the
    delimiter, and then a tail: as many calls of [Brdline] as there are
    lines return the lines in order, each with its delimiter; one call more
    ends the run when the tail holds no delimiter, be the tail empty or
    not. *)
Theorem Brdline_returns_the_lines_in_order (name : string) (delim : Z)
    (lines : list (list byte)) (tail : list byte) (w : World) (fuel : nat) :
  let c := byte_of_int delim in
  let contents := join_lines c lines ++ tail in
  disk w !! name = Some contents -> Z.of_nat (length contents) < 2 ^ 63 ->
  Forall (fun l => c ∉ l) lines ->
  (length contents + 1 < fuel)%nat ->
  value (open_brdlines fuel (length lines) name delim w)
  = Some ((fun l => string_of_list_byte (l ++ [c])) <$> lines) /\
  (c ∉ tail ->
   open_brdlines fuel (S (length lines)) name delim w
   = Some (Fatal "reading input: %v" io_EOF)).
Proof.
  intros c contents Hdisk Hsmall Hall Hfuel.
  pose proof (Open_reading name contents w Hdisk Hsmall) as Hr.
  destruct (brdlines_reading fuel lines tail _ delim _ _ _ _ Hr Hfuel
              (drop_0 _) Hall) as (Hv & Hf).
  unfold open_brdlines.
  rewrite !(bind_Ret _ _ _ _ _ (Open_returns name contents w Hdisk)).
  by split.
Qed.

(** X8. Read, seek back, read again: after [Bread] returned [n], a seek
    by [-n] relative to the current position puts the stream back where it
    was, and the same [Bread] again returns the same count and fills the
    buffer with the same bytes. *)
Theorem Bread_again_after_seeking_back (b : bio.Reader.t) (w : World) (d : nat)
    (contents : list byte) (off len fuel : nat) :
  reading b w d contents off -> (len <= fuel)%nat ->
  let got := take len (drop off contents) in
  exists b' w',
    bread_back_bread fuel b len w
    = Some (Ret (Z.of_nat (length got), got, Z.of_nat (length got), got, b') w') /\
    bio.Reader.Offset b' w' = Some (Ret (Z.of_nat (off + length got)) w').
Proof.
  intros Hr Hfuel got.
  destruct (bread_back_bread_reading fuel b len w d contents off Hr Hfuel)
    as (b' & w' & HB & Hr').
  exists b', w'. split; [done|]. by apply (Offset_reading _ _ _ _ _ Hr').
Qed.

(** ** Closing a reader, and seeks the handle refuses *)

(** X9. [Close] of a reader releases the handle and returns what the
    release reported; the contents stay as they are.  From then on the
    handle refuses what is asked of it, and the reader passes that on: a
    second [Close] returns the error the handle reports; [Offset] and every
    [Seek] end the run with the error of the handle's seek; and [Bgetc],
    once the buffer is empty, ends the run with the error of the handle's
    read, which is not the end of the file. *)
Theorem Reader_Close_releases_the_handle (b : bio.Reader.t) (w : World)
    (d : nat) (fl : os.File) :
  opened b w d fl -> os.closed fl = false ->
  exists w',
    bio.Reader.Close b w = Some (Ret (os_PathError <$> os.closing fl) w') /\
    os.closed <$> files w' !! d = Some true /\
    os.data <$> files w' !! d = Some (os.data fl) /\
    (exists e,
       os_calls.Close (Some d) w' = Some (Ret (Some e) w') /\
       bio.Reader.Close b w' = Some (Ret (Some e) w')) /\
    (exists e,
       os_calls.Seek (Some d) 0 1 w' = Some (Ret (0, Some e) w') /\
       bio.Reader.Offset b w' = Some (Fatal "seeking in output [0, 1]: %v" e)) /\
    (forall offset whence,
       exists e,
         (forall sent,
            os_calls.Seek (Some d) sent whence w' = Some (Ret (0, Some e) w')) /\
         bio.Reader.Seek b offset whence w'
         = Some (Fatal "seeking in output: %v" e)) /\
    (bufio.Reader.buf (bio.Reader.r b) = [] ->
     bufio.Reader.err (bio.Reader.r b) = None ->
     exists e,
       os_calls.Read (Some d) (bufio.Reader.size (bio.Reader.r b)) w'
       = Some (Ret ([], Some e) w') /\
       e <> io_EOF /\
       bio.Bgetc b w' = Some (Fatal "reading input: %v" e)).
Proof.
  intros (Hf & Hrd & Hfl & Hsz & Hlen & _) Hcl.
  set (fl' := os.mkFile (os.data fl) (os.pos fl) true (os.reads fl) (os.writes fl)
                (os.closing fl)).
  assert (Hlk : files (set_file d fl' w) !! d = Some fl') by apply lookup_insert_eq.
  assert (Hsame : set_file d fl' (set_file d fl' w) = set_file d fl' w)
    by apply set_file_set.
  assert (Hseek : forall sent whence,
            os_calls.Seek (Some d) sent whence (set_file d fl' w)
            = Some (Ret (0, Some os_ErrInvalid) (set_file d fl' w))).
  { intros sent whence. rewrite (os_Seek_present d sent whence _ fl' Hlk).
    unfold os.file_seek. simpl. by rewrite Hsame. }
  assert (Hclose : os_calls.Close (Some d) (set_file d fl' w)
                   = Some (Ret (Some os_ErrInvalid) (set_file d fl' w))).
  { rewrite (os_Close_present d _ fl' Hlk). unfold os.file_close. simpl.
    by rewrite Hsame. }
  assert (Hread : forall k,
            os_calls.Read (Some d) k (set_file d fl' w)
            = Some (Ret ([], Some os_ErrInvalid) (set_file d fl' w))).
  { intros k. rewrite (os_Read_present d k _ fl' Hlk). unfold os.file_read.
    simpl. by rewrite Hsame. }
  exists (set_file d fl' w).
  split; [|split; [|split; [|split; [|split; [|split]]]]].
  - unfold bio.Reader.Close. rewrite Hf, (os_Close_present d w fl Hfl).
    unfold os.file_close. by rewrite Hcl.
  - by rewrite Hlk.
  - by rewrite Hlk.
  - exists os_ErrInvalid. split; [done|]. unfold bio.Reader.Close. by rewrite Hf.
  - exists os_ErrInvalid. split; [done|]. unfold bio.Reader.Offset. rewrite Hf.
    by rewrite (bind_Ret _ _ _ _ _ (Hseek 0 1)).
  - intros offset whence. exists os_ErrInvalid.
    split; [intros sent; apply Hseek|].
    unfold bio.Reader.Seek. rewrite Hf.
    by rewrite (bind_Ret _ _ _ _ _ (Hseek _ whence)).
  - intros Hbuf He. exists os_ErrInvalid. split; [apply Hread|]. split; [done|].
    unfold bio.Bgetc, bufio.Reader.ReadByte.
    rewrite ReadByte_loop_S, Hbuf, He.
    unfold bufio.Reader.fill. rewrite Hbuf.
    destruct (bufio.Reader.size (bio.Reader.r b) <=? length (@nil byte))%nat eqn:Hfull.
    { apply Nat.leb_le in Hfull. simpl in Hfull. lia. }
    change bufio.maxConsecutiveEmptyReads with (S 99).
    rewrite fill_tries_S, Hrd, Hbuf.
    rewrite (bind_Ret _ _ _ _ _
               (bind_Ret _ _ _ _ _ (bind_Ret _ _ _ _ _ (Hread _)))).
    done.
Qed.

(** X10. [Seek] of a reader asks the handle once, for the offset as given
    or, in mode 1, for the offset less the count of the bytes buffered (in
    64 bits, two's complement).  It returns an offset only when the handle
    returned one with no error, and then it is that offset, from 0 to
    2^63-1, and the reader is left with an empty buffer on that handle and
    no error pending; when the handle reports an error, the run ends with
    that error.  So a seek from the start to a negative offset, which an
    open file refuses, ends the run. *)
Theorem Reader_Seek_returns_what_the_handle_returned (b : bio.Reader.t)
    (offset whence : Z) (w : World) :
  let sent := if whence =? 1
              then (offset - Z.of_nat (length (bufio.Reader.buf (bio.Reader.r b)))
                    + 2 ^ 63) mod 2 ^ 64 - 2 ^ 63
              else offset in
  (exists off e w',
     os_calls.Seek (bio.Reader.f b) sent whence w = Some (Ret (off, e) w') /\
     match e with
     | Some x =>
         bio.Reader.Seek b offset whence w
         = Some (Fatal "seeking in output: %v" x)
     | None =>
         0 <= off < 2 ^ 63 /\
         bio.Reader.Seek b offset whence w
         = Some (Ret (off, bio.Reader.mk (bio.Reader.f b)
                            (bufio.Reader.mk [] (bufio.Reader.size (bio.Reader.r b))
                               None (bio.Reader.f b))) w')
     end) /\
  (forall d fl,
     opened b w d fl -> os.closed fl = false -> whence = 0 -> offset < 0 ->
     exists e,
       os_calls.Seek (Some d) offset 0 w = Some (Ret (0, Some e) w) /\
       bio.Reader.Seek b offset whence w
       = Some (Fatal "seeking in output: %v" e)).
Proof.
  intros sent. split.
  - destruct (os_Seek_returns (bio.Reader.f b) sent whence w) as (off & e & w' & HS).
    exists off, e, w'. split; [done|].
    unfold bio.Reader.Seek.
    change (if whence =? 1
            then int64_sub offset
                   (Z.of_nat (bufio.Reader.Buffered (bio.Reader.r b)))
            else offset) with sent.
    rewrite (bind_Ret _ _ _ _ _ HS).
    destruct e as [x|]; [done|]. split; [|done].
    by destruct (os_Seek_lands _ _ _ _ _ _ HS) as (d & f & _ & _ & _ & _ & ? & _).
  - intros d fl (Hf & _ & Hfl & _) Hcl -> Hneg.
    assert (HS : os_calls.Seek (Some d) offset 0 w
                 = Some (Ret (0, Some (os_PathError EINVAL)) w)).
    { rewrite (os_Seek_present d offset 0 w fl Hfl).
      unfold os.file_seek. rewrite Hcl. simpl.
      destruct (0 <=? offset) eqn:Hle; [apply Z.leb_le in Hle; lia|].
      simpl. by rewrite (set_file_same _ _ _ Hfl). }
    exists (os_PathError EINVAL). split; [done|].
    unfold bio.Reader.Seek. rewrite Hf. simpl.
    by rewrite (bind_Ret _ _ _ _ _ HS).
Qed.

(** ** Writing: what the file holds *)

(** X11. A writer at work on a file that takes its writes: [Write],
    [WriteString] and [WriteByte] each accept all their bytes and report
    no error, and put them at the position of the writer, over what the
    file held there and beyond its end if need be; the position moves
    behind them.  A [Flush] then reports no error and leaves the file with
    exactly these contents and its cursor at that position. *)
Theorem Writer_writes_go_where_the_writer_stands (b : bio.Writer.t)
    (o : write_op) (w : World) (d : nat) (cl : option errno)
    (all : list byte) (cur : nat) :
  composing (bio.Writer.w b) w d cl all cur ->
  exists b1 w1 b2 w2 fl,
    do_write b o w = Some (Ret (op_len o, None, b1) w1) /\
    composing (bio.Writer.w b1) w1 d cl (os.store all cur (op_bytes o))
              (cur + op_len o) /\
    bio.Writer.Flush b1 w1 = Some (Ret (None, b2) w2) /\
    bufio.Writer.Buffered (bio.Writer.w b2) = 0%nat /\
    files w2 !! d = Some fl /\
    os.data fl
    = take cur all ++ op_bytes o ++ drop (cur + op_len o) all /\
    os.pos fl = (cur + op_len o)%nat.
Proof.
  intros Hw. pose proof (composing_within _ _ _ _ _ _ Hw) as Hin.
  destruct (do_write_composing b o w d cl all cur Hw) as (b1 & w1 & Hdo & Hw1 & _).
  destruct (Writer_Flush_composing b1 w1 d cl _ _ Hw1)
    as (b2 & w2 & fl & HF & Hw2 & _ & Hlk & Hd & Hpos).
  exists b1, w1, b2, w2, fl. split; [done|]. split; [done|]. split; [done|].
  split.
  { unfold bio.Writer.Flush in HF.
    destruct (Flush_composing _ _ _ _ _ _ Hw1) as (fl' & HF' & _).
    rewrite (bind_Ret _ _ _ _ _ HF') in HF. by injection HF as <- _. }
  split; [done|]. split; [|done].
  rewrite Hd. unfold os.store.
  replace (cur - length all)%nat with 0%nat by lia.
  by rewrite op_bytes_length.
Qed.

(** X12. A writer at work on a file, and a seek in one of the three modes
    to a target inside the contents: the position the modes 1 and 2 start
    from counts the bytes still buffered; [Seek] returns the target, the
    bytes that were buffered are in the file, and [Offset] then returns the
    target. *)
Theorem Writer_Seek_moves_the_writer (b : bio.Writer.t) (w : World) (d : nat)
    (cl : option errno) (all : list byte) (cur : nat) (offset whence t : Z) :
  composing (bio.Writer.w b) w d cl all cur -> bio.Writer.f b = Some d ->
  cursor_target cur (length all) offset whence = Some t ->
  0 <= t <= Z.of_nat (length all) -> Z.of_nat (length all) < 2 ^ 63 ->
  exists b1 w1 fl b2 w2,
    bio.Writer.Seek b offset whence w = Some (Ret (t, b1) w1) /\
    bufio.Writer.Buffered (bio.Writer.w b1) = 0%nat /\
    files w1 !! d = Some fl /\ os.data fl = all /\ Z.of_nat (os.pos fl) = t /\
    composing (bio.Writer.w b1) w1 d cl all (Z.to_nat t) /\
    bio.Writer.Offset b1 w1 = Some (Ret (t, b2) w2).
Proof.
  intros Hw Hf Ht Hrange Hsmall.
  destruct (Writer_Seek_composing b w d cl all cur offset whence t Hw Hf Ht
              Hrange Hsmall) as (b1 & w1 & HS & Hw1 & Hf1 & Hbuf).
  destruct (Writer_Offset_composing b1 w1 d cl all _ Hw1 Hf1 Hsmall)
    as (b2 & w2 & HO & _).
  rewrite Z2Nat.id in HO by lia.
  destruct Hw1 as (Hwr1 & Hok1 & He1 & fl & Hlk & Hp & Hcl & Hpos & Hall & Hcur).
  pose proof Hall as Hall'. pose proof Hcur as Hcur'.
  rewrite Hbuf in Hall', Hcur'. simpl in Hcur'.
  rewrite store_nil in Hall' by done.
  exists b1, w1, fl, b2, w2. split; [done|].
  split; [unfold bufio.Writer.Buffered; by rewrite Hbuf|].
  split; [done|]. split; [done|]. split; [lia|]. split; [|done].
  split; [done|]. split; [done|]. split; [done|]. by exists fl.
Qed.

(** X13. What is written to a file just created is what the file holds
    when it is closed: for a writer that [Create] returned, on a file that
    takes its writes, after any sequence of [Write], [WriteString] and
    [WriteByte] and [Close], no write has reported an error, [Close]
    returns what the release of the handle reported, the handle is
    released, and the contents are the bytes handed to the writes, in the
    order of the calls. *)
Theorem created_file_holds_the_bytes_written (name : string)
    (ops : list write_op) (w : World) (b : bio.Writer.t) (w0 : World)
    (fl : os.File) :
  bio.Create name w = Some (Ret (Some b, None) w0) ->
  file_at (bio.Writer.f b) w0 = Some fl -> plain_writes fl ->
  exists w' fl',
    create_write_close name ops w
    = Some (Ret (bytes_written ops, None, os_PathError <$> os.closing fl) w') /\
    file_at (bio.Writer.f b) w' = Some fl' /\
    os.data fl' = written ops /\
    os.closed fl' = true /\
    length (written ops) = bytes_written ops.
Proof.
  intros HC Hfl Hp.
  destruct (Create_composing name w b w0 fl HC Hfl Hp) as (d & -> & Hw0).
  destruct (do_writes_composing ops (bio.Writer.mk (Some d)
              (bufio.Writer.NewWriter (Some d))) w0 d _ [] 0 Hw0)
    as (b1 & w1 & Hdo & Hw1 & Hf1).
  destruct (Writer_Close_composing b1 w1 d _ _ _ Hw1 Hf1)
    as (b2 & w2 & fl2 & HCl & Hlk & Hd & Hcl).
  exists w2, fl2. split.
  { unfold create_write_close.
    rewrite (bind_Ret _ _ _ _ _ HC), (bind_Ret _ _ _ _ _ Hdo).
    by rewrite (bind_Ret _ _ _ _ _ HCl). }
  split; [done|]. split.
  { rewrite Hd. change 0%nat with (length (@nil byte)). by rewrite stored_at_end. }
  split; [done|].
  clear. induction ops as [|o ops IH]; [done|].
  unfold written in *. cbn [fmap list_fmap concat bytes_written foldr].
  rewrite length_app, op_bytes_length. fold (bytes_written ops). by rewrite <- IH.
Qed.

(** X14. Going back to patch: for a writer that [Create] returned, on a
    file that takes its writes, after a [Write] of [p], a [Seek] to offset
    [k] of what was written, and a [Write] of [q], the file holds [p] with
    [q] written over it from [k] on, longer than [p] when [q] reaches
    beyond its end; [Seek] and the [Offset] asked after it return [k], and
    [Close] returns what the release of the handle reported. *)
Theorem Writer_Seek_back_and_overwrite (name : string) (p q : list byte)
    (k : Z) (w : World) (b : bio.Writer.t) (w0 : World) (fl : os.File) :
  bio.Create name w = Some (Ret (Some b, None) w0) ->
  file_at (bio.Writer.f b) w0 = Some fl -> plain_writes fl ->
  0 <= k <= Z.of_nat (length p) ->
  Z.of_nat (length p) < 2 ^ 63 ->
  exists w' fl',
    write_seek_write name p q k w
    = Some (Ret (k, k, os_PathError <$> os.closing fl) w') /\
    file_at (bio.Writer.f b) w' = Some fl' /\
    os.data fl'
    = take (Z.to_nat k) p ++ q ++ drop (Z.to_nat k + length q) p /\
    os.closed fl' = true.
Proof.
  intros HC Hfl Hp Hk Hsmall.
  destruct (Create_composing name w b w0 fl HC Hfl Hp) as (d & -> & Hw0).
  set (b0 := bio.Writer.mk (Some d) (bufio.Writer.NewWriter (Some d))) in *.
  destruct (do_write_composing b0 (W_Write p) w0 d _ [] 0 Hw0)
    as (b1 & w1 & HW1 & Hw1 & Hf1).
  cbn [do_write op_bytes op_len] in HW1, Hw1.
  change 0%nat with (length (@nil byte)) in Hw1 at 1.
  rewrite store_end in Hw1. simpl in Hw1.
  destruct (Writer_Seek_composing b1 w1 d _ p _ k 0 k Hw1 Hf1 eq_refl Hk Hsmall)
    as (b2 & w2 & HS & Hw2 & Hf2 & _).
  destruct (Writer_Offset_composing b2 w2 d _ p _ Hw2 Hf2 Hsmall)
    as (b3 & w3 & HO & Hw3 & Hf3).
  rewrite Z2Nat.id in HO by lia.
  destruct (do_write_composing b3 (W_Write q) w3 d _ _ _ Hw3)
    as (b4 & w4 & HW4 & Hw4 & Hf4).
  cbn [do_write op_bytes op_len] in HW4, Hw4.
  destruct (Writer_Close_composing b4 w4 d _ _ _ Hw4 (eq_trans Hf4 Hf3))
    as (b5 & w5 & fl5 & HCl & Hlk & Hd & Hcl).
  exists w5, fl5. split.
  { unfold write_seek_write.
    rewrite (bind_Ret _ _ _ _ _ HC), (bind_Ret _ _ _ _ _ HW1).
    rewrite (bind_Ret _ _ _ _ _ HS), (bind_Ret _ _ _ _ _ HO).
    rewrite (bind_Ret _ _ _ _ _ HW4). by rewrite (bind_Ret _ _ _ _ _ HCl). }
  split; [done|]. split; [|done].
  rewrite Hd. unfold os.store.
  by replace (Z.to_nat k - length p)%nat with 0%nat by lia.
Qed.

(** X15. A write error sticks: once [Flush] has reported an error, every
    later [Write], [WriteString], [WriteByte] and [Flush] reports the same
    error, accepts no byte and leaves the files as they are; [Seek] and
    [Offset] end the run with it; and [Close] still releases the handle
    but reports this error, not what the release reported. *)
Theorem Writer_error_sticks (b : bio.Writer.t) (w : World) (e : error)
    (b' : bio.Writer.t) (w' : World) :
  bio.Writer.Flush b w = Some (Ret (Some e, b') w') ->
  (forall p w0, bio.Writer.Write b' p w0 = Some (Ret (0%nat, Some e, b') w0)) /\
  (forall s w0, bio.Writer.WriteString b' s w0 = Some (Ret (0%nat, Some e, b') w0)) /\
  (forall c w0, bio.Writer.WriteByte b' c w0 = Some (Ret (Some e, b') w0)) /\
  (forall w0, bio.Writer.Flush b' w0 = Some (Ret (Some e, b') w0)) /\
  (forall offset whence w0,
     bio.Writer.Seek b' offset whence w0 = Some (Fatal "writing output: %v" e)) /\
  (forall w0, bio.Writer.Offset b' w0 = Some (Fatal "writing output: %v" e)) /\
  (forall w0, exists e2 w2,
     os_calls.Close (bio.Writer.f b') w0 = Some (Ret e2 w2) /\
     bio.Writer.Close b' w0 = Some (Ret (Some e, b') w2)).
Proof.
  intros HF. unfold bio.Writer.Flush in HF.
  destruct (Flush_returns (bio.Writer.w b) w) as (e0 & w1 & w1' & HF0 & He & _).
  rewrite (bind_Ret _ _ _ _ _ HF0) in HF. unfold ret in HF.
  injection HF as -> <- <-. simpl.
  assert (Hstop : forall p : list byte,
            ((bufio.Writer.Available w1 <? length p)%nat
             && bool_decide (bufio.Writer.err w1 = None)) = false).
  { intros p. apply andb_false_iff. right. apply bool_decide_eq_false.
    by rewrite He. }
  assert (Hflush : forall w0,
            bufio.Writer.Flush w1 w0 = Some (Ret (Some e, w1) w0)).
  { intros w0. unfold bufio.Writer.Flush. by rewrite He. }
  split; [|split; [|split; [|split; [|split; [|split]]]]].
  - intros p w0.
    assert (HW : bufio.Writer.Write w1 p w0 = Some (Ret (0%nat, Some e, w1) w0)).
    { unfold bufio.Writer.Write.
      rewrite (bind_Ret _ _ _ _ _ (Write_loop_stop _ _ _ _ (Hstop p) _)).
      by rewrite He. }
    unfold bio.Writer.Write. cbn [bio.Writer.w bio.Writer.f].
    by rewrite (bind_Ret _ _ _ _ _ HW).
  - intros s w0.
    assert (HW : bufio.Writer.WriteString w1 s w0
                 = Some (Ret (0%nat, Some e, w1) w0)).
    { unfold bufio.Writer.WriteString.
      rewrite (bind_Ret _ _ _ _ _ (WriteString_loop_stop _ _ _ _ (Hstop s) _)).
      by rewrite He. }
    unfold bio.Writer.WriteString. cbn [bio.Writer.w bio.Writer.f].
    by rewrite (bind_Ret _ _ _ _ _ HW).
  - intros c w0. unfold bio.Writer.WriteByte, bufio.Writer.WriteByte.
    cbn [bio.Writer.w bio.Writer.f]. by rewrite He.
  - intros w0. unfold bio.Writer.Flush. cbn [bio.Writer.w bio.Writer.f].
    by rewrite (bind_Ret _ _ _ _ _ (Hflush w0)).
  - intros offset whence w0. unfold bio.Writer.Seek.
    cbn [bio.Writer.w bio.Writer.f].
    by rewrite (bind_Ret _ _ _ _ _ (Hflush w0)).
  - intros w0. unfold bio.Writer.Offset. cbn [bio.Writer.w bio.Writer.f].
    by rewrite (bind_Ret _ _ _ _ _ (Hflush w0)).
  - intros w0. destruct (os_Close_returns (bio.Writer.f b) w0) as (e2 & w2 & HCl).
    exists e2, w2. split; [done|]. unfold bio.Writer.Close.
    cbn [bio.Writer.w bio.Writer.f].
    rewrite (bind_Ret _ _ _ _ _ (Hflush w0)).
    by rewrite (bind_Ret _ _ _ _ _ HCl).
Qed.

(** ** Arguments at their bounds *)


(** X17. [Bread] into a buffer of length 0 returns 0, whatever the state
    of the reader: it reads nothing, reports nothing that was pending, and
    never returns -1. *)
Theorem Bread_into_an_empty_buffer (fuel : nat) (b : bio.Reader.t) (w : World) :
  bio.Bread fuel b 0 w = Some (Ret (0, [], b) w).
Proof.
  unfold bio.Bread, io.ReadFull, io.ReadAtLeast. simpl.
  rewrite (bind_Ret _ _ _ _ _
             (bind_Ret _ _ _ _ _
                (ReadAtLeast_loop_stop (bio.Reader.r b) 0 0 [] None w eq_refl fuel))).
  simpl. by destruct b.
Qed.

(** ** Looking ahead *)

Lemma Peek_loop_plain fuel b n w b1 w1 :
  plain_now b w -> (n <= bufio.Reader.size b)%nat ->
  bufio.Reader.Peek_loop fuel b n w = Some (Ret b1 w1) ->
  (plain_now b1 w1 /\ (n <= length (bufio.Reader.buf b1))%nat) \/
  ((length (bufio.Reader.buf b1) < n)%nat /\
   bufio.Reader.err b1 = Some io_EOF /\
   ahead b1 w1 = bufio.Reader.buf b1 /\
   plain_now (bufio.Reader.mk (bufio.Reader.buf b1) (bufio.Reader.size b1) None
                (bufio.Reader.rd b1)) w1).
Proof.
  revert b w. induction fuel as [|fuel IH]; intros b w Hpl Hn;
    (destruct ((length (bufio.Reader.buf b) <? n)%nat
               && bool_decide (bufio.Reader.err b = None)) eqn:Hcond;
     [|rewrite (Peek_loop_stop _ _ _ Hcond); intros [= <- <-]; left;
       split; [done|];
       destruct Hpl as (d & f & _ & _ & _ & He);
       apply andb_false_iff in Hcond as [Hc%Nat.ltb_ge|Hc%bool_decide_eq_false];
       done]).
  - simpl. by rewrite Hcond.
  - rewrite (Peek_loop_go _ _ _ _ Hcond).
    apply andb_true_iff in Hcond as [Hlt%Nat.ltb_lt _].
    destruct Hpl as (d & f & Hrd & Hf & Hp & He).
    destruct (fill_plain b w d f Hrd Hf Hp) as (f' & Hfill & Hp' & _ & _ & Hrest);
      [lia|].
    rewrite (bind_Ret _ _ _ _ _ Hfill).
    destruct (take (bufio.Reader.size b - length (bufio.Reader.buf b)) (rest_of f))
      as [|c got] eqn:Hgot.
    + rewrite Peek_loop_stop by (apply andb_false_iff; by right).
      intros [= <- <-]. right. simpl. rewrite app_nil_r.
      split; [done|]. split; [done|]. split.
      * unfold ahead. simpl. rewrite lookup_insert_eq.
        simpl in Hrest. rewrite <- Hrest.
        apply take_nil_inv in Hgot; [|lia]. by rewrite Hgot, app_nil_r.
      * exists d, f'. split; [done|]. split; [apply lookup_insert_eq|]. by split.
    + apply IH; [|done]. exists d, f'. split; [done|].
      split; [apply lookup_insert_eq|]. by split.
Qed.

Lemma Peek_plain b n w got e b' w' :
  plain_now b w -> 0 <= n <= Z.of_nat (bufio.Reader.size b) ->
  bufio.Reader.Peek b n w = Some (Ret (got, e, b') w') ->
  plain_now b' w' /\
  ((e = None /\ got = take (Z.to_nat n) (bufio.Reader.buf b') /\
    length got = Z.to_nat n) \/
   (e = Some io_EOF /\ got = ahead b' w' /\ (length got < Z.to_nat n)%nat)).
Proof.
  intros Hpl Hn. unfold bufio.Reader.Peek.
  destruct (n <? 0) eqn:Hneg; [apply Z.ltb_lt in Hneg; lia|].
  destruct (Z.of_nat (bufio.Reader.size b) <? n) eqn:Hbig;
    [apply Z.ltb_lt in Hbig; lia|].
  destruct (bufio.Reader.Peek_loop (S (Z.to_nat n)) b (Z.to_nat n) w)
    as [[b1 w1| |]|] eqn:Hloop; unfold bind; rewrite Hloop; try done.
  assert (Hn' : (Z.to_nat n <= bufio.Reader.size b)%nat) by lia.
  destruct (Peek_loop_plain _ _ _ _ _ _ Hpl Hn' Hloop)
    as [(Hpl1 & Hle)|(Hlt & He1 & Hah & Hpl1)].
  - destruct (length (bufio.Reader.buf b1) <? Z.to_nat n)%nat eqn:Hshort;
      [apply Nat.ltb_lt in Hshort; lia|].
    intros [= <- <- <- <-]. split; [done|]. left. split; [done|]. split; [done|].
    rewrite length_take. lia.
  - destruct (length (bufio.Reader.buf b1) <? Z.to_nat n)%nat eqn:Hshort;
      [|apply Nat.ltb_ge in Hshort; lia].
    unfold bufio.Reader.readErr. rewrite He1.
    intros [= <- <- <- <-]. split; [done|]. right. split; [done|].
    split; [|done]. symmetry. exact Hah.
Qed.

Lemma Peek_reading b w d contents off n :
  reading b w d contents off ->
  0 <= n <= Z.of_nat (bufio.Reader.size (bio.Reader.r b)) ->
  exists e b' w',
    bio.Reader.Peek b n w
    = Some (Ret (take (Z.to_nat n) (drop off contents), e, b') w') /\
    e = (if decide (Z.to_nat n <= length contents - off)%nat
         then None else Some io_EOF) /\
    reading b' w' d contents off.
Proof.
  intros Hr Hn. pose proof (reading_ok _ _ _ _ _ Hr) as (Hsz & Hbuf & _).
  pose proof (reading_plain_now _ _ _ _ _ Hr) as Hpl.
  destruct (Peek_returns (bio.Reader.r b) n w Hsz Hbuf)
    as (got & e & r' & w' & HP & Hc & Hl' & _).
  destruct (Peek_plain _ _ _ _ _ _ _ Hpl Hn HP) as (Hpl' & Hcase).
  destruct (reading_consumed _ _ _ _ _ _ _ _ Hr Hc Hpl' Hl') as (_ & Hr').
  simpl in Hr'. rewrite Nat.add_0_r in Hr'.
  assert (Hah : ahead r' w' = drop off contents).
  { by destruct Hr' as (fl' & _ & _ & _ & _ & _ & _ & _ & Hah). }
  exists e, (bio.Reader.mk (bio.Reader.f b) r'), w'.
  unfold bio.Reader.Peek. rewrite (bind_Ret _ _ _ _ _ HP).
  destruct Hcase as [(-> & Hgot & Hlen)|(-> & Hgot & Hlen)].
  - assert (Hgot' : got = take (Z.to_nat n) (drop off contents)).
    { rewrite <- Hah. unfold ahead. rewrite take_app_le; [done|].
      rewrite Hgot, length_take in Hlen. lia. }
    rewrite <- Hgot'. split; [done|]. split; [|done].
    rewrite Hgot' in Hlen. rewrite length_take, length_drop in Hlen.
    destruct (decide (Z.to_nat n <= length contents - off)%nat); [done|lia].
  - rewrite Hah in Hgot. rewrite Hgot in Hlen. rewrite length_drop in Hlen.
    rewrite take_ge by (rewrite length_drop; lia). rewrite <- Hgot.
    split; [done|]. split; [|done].
    destruct (decide (Z.to_nat n <= length contents - off)%nat); [lia|done].
Qed.

(** X18. A reader at work on a file, and [Peek(n)]: whatever it
    returns, it consumes nothing, so that [Offset] is what it was.  A
    negative [n] is refused, and with an [n] beyond the size of the buffer
    [Peek] fails; otherwise it returns the next [n] bytes of the file, or,
    when fewer are left, those with [io.EOF]. *)
Theorem Reader_Peek_shows_without_consuming (b : bio.Reader.t) (w : World)
    (d : nat) (contents : list byte) (off : nat) (n : Z) :
  reading b w d contents off ->
  exists got e b' w',
    bio.Reader.Peek b n w = Some (Ret (got, e, b') w') /\
    reading b' w' d contents off /\
    bio.Reader.Offset b' w' = Some (Ret (Z.of_nat off) w') /\
    (n < 0 -> got = [] /\ e = Some bufio_ErrNegativeCount) /\
    (Z.of_nat (bufio.Reader.size (bio.Reader.r b)) < n -> e <> None) /\
    (0 <= n <= Z.of_nat (bufio.Reader.size (bio.Reader.r b)) ->
     got = take (Z.to_nat n) (drop off contents) /\
     e = if decide (Z.to_nat n <= length contents - off)%nat
         then None else Some io_EOF).
Proof.
  intros Hr.
  assert (Hsame : bio.Reader.mk (bio.Reader.f b) (bio.Reader.r b) = b)
    by (by destruct b).
  destruct (decide (n < 0)) as [Hneg|Hpos].
  { exists [], (Some bufio_ErrNegativeCount), b, w. split.
    { unfold bio.Reader.Peek, bufio.Reader.Peek, bind.
      apply Z.ltb_lt in Hneg. rewrite Hneg. unfold ret. by rewrite Hsame. }
    split; [done|]. split; [by apply (Offset_reading _ _ _ _ _ Hr)|].
    split; [done|]. split; [done|]. lia. }
  destruct (decide (Z.of_nat (bufio.Reader.size (bio.Reader.r b)) < n))
    as [Hbig|Hfit].
  { exists [], (Some bufio_ErrBufferFull), b, w. split.
    { unfold bio.Reader.Peek, bufio.Reader.Peek, bind.
      destruct (n <? 0) eqn:Hn0; [apply Z.ltb_lt in Hn0; lia|].
      apply Z.ltb_lt in Hbig. rewrite Hbig. unfold ret. by rewrite Hsame. }
    split; [done|]. split; [by apply (Offset_reading _ _ _ _ _ Hr)|].
    split; [lia|]. split; [done|]. apply Z.ltb_lt in Hbig. lia. }
  destruct (Peek_reading b w d contents off n Hr ltac:(lia))
    as (e & b' & w' & HP & He & Hr').
  eexists _, e, b', w'. split; [exact HP|]. split; [done|].
  split; [by apply (Offset_reading _ _ _ _ _ Hr')|].
  split; [lia|]. split; [lia|]. done.
Qed.

(** ** Closing a stream of adapter mode *)

Lemma file_write_closed f p : os.closed (os.file_write f p).2 = os.closed f.
Proof.
  unfold os.file_write. destruct (os.closed f) eqn:Hcl; [done|].
  by destruct (os.writes f).
Qed.

Lemma Flush_keeps_open b w e b' w' d fl :
  bufio.Writer.Flush b w = Some (Ret (e, b') w') ->
  files w !! d = Some fl ->
  exists fl', files w' !! d = Some fl' /\ os.closed fl' = os.closed fl.
Proof.
  unfold bufio.Writer.Flush. intros HF Hlk.
  destruct (bufio.Writer.err b); [injection HF as _ _ <-; by exists fl|].
  destruct (bufio.Writer.buf b) as [|c l]; [injection HF as _ _ <-; by exists fl|].
  destruct (bufio.Writer.wr b) as [d0|].
  - destruct (files w !! d0) as [f0|] eqn:Hf0.
    + rewrite (bind_Ret _ _ _ _ _ (os_Write_present d0 (c :: l) w f0 Hf0)) in HF.
      assert (Hw' : w' = set_file d0 (os.file_write f0 (c :: l)).2 w).
      { destruct (os.file_write f0 (c :: l)) as [[n [x|]] f1];
          cbn [fst snd] in HF |- *.
        - unfold ret in HF. by injection HF as _ _ <-.
        - destruct (n <? length (c :: l))%nat; unfold ret in HF;
            by injection HF as _ _ <-. }
      subst w'. destruct (decide (d = d0)) as [->|Hne].
      * eexists. split; [apply lookup_insert_eq|].
        rewrite file_write_closed. congruence.
      * exists fl. split; [|done]. simpl. by rewrite lookup_insert_ne.
    + rewrite (bind_Ret _ _ _ _ _
                 (on_file_absent (Some d0) _ _ w Hf0 : os_calls.Write _ _ _ = _))
        in HF.
      injection HF as _ _ <-. by exists fl.
  - rewrite (bind_Ret _ _ _ _ _
               (on_file_absent None _ _ w eq_refl : os_calls.Write _ _ _ = _))
      in HF.
    injection HF as _ _ <-. by exists fl.
Qed.

(** X19. A stream of adapter mode has no handle to release: [Close] of a
    reader made by [BufReader] does nothing and returns [os.ErrInvalid];
    [Close] of a writer with no handle flushes what is buffered to the
    stream it was put on and then always reports an error, that of the
    flush or else [os.ErrInvalid], and no file that was open is closed by
    it, the stream written to included. *)
Theorem adapter_mode_Close_releases_nothing :
  (forall rd w,
     bio.Reader.Close (bio.BufReader rd) w = Some (Ret (Some os_ErrInvalid) w)) /\
  (forall (b : bio.Writer.t) (w : World),
     bio.Writer.f b = None ->
     exists e1 w1 world1,
       bufio.Writer.Flush (bio.Writer.w b) w = Some (Ret (e1, w1) world1) /\
       bio.Writer.Close b w
       = Some (Ret (Some (default os_ErrInvalid e1), bio.Writer.mk None w1) world1) /\
       forall d fl,
         files w !! d = Some fl -> os.closed fl = false ->
         exists fl', files world1 !! d = Some fl' /\ os.closed fl' = false).
Proof.
  split; [done|]. intros b w Hf.
  destruct (Flush_returns (bio.Writer.w b) w) as (e1 & w1 & world1 & HF & _).
  exists e1, w1, world1. split; [done|]. split.
  - unfold bio.Writer.Close. rewrite (bind_Ret _ _ _ _ _ HF), Hf.
    by destruct e1.
  - intros d fl Hlk Hcl.
    destruct (Flush_keeps_open _ _ _ _ _ d fl HF Hlk) as (fl' & Hlk' & Hcl').
    exists fl'. split; [done|]. congruence.
Qed.

(** ** The further properties at concrete streams *)

Lemma demo_reading : reading demo_reader demo_world 0 (bytes "ab;cd;") 0.
Proof.
  exists (os.plain (bytes "ab;cd;")). split; [exact demo_opened|].
  split; [done|]. split; [done|]. split; [done|]. split; [done|].
  split; [simpl; lia|]. split; [done|]. by vm_compute.
Qed.

Lemma patch_composing :
  composing (bio.Writer.w patch_writer) patch_world 0 None (bytes "heXYo") 4.
Proof.
  split; [done|]. split; [unfold writer_ok; simpl; unfold bufio.defaultBufSize; lia|].
  split; [done|]. eexists. split; [by vm_compute|].
  split; [done|]. split; [done|]. split; [simpl; lia|]. by vm_compute.
Qed.

(** X2 at "ab;cd;": a seek to two bytes before the end. *)
Lemma Reader_Seek_moves_the_cursor_witness :
  reading demo_reader demo_world 0 (bytes "ab;cd;") 0 /\
  cursor_target 0 (length (bytes "ab;cd;")) (-2) 2 = Some 4 /\
  0 <= 4 <= Z.of_nat (length (bytes "ab;cd;")) /\
  exists b' w',
    bio.Reader.Seek demo_reader (-2) 2 demo_world = Some (Ret (4, b') w') /\
    bio.Reader.Offset b' w' = Some (Ret 4 w') /\
    exists e b'' w'',
      bio.Reader.Read b' 5 w' = Some (Ret (bytes "d;", e, b'') w'').
Proof.
  assert (H3 : 0 <= 4 <= Z.of_nat (length (bytes "ab;cd;"))) by (vm_compute; done).
  split; [exact demo_reading|]. split; [reflexivity|]. split; [exact H3|].
  destruct (Reader_Seek_moves_the_cursor demo_reader demo_world 0%nat
              (bytes "ab;cd;") 0%nat (-2) 2 4 demo_reading eq_refl H3)
    as (b' & w' & HS & _ & HO & _ & HR).
  exists b', w'. split; [exact HS|]. split; [exact HO|].
  apply (HR 5%nat). lia.
Defined.

(** X3 at "ab;cd;": forward by 4 and back by 3 is forward by 1. *)
Lemma Reader_Seek_relative_seeks_add_up_witness :
  reading demo_reader demo_world 0 (bytes "ab;cd;") 0 /\
  0 <= Z.of_nat 0 + 4 <= Z.of_nat (length (bytes "ab;cd;")) /\
  0 <= Z.of_nat 0 + 4 + -3 <= Z.of_nat (length (bytes "ab;cd;")) /\
  exists b1 w1 b2 w2,
    bio.Reader.Seek demo_reader 4 1 demo_world = Some (Ret (4, b1) w1) /\
    bio.Reader.Seek b1 (-3) 1 w1 = Some (Ret (1, b2) w2) /\
    bio.Reader.Seek demo_reader 1 1 demo_world = Some (Ret (1, b2) w2).
Proof.
  assert (H2 : 0 <= Z.of_nat 0 + 4 <= Z.of_nat (length (bytes "ab;cd;")))
    by (vm_compute; split; discriminate).
  assert (H3 : 0 <= Z.of_nat 0 + 4 + -3 <= Z.of_nat (length (bytes "ab;cd;")))
    by (vm_compute; split; discriminate).
  split; [exact demo_reading|]. split; [exact H2|]. split; [exact H3|].
  exact (Reader_Seek_relative_seeks_add_up demo_reader demo_world 0%nat
           (bytes "ab;cd;") 0%nat 4 (-3) demo_reading H2 H3).
Defined.

(** X4 at "ab;cd;": a [Read] into four bytes. *)
Lemma Reader_Read_hands_out_the_next_bytes_witness :
  reading demo_reader demo_world 0 (bytes "ab;cd;") 0 /\
  (0 < 4)%nat /\
  exists got b' w',
    bio.Reader.Read demo_reader 4 demo_world = Some (Ret (got, None, b') w') /\
    got = take (length got) (bytes "ab;cd;") /\
    got <> [] /\
    bio.Reader.Offset b' w' = Some (Ret (Z.of_nat (length got)) w').
Proof.
  assert (H2 : (0 < 4)%nat) by lia.
  split; [exact demo_reading|]. split; [exact H2|].
  destruct (Reader_Read_hands_out_the_next_bytes demo_reader demo_world 0%nat
              (bytes "ab;cd;") 0%nat 4%nat demo_reading H2)
    as (got & e & b' & w' & HR & Hgot & _ & Hiff & He & _ & HO & _).
  exists got, b', w'. rewrite He in HR. split; [exact HR|].
  split; [exact Hgot|]. split; [|exact HO].
  intros Hnil. apply Hiff in Hnil. discriminate Hnil.
Defined.

(** X5 at "ab;cd;": eight calls of [Bgetc]. *)
Lemma Bgetc_walks_through_the_file_witness :
  disk (world_of [("in"%string, bytes "ab;cd;")]) !! "in"%string
  = Some (bytes "ab;cd;") /\
  Z.of_nat (length (bytes "ab;cd;")) < 2 ^ 63 /\
  value (open_bgetcs 8 "in" (world_of [("in"%string, bytes "ab;cd;")]))
  = Some [97; 98; 59; 99; 100; 59; -1; -1].
Proof.
  assert (H2 : Z.of_nat (length (bytes "ab;cd;")) < 2 ^ 63) by done.
  split; [reflexivity|]. split; [exact H2|].
  exact (Bgetc_walks_through_the_file "in" (bytes "ab;cd;")
           (world_of [("in"%string, bytes "ab;cd;")]) 8 eq_refl H2).
Defined.

(** X6 at "ab;cd;": three calls of [Bread] into four bytes. *)
Lemma Bread_cuts_the_file_into_pieces_witness :
  disk (world_of [("in"%string, bytes "ab;cd;")]) !! "in"%string
  = Some (bytes "ab;cd;") /\
  Z.of_nat (length (bytes "ab;cd;")) < 2 ^ 63 /\
  Forall (fun len => (len <= 10)%nat) [4; 4; 4]%nat /\
  value (open_breads 10 [4; 4; 4]%nat "in"
           (world_of [("in"%string, bytes "ab;cd;")]))
  = Some [(4, bytes "ab;c"); (2, bytes "d;"); (0, [])].
Proof.
  assert (H2 : Z.of_nat (length (bytes "ab;cd;")) < 2 ^ 63) by done.
  assert (H3 : Forall (fun len => (len <= 10)%nat) [4; 4; 4]%nat)
    by (repeat constructor; lia).
  split; [reflexivity|]. split; [exact H2|]. split; [exact H3|].
  exact (proj1 (Bread_cuts_the_file_into_pieces "in" (bytes "ab;cd;")
                  (world_of [("in"%string, bytes "ab;cd;")]) 10
                  [4; 4; 4]%nat eq_refl H2 H3)).
Defined.

(** X7 at "ab;cd;": two lines, and the third call. *)
Lemma Brdline_returns_the_lines_in_order_witness :
  disk (world_of [("in"%string, bytes "ab;cd;")]) !! "in"%string
  = Some (join_lines (byte_of_int 59) [bytes "ab"; bytes "cd"] ++ []) /\
  Z.of_nat (length (join_lines (byte_of_int 59) [bytes "ab"; bytes "cd"] ++ []))
  < 2 ^ 63 /\
  Forall (fun l => byte_of_int 59 ∉ l) [bytes "ab"; bytes "cd"] /\
  (length (join_lines (byte_of_int 59) [bytes "ab"; bytes "cd"] ++ []) + 1 < 10)%nat /\
  value (open_brdlines 10 2 "in" 59 (world_of [("in"%string, bytes "ab;cd;")]))
  = Some ["ab;"%string; "cd;"%string] /\
  open_brdlines 10 3 "in" 59 (world_of [("in"%string, bytes "ab;cd;")])
  = Some (Fatal "reading input: %v" io_EOF).
Proof.
  assert (H2 : Z.of_nat (length (join_lines (byte_of_int 59)
                                   [bytes "ab"; bytes "cd"] ++ [])) < 2 ^ 63)
    by done.
  assert (H3 : Forall (fun l => byte_of_int 59 ∉ l) [bytes "ab"; bytes "cd"]).
  { apply (bool_decide_unpack _). by vm_compute. }
  assert (H4 : (length (join_lines (byte_of_int 59)
                          [bytes "ab"; bytes "cd"] ++ []) + 1 < 10)%nat)
    by (vm_compute; lia).
  split; [reflexivity|]. split; [exact H2|]. split; [exact H3|].
  split; [exact H4|].
  destruct (Brdline_returns_the_lines_in_order "in" 59 [bytes "ab"; bytes "cd"] []
              (world_of [("in"%string, bytes "ab;cd;")]) 10 eq_refl H2 H3 H4)
    as (Hv & Hf).
  split; [exact Hv|]. apply Hf. apply not_elem_of_nil.
Defined.

(** X8 at "ab;cd;": four bytes read twice. *)
Lemma Bread_again_after_seeking_back_witness :
  reading demo_reader demo_world 0 (bytes "ab;cd;") 0 /\
  (4 <= 10)%nat /\
  exists b' w',
    bread_back_bread 10 demo_reader 4 demo_world
    = Some (Ret (4, bytes "ab;c", 4, bytes "ab;c", b') w') /\
    bio.Reader.Offset b' w' = Some (Ret 4 w').
Proof.
  assert (H2 : (4 <= 10)%nat) by lia.
  split; [exact demo_reading|]. split; [exact H2|].
  exact (Bread_again_after_seeking_back demo_reader demo_world 0%nat
           (bytes "ab;cd;") 0%nat 4%nat 10%nat demo_reading H2).
Defined.

(** X9 at "ab;cd;". *)
Lemma Reader_Close_releases_the_handle_witness :
  opened demo_reader demo_world 0 (os.plain (bytes "ab;cd;")) /\
  os.closed (os.plain (bytes "ab;cd;")) = false /\
  exists w',
    bio.Reader.Close demo_reader demo_world = Some (Ret None w') /\
    (exists e, bio.Reader.Close demo_reader w' = Some (Ret (Some e) w')) /\
    (exists e,
       e <> io_EOF /\
       bio.Bgetc demo_reader w' = Some (Fatal "reading input: %v" e)).
Proof.
  split; [exact demo_opened|]. split; [reflexivity|].
  destruct (Reader_Close_releases_the_handle demo_reader demo_world 0%nat
              (os.plain (bytes "ab;cd;")) demo_opened eq_refl)
    as (w' & HC & _ & _ & (e2 & _ & HC2) & _ & _ & HB).
  destruct (HB eq_refl eq_refl) as (e & _ & Hne & HBg).
  exists w'. split; [exact HC|]. split; [by exists e2|]. by exists e.
Defined.

(** X11 on a writer that holds "XY" for offset 2 of "hello": two bytes
    more go behind them, beyond the end of the file. *)
Lemma Writer_writes_go_where_the_writer_stands_witness :
  composing (bio.Writer.w patch_writer) patch_world 0 None (bytes "heXYo") 4 /\
  exists b1 w1 b2 w2 fl,
    do_write patch_writer (W_Write (bytes "!!")) patch_world
    = Some (Ret (2%nat, None, b1) w1) /\
    bio.Writer.Flush b1 w1 = Some (Ret (None, b2) w2) /\
    files w2 !! 0%nat = Some fl /\
    os.data fl = bytes "heXY!!" /\ os.pos fl = 6%nat.
Proof.
  split; [exact patch_composing|].
  destruct (Writer_writes_go_where_the_writer_stands patch_writer
              (W_Write (bytes "!!")) patch_world 0%nat None (bytes "heXYo") 4%nat
              patch_composing)
    as (b1 & w1 & b2 & w2 & fl & Hdo & _ & HF & _ & Hlk & Hd & Hpos).
  exists b1, w1, b2, w2, fl. split; [exact Hdo|]. split; [exact HF|].
  split; [exact Hlk|]. split; [exact Hd|exact Hpos].
Defined.

(** X12 on the same writer: a seek to one byte before the end. *)
Lemma Writer_Seek_moves_the_writer_witness :
  composing (bio.Writer.w patch_writer) patch_world 0 None (bytes "heXYo") 4 /\
  bio.Writer.f patch_writer = Some 0%nat /\
  cursor_target 4 (length (bytes "heXYo")) (-1) 2 = Some 4 /\
  0 <= 4 <= Z.of_nat (length (bytes "heXYo")) /\
  Z.of_nat (length (bytes "heXYo")) < 2 ^ 63 /\
  exists b1 w1 fl b2 w2,
    bio.Writer.Seek patch_writer (-1) 2 patch_world = Some (Ret (4, b1) w1) /\
    files w1 !! 0%nat = Some fl /\ os.data fl = bytes "heXYo" /\
    bio.Writer.Offset b1 w1 = Some (Ret (4, b2) w2).
Proof.
  assert (H4 : 0 <= 4 <= Z.of_nat (length (bytes "heXYo")))
    by (vm_compute; split; discriminate).
  assert (H5 : Z.of_nat (length (bytes "heXYo")) < 2 ^ 63) by done.
  split; [exact patch_composing|]. split; [reflexivity|]. split; [reflexivity|].
  split; [exact H4|]. split; [exact H5|].
  destruct (Writer_Seek_moves_the_writer patch_writer patch_world 0%nat None
              (bytes "heXYo") 4%nat (-1) 2 4 patch_composing eq_refl eq_refl H4 H5)
    as (b1 & w1 & fl & b2 & w2 & HS & _ & Hlk & Hd & _ & _ & HO).
  exists b1, w1, fl, b2, w2. split; [exact HS|]. split; [exact Hlk|].
  split; [exact Hd|exact HO].
Defined.

(** X13 at three writes of 5, 2 and 1 bytes. *)
Lemma created_file_holds_the_bytes_written_witness :
  bio.Create "out" (world_of []) = Some (Ret (Some out_created.1, None) out_created.2) /\
  file_at (bio.Writer.f out_created.1) out_created.2 = Some (os.plain []) /\
  plain_writes (os.plain []) /\
  exists w' fl,
    create_write_close "out"
      [W_Write (bytes "hello"); W_WriteString (bytes ", "); W_WriteByte "w"%byte]
      (world_of [])
    = Some (Ret (8%nat, None, None) w') /\
    file_at (bio.Writer.f out_created.1) w' = Some fl /\
    os.data fl = bytes "hello, w" /\
    os.closed fl = true.
Proof.
  assert (H1 : bio.Create "out" (world_of [])
               = Some (Ret (Some out_created.1, None) out_created.2))
    by (by vm_compute).
  assert (H2 : file_at (bio.Writer.f out_created.1) out_created.2
               = Some (os.plain [])) by (by vm_compute).
  assert (H3 : plain_writes (os.plain [])) by done.
  split; [exact H1|]. split; [exact H2|]. split; [exact H3|].
  destruct (created_file_holds_the_bytes_written "out"
              [W_Write (bytes "hello"); W_WriteString (bytes ", ");
               W_WriteByte "w"%byte] (world_of []) out_created.1 out_created.2
              (os.plain []) H1 H2 H3)
    as (w' & fl & Hrun & Hlk & Hd & Hcl & _).
  exists w', fl. split; [exact Hrun|]. split; [exact Hlk|].
  split; [exact Hd|exact Hcl].
Defined.

(** X14 at ten bytes written, a seek to 5 and two bytes written there. *)
Lemma Writer_Seek_back_and_overwrite_witness :
  bio.Create "out" (world_of []) = Some (Ret (Some out_created.1, None) out_created.2) /\
  file_at (bio.Writer.f out_created.1) out_created.2 = Some (os.plain []) /\
  plain_writes (os.plain []) /\
  0 <= 5 <= Z.of_nat (length (bytes "0123456789")) /\
  Z.of_nat (length (bytes "0123456789")) < 2 ^ 63 /\
  exists w' fl,
    write_seek_write "out" (bytes "0123456789") (bytes "AB") 5 (world_of [])
    = Some (Ret (5, 5, None) w') /\
    file_at (bio.Writer.f out_created.1) w' = Some fl /\
    os.data fl = bytes "01234AB789" /\
    os.closed fl = true.
Proof.
  assert (H1 : bio.Create "out" (world_of [])
               = Some (Ret (Some out_created.1, None) out_created.2))
    by (by vm_compute).
  assert (H2 : file_at (bio.Writer.f out_created.1) out_created.2
               = Some (os.plain [])) by (by vm_compute).
  assert (H3 : plain_writes (os.plain [])) by done.
  assert (H4 : 0 <= 5 <= Z.of_nat (length (bytes "0123456789")))
    by (vm_compute; split; discriminate).
  assert (H5 : Z.of_nat (length (bytes "0123456789")) < 2 ^ 63) by done.
  split; [exact H1|]. split; [exact H2|]. split; [exact H3|].
  split; [exact H4|]. split; [exact H5|].
  exact (Writer_Seek_back_and_overwrite "out" (bytes "0123456789") (bytes "AB") 5
           (world_of []) out_created.1 out_created.2 (os.plain []) H1 H2 H3 H4 H5).
Defined.

(** X15 on the writer whose file refuses the write. *)
Lemma Writer_error_sticks_witness :
  bio.Writer.Flush pending_writer full_disk_world
  = Some (Ret (Some (os_PathError ENOSPC), flush_failed.1) flush_failed.2) /\
  bio.Writer.Write flush_failed.1 (bytes "more") flush_failed.2
  = Some (Ret (0%nat, Some (os_PathError ENOSPC), flush_failed.1) flush_failed.2) /\
  bio.Writer.Offset flush_failed.1 flush_failed.2
  = Some (Fatal "writing output: %v" (os_PathError ENOSPC)).
Proof.
  assert (H1 : bio.Writer.Flush pending_writer full_disk_world
               = Some (Ret (Some (os_PathError ENOSPC), flush_failed.1)
                           flush_failed.2)) by (by vm_compute).
  split; [exact H1|].
  destruct (Writer_error_sticks pending_writer full_disk_world
              (os_PathError ENOSPC) flush_failed.1 flush_failed.2 H1)
    as (HW & _ & _ & _ & _ & HO & _).
  split; [exact (HW (bytes "more") flush_failed.2)|exact (HO flush_failed.2)].
Defined.

(** X18 at "ab;cd;": two bytes are there, seven are not. *)
Lemma Reader_Peek_shows_without_consuming_witness :
  reading demo_reader demo_world 0 (bytes "ab;cd;") 0 /\
  (exists e b' w',
     bio.Reader.Peek demo_reader 2 demo_world = Some (Ret (bytes "ab", e, b') w') /\
     e = None /\
     bio.Reader.Offset b' w' = Some (Ret 0 w')) /\
  (exists e b' w',
     bio.Reader.Peek demo_reader 7 demo_world
     = Some (Ret (bytes "ab;cd;", e, b') w') /\
     e = Some io_EOF /\
     bio.Reader.Offset b' w' = Some (Ret 0 w')).
Proof.
  split; [exact demo_reading|].
  assert (Hin : forall n, 0 <= n <= 4096 ->
            0 <= n <= Z.of_nat (bufio.Reader.size (bio.Reader.r demo_reader))).
  { intros n Hn. exact Hn. }
  split.
  - destruct (Reader_Peek_shows_without_consuming demo_reader demo_world 0%nat
                (bytes "ab;cd;") 0%nat 2 demo_reading)
      as (got & e & b' & w' & HP & _ & HO & _ & _ & Hres).
    destruct (Hres (Hin 2 ltac:(lia))) as (-> & ->).
    exists None, b', w'. split; [exact HP|]. split; [reflexivity|exact HO].
  - destruct (Reader_Peek_shows_without_consuming demo_reader demo_world 0%nat
                (bytes "ab;cd;") 0%nat 7 demo_reading)
      as (got & e & b' & w' & HP & _ & HO & _ & _ & Hres).
    destruct (Hres (Hin 7 ltac:(lia))) as (-> & ->).
    exists (Some io_EOF), b', w'. split; [exact HP|]. split; [reflexivity|exact HO].
Defined.
